(** * lz4ultra: block decompressor and command line driver

    A shallow embedding of [src/expand.c] (the LZ4 block decompressor used to
    verify the compressor's output) and of the two revisions of [main.c]
    (the command line driver), followed by the properties proved about them.

    Conventions.
    - C integers and pointers are [Z]; an [unsigned int] is reduced modulo
      2^32 where the C code can wrap around.
    - The read-only compressed block is a [list byte]; the pointer
      [pInBlock] is represented by the bytes that remain between it and
      [pInBlockEnd], so [pInBlockEnd - pInBlock] is the length of that list.
    - The output buffer is a [list byte] indexed from [pOutData]; the pointer
      [pCurOutData] is the index [cur].  The buffer is updated in place by
      the C code, so every function returns the buffer it leaves behind,
      also when it fails. *)

From Stdlib Require Import ZArith Lia.
From Stdlib Require Import Init.Byte Ascii String.
From stdpp Require Import base list strings gmap.

Local Open Scope Z_scope.

(** ** Bytes and buffers *)

Definition byte_val (b : byte) : Z := Z.of_N (Byte.to_N b).

(** Conversion of a C integer to [unsigned char]. *)
Definition byte_of_Z (z : Z) : byte :=
  default x00 (Byte.of_N (Z.to_N (z mod 256))).

(** Reduction of an [unsigned int] result. *)
Definition uint32 (z : Z) : Z := z mod 2 ^ 32.

(** [buf[p]] and [buf[p] = v]. *)
Definition peek (buf : list byte) (p : Z) : byte :=
  default x00 (buf !! Z.to_nat p).

Definition poke (buf : list byte) (p : Z) (v : byte) : list byte :=
  <[Z.to_nat p := v]> buf.

(** Writing the bytes [bs] at [buf + p], lowest address first. *)
Fixpoint store (buf : list byte) (p : Z) (bs : list byte) : list byte :=
  match bs with
  | [] => buf
  | b :: bs' => store (poke buf p b) (p + 1) bs'
  end.

(** Reading [n] bytes at [buf + p]. *)
Fixpoint load (buf : list byte) (p : Z) (n : nat) : list byte :=
  match n with
  | O => []
  | S n' => peek buf p :: load buf (p + 1) n'
  end.

(** [memcpy(buf + dst, buf + src, n)] inside one buffer: the source bytes are
    read, then written (the C code only calls it on regions that do not
    overlap). *)
Definition memcpy (buf : list byte) (dst src : Z) (n : nat) : list byte :=
  store buf dst (load buf src n).

(** [n] times [*dst++ = *src++]: each byte is read after the previous one was
    written, which is what makes overlapping matches repeat their source. *)
Fixpoint copy_bytes (n : nat) (buf : list byte) (src dst : Z) : list byte :=
  match n with
  | O => buf
  | S n' => copy_bytes n' (poke buf dst (peek buf src)) (src + 1) (dst + 1)
  end.

(** ** Constants of format.h *)

(** Modelled from the spec: [format.h] is not part of the sources at hand; the
    specification gives the nibble value 15 that announces a variable-length
    run and the minimum match size 4. *)
Definition LITERALS_RUN_LEN : Z := 15.
Definition MATCH_RUN_LEN : Z := 15.
Definition MIN_MATCH_SIZE : Z := 4.

(** ** expand.c *)

(** The [do { if (pInBlock < pInBlockEnd) { nByte = *pInBlock++; n += nByte; }
    else break; } while (nByte == 255);] loop shared by the two slow helpers.
    Returns the remaining input and the accumulated [unsigned int]. *)
Fixpoint read_run (inp : list byte) (n : Z) : list byte * Z :=
  match inp with
  | [] => (inp, n)
  | b :: inp' =>
      let n' := uint32 (n + byte_val b) in
      if byte_val b =? 255 then read_run inp' n' else (inp', n')
  end.

(** [lz4ultra_expand_literals_slow]: [None] is the [return -1]; otherwise the
    new [*ppInBlock], the buffer and the new [*ppCurOutData]. *)
Definition lz4ultra_expand_literals_slow (inp : list byte) (nLiterals : Z)
    (out : list byte) (cur pOutDataEnd : Z)
  : option (list byte * list byte * Z) :=
  let '(inp1, nLiterals1) :=
    if nLiterals =? LITERALS_RUN_LEN then read_run inp nLiterals
    else (inp, nLiterals) in
  if nLiterals1 =? 0 then Some (inp1, out, cur)
  else if (nLiterals1 <=? Z.of_nat (length inp1))
          && (cur + nLiterals1 <=? pOutDataEnd)
  then Some (drop (Z.to_nat nLiterals1) inp1,
             store out cur (take (Z.to_nat nLiterals1) inp1),
             cur + nLiterals1)
  else None.

(** The 16-bytes-at-a-time [do ... while (pCopyDst < pCopyEndDst)] loop of
    [lz4ultra_expand_match_slow].  [fuel] bounds the number of rounds. *)
Fixpoint copy_chunks16 (fuel : nat) (buf : list byte) (src dst dend : Z)
  : list byte :=
  match fuel with
  | O => buf
  | S fuel' =>
      let buf1 := memcpy buf dst src 8 in
      let buf2 := memcpy buf1 (dst + 8) (src + 8) 8 in
      if dst + 16 <? dend then copy_chunks16 fuel' buf2 (src + 16) (dst + 16) dend
      else buf2
  end.

(** [while (nMatchLen >= 4) { four byte copies; nMatchLen -= 4; }] *)
Fixpoint copy_quads (rounds : nat) (buf : list byte) (src dst : Z)
  : list byte * Z * Z :=
  match rounds with
  | O => (buf, src, dst)
  | S rounds' =>
      let b1 := poke buf dst (peek buf src) in
      let b2 := poke b1 (dst + 1) (peek b1 (src + 1)) in
      let b3 := poke b2 (dst + 2) (peek b2 (src + 2)) in
      let b4 := poke b3 (dst + 3) (peek b3 (src + 3)) in
      copy_quads rounds' b4 (src + 4) (dst + 4)
  end.

(** The byte-wise branch: the unrolled loop, then
    [while (nMatchLen--) *pCurOutData++ = *pSrc++;]. *)
Definition copy_match_bytewise (buf : list byte) (src dst nMatchLen : Z)
  : list byte :=
  let '(buf1, src1, dst1) := copy_quads (Z.to_nat (nMatchLen / 4)) buf src dst in
  copy_bytes (Z.to_nat (nMatchLen mod 4)) buf1 src1 dst1.

(** [lz4ultra_expand_match_slow]: [None] is the [return -1]. *)
Definition lz4ultra_expand_match_slow (inp : list byte) (pSrc nMatchLen : Z)
    (out : list byte) (cur pOutDataEnd pOutDataFastEnd : Z)
  : option (list byte * list byte * Z) :=
  let '(inp1, nMatchLen1) :=
    if nMatchLen =? MATCH_RUN_LEN then read_run inp nMatchLen
    else (inp, nMatchLen) in
  let nMatchLen2 := uint32 (nMatchLen1 + MIN_MATCH_SIZE) in
  if cur + nMatchLen2 <=? pOutDataEnd then
    if (8 <=? cur - pSrc) && (cur + nMatchLen2 <=? pOutDataFastEnd) then
      Some (inp1,
            copy_chunks16 (S (Z.to_nat nMatchLen2)) out pSrc cur (cur + nMatchLen2),
            cur + nMatchLen2)
    else
      Some (inp1, copy_match_bytewise out pSrc cur nMatchLen2, cur + nMatchLen2)
  else None.

(** The state of [lz4ultra_decompressor_expand_block_lz4] between two tokens.
    [seen] is ghost state: for every match offset decoded so far, the output
    position at which the match was to be written and the offset. *)
Record dec_state := DecState {
  inp : list byte;
  out : list byte;
  cur : Z;
  seen : list (Z * Z)
}.

Inductive token_result :=
| Fail (st : dec_state)
| Next (st : dec_state).

(** [(token & 0xf0) >> 4] and [token & 0x0f]. *)
Definition literals_nibble (token : byte) : Z :=
  Z.shiftr (Z.land (byte_val token) 240) 4.

Definition match_nibble (token : byte) : Z := Z.land (byte_val token) 15.

(** The two offset bytes, low byte first: [b0 | (b1 << 8)]. *)
Definition match_offset (b0 b1 : byte) : Z :=
  Z.lor (byte_val b0) (Z.shiftl (byte_val b1) 8).

(** The match half of one round of the slow loop, entered after the literals
    with the state [st]. *)
Definition slow_match (token : byte) (pOutDataEnd pOutDataFastEnd : Z)
    (st : dec_state) : token_result :=
  match inp st with
  | b0 :: b1 :: inp2 =>
      let nMatchOffset := match_offset b0 b1 in
      let pSrc := cur st - nMatchOffset in
      let st1 := DecState inp2 (out st) (cur st)
                          (seen st ++ [(cur st, nMatchOffset)]) in
      if 0 <=? pSrc then
        match lz4ultra_expand_match_slow inp2 pSrc (match_nibble token)
                (out st) (cur st) pOutDataEnd pOutDataFastEnd with
        | Some (inp3, out3, cur3) => Next (DecState inp3 out3 cur3 (seen st1))
        | None => Fail st1
        end
      else Fail st1
  | _ => Next st
  end.

(** One round of the slow loop (lines 202-223). *)
Definition slow_token (pOutDataEnd pOutDataFastEnd : Z) (st : dec_state)
  : token_result :=
  match inp st with
  | [] => Next st
  | token :: inp0 =>
      match lz4ultra_expand_literals_slow inp0 (literals_nibble token)
              (out st) (cur st) pOutDataEnd with
      | None => Fail (DecState inp0 (out st) (cur st) (seen st))
      | Some (inp1, out1, cur1) =>
          slow_match token pOutDataEnd pOutDataFastEnd
            (DecState inp1 out1 cur1 (seen st))
      end
  end.

(** The match half of one round of the fast loop. *)
Definition fast_match (token : byte) (pOutDataEnd pOutDataFastEnd : Z)
    (st : dec_state) : token_result :=
  match inp st with
  | b0 :: b1 :: inp2 =>
      let nMatchOffset := match_offset b0 b1 in
      let pSrc := cur st - nMatchOffset in
      let st1 := DecState inp2 (out st) (cur st)
                          (seen st ++ [(cur st, nMatchOffset)]) in
      if 0 <=? pSrc then
        let nMatchLen := match_nibble token in
        if (nMatchLen <? MATCH_RUN_LEN) && (8 <=? nMatchOffset)
           && (cur st <? pOutDataFastEnd)
        then
          let o1 := memcpy (out st) (cur st) pSrc 8 in
          let o2 := memcpy o1 (cur st + 8) (pSrc + 8) 8 in
          let o3 := memcpy o2 (cur st + 16) (pSrc + 16) 4 in
          Next (DecState inp2 o3 (cur st + (MIN_MATCH_SIZE + nMatchLen)) (seen st1))
        else
          match lz4ultra_expand_match_slow inp2 pSrc nMatchLen
                  (out st) (cur st) pOutDataEnd pOutDataFastEnd with
          | Some (inp3, out3, cur3) => Next (DecState inp3 out3 cur3 (seen st1))
          | None => Fail st1
          end
      else Fail st1
  | _ => Next st
  end.

(** One round of the fast loop (lines 160-196). *)
Definition fast_token (pOutDataEnd pOutDataFastEnd : Z) (st : dec_state)
  : token_result :=
  match inp st with
  | [] => Next st
  | token :: inp0 =>
      let nLiterals := literals_nibble token in
      if nLiterals <? LITERALS_RUN_LEN then
        fast_match token pOutDataEnd pOutDataFastEnd
          (DecState (drop (Z.to_nat nLiterals) inp0)
                    (store (out st) (cur st) (take 16 inp0))
                    (cur st + nLiterals) (seen st))
      else
        match lz4ultra_expand_literals_slow inp0 nLiterals
                (out st) (cur st) pOutDataEnd with
        | None => Fail (DecState inp0 (out st) (cur st) (seen st))
        | Some (inp1, out1, cur1) =>
            fast_match token pOutDataEnd pOutDataFastEnd
              (DecState inp1 out1 cur1 (seen st))
        end
  end.

(** [while (pInBlock < pInBlockFastEnd && pCurOutData < pOutDataFastEnd)]:
    [pInBlockFastEnd] is [pInBlockEnd - 16].  [None]: out of fuel. *)
Fixpoint fast_loop (fuel : nat) (pOutDataEnd pOutDataFastEnd : Z)
    (st : dec_state) : option token_result :=
  match fuel with
  | O => None
  | S fuel' =>
      if (16 <? Z.of_nat (length (inp st))) && (cur st <? pOutDataFastEnd) then
        match fast_token pOutDataEnd pOutDataFastEnd st with
        | Fail st' => Some (Fail st')
        | Next st' => fast_loop fuel' pOutDataEnd pOutDataFastEnd st'
        end
      else Some (Next st)
  end.

(** [while (pInBlock < pInBlockEnd)] *)
Fixpoint slow_loop (fuel : nat) (pOutDataEnd pOutDataFastEnd : Z)
    (st : dec_state) : option token_result :=
  match fuel with
  | O => None
  | S fuel' =>
      if 0 <? Z.of_nat (length (inp st)) then
        match slow_token pOutDataEnd pOutDataFastEnd st with
        | Fail st' => Some (Fail st')
        | Next st' => slow_loop fuel' pOutDataEnd pOutDataFastEnd st'
        end
      else Some (Next st)
  end.

(** The value returned to the caller, with the state left behind. *)
Definition finish (nOutDataOffset : Z) (r : token_result) : Z * dec_state :=
  match r with
  | Fail st => (-1, st)
  | Next st => (cur st - nOutDataOffset, st)
  end.

(** The fast loop, then the slow loop on the state it leaves. *)
Definition both_loops (fuel : nat) (pOutDataEnd pOutDataFastEnd : Z)
    (st : dec_state) : option token_result :=
  match fast_loop fuel pOutDataEnd pOutDataFastEnd st with
  | None => None
  | Some (Fail st') => Some (Fail st')
  | Some (Next st') => slow_loop fuel pOutDataEnd pOutDataFastEnd st'
  end.

(** [lz4ultra_decompressor_expand_block_lz4].  [nBlockSize] is the length of
    [pInBlock]; every round of either loop reads a token, so that many rounds
    plus one are enough fuel (see [expand_block_total]). *)
Definition lz4ultra_decompressor_expand_block_lz4 (pInBlock : list byte)
    (pOutData : list byte) (nOutDataOffset nBlockMaxSize : Z)
  : option (Z * dec_state) :=
  let pOutDataEnd := nOutDataOffset + nBlockMaxSize in
  let pOutDataFastEnd := pOutDataEnd - 20 in
  finish nOutDataOffset <$>
    both_loops (S (length pInBlock)) pOutDataEnd pOutDataFastEnd
      (DecState pInBlock pOutData nOutDataOffset []).

(** A decoder that runs every token through the slow loop only: the function
    above without its fast loop. *)
Definition expand_block_slow_only (pInBlock : list byte)
    (pOutData : list byte) (nOutDataOffset nBlockMaxSize : Z)
  : option (Z * dec_state) :=
  let pOutDataEnd := nOutDataOffset + nBlockMaxSize in
  let pOutDataFastEnd := pOutDataEnd - 20 in
  finish nOutDataOffset <$>
    slow_loop (S (length pInBlock)) pOutDataEnd pOutDataFastEnd
      (DecState pInBlock pOutData nOutDataOffset []).

(** The decompressed bytes: [r] bytes from [pOutData + nOutDataOffset]. *)
Definition produced (nOutDataOffset : Z) (res : Z * dec_state) : list byte :=
  take (Z.to_nat res.1) (drop (Z.to_nat nOutDataOffset) (out res.2)).

(** ** The command line driver, first revision (main.c with its own frame
    code: [lz4ultra_compress], [lz4ultra_decompress], [lz4ultra_compare])

    Not modelled: what is printed on standard output, timing, and failure of
    [malloc], [fwrite] and [fclose].  A file opened for reading is the list of
    its bytes as they were when it was opened: the model is for an input and
    an output that are different files (with one path for both,
    [fopen(..., "wb")] empties the file that is being read), and the
    properties of [lz4ultra_compress] on a non-empty input ask for different
    paths.  The buffers that [malloc] returns are not cleared by the code;
    the model starts them filled with zero bytes.  This only shows when a
    compressed block reaches back before the first byte that was decoded. *)

Definition BLOCK_SIZE : Z := 65536.
Definition OPT_VERBOSE : Z := 1.
Definition OPT_RAW : Z := 2.

(** A [FILE*] opened with ["rb"]: the bytes not read yet and the end-of-file
    indicator, which [fread] sets when it gets fewer bytes than asked for. *)
Record rfile := RFile {
  rest : list byte;
  at_eof : bool
}.

Definition fread (n : Z) (f : rfile) : list byte * rfile :=
  if n <=? Z.of_nat (length (rest f))
  then (take (Z.to_nat n) (rest f), RFile (drop (Z.to_nat n) (rest f)) (at_eof f))
  else (rest f, RFile [] true).

(** The files that can be opened for reading, and the paths that cannot be
    opened for writing. *)
Record world := World {
  files : gmap string (list byte);
  unwritable : gset string
}.

Definition fopen_rb (w : world) (name : string) : option rfile :=
  (fun data => RFile data false) <$> files w !! name.

Definition fopen_wb (w : world) (name : string) : bool :=
  negb (bool_decide (name ∈ unwritable w)).

(** [fclose] of a file opened with ["wb"] into which [data] was written. *)
Definition fclose_wb (w : world) (name : string) (data : list byte) : world :=
  World (<[name := data]> (files w)) (unwritable w).

(** What the tool prints on standard error. *)
Inductive diagnostic :=
| DiagUsage
| DiagOpenRead
| DiagOpenWrite
| DiagInitCompressor
| DiagRawTooLarge
| DiagRawUncompressed
| DiagCompressionError
| DiagReadHeader
| DiagBadHeader
| DiagRawFileSize
| DiagDecompressionError
| DiagOpenCompressed
| DiagOpenOriginal
| DiagCompareError (nKnownGoodSize : Z).

(** [memcpy(buf + p, bs, |bs|)] and the [n] bytes at [buf + p], for the large
    buffers of the driver. *)
Definition blit (buf : list byte) (p : Z) (bs : list byte) : list byte :=
  take (Z.to_nat p) buf ++ bs ++ drop (Z.to_nat p + length bs)%nat buf.

Definition slice (buf : list byte) (p n : Z) : list byte :=
  take (Z.to_nat n) (drop (Z.to_nat p) buf).

(** [memcmp(a, b, n) == 0] on two regions of the same size. *)
Definition bytes_eqb (a b : list byte) : bool :=
  bool_decide (Byte.to_N <$> a = Byte.to_N <$> b).

(** The 4-byte block header: size, low byte first, bit 31 set for a block
    stored uncompressed. *)
Definition block_header (nSize : Z) (uncompressed : bool) : list byte :=
  [ byte_of_Z (Z.land nSize 255);
    byte_of_Z (Z.land (Z.shiftr nSize 8) 255);
    byte_of_Z (Z.land (Z.shiftr nSize 16) 255);
    byte_of_Z (Z.lor (Z.land (Z.shiftr nSize 24) 127)
                     (if uncompressed then 128 else 0)) ].

Definition read_block_size (c : list byte) : Z :=
  match c with
  | [c0; c1; c2; c3] =>
      Z.lor (Z.lor (Z.lor (byte_val c0) (Z.shiftl (byte_val c1) 8))
                   (Z.shiftl (byte_val c2) 16))
            (Z.shiftl (byte_val c3) 24)
  | _ => 0
  end.

(** The frame header written by [lz4ultra_compress] and required by
    [lz4ultra_decompress] and [lz4ultra_compare]. *)
Definition frame_header : list byte := [x04; x22; x4d; x18; x40; x40; xc0].

Definition has_flag (nOptions flag : Z) : bool :=
  negb (Z.land nOptions flag =? 0).

Section FrameCode.

(** The compressor and the block decompressor called by this revision are
    declared in [shrink.h] and [expand.h], which are not at hand: they are
    parameters.  [lz4ultra_shrink_block] receives the window
    [pInData + BLOCK_SIZE - nPreviousBlockSize] (previous block, then current
    block), the two sizes and the room in [pOutData]; it returns
    [nOutDataSize] and the contents of [pOutData].  [lz4ultra_expand_block]
    receives the compressed block, the output buffer, [nOutDataOffset] and
    [nBlockMaxSize]; it returns the decompressed size (negative for an error)
    and the output buffer. *)
Variable lsza_compressor : Type.
Variable lz4ultra_compressor_init : Z -> Z * lsza_compressor.
Variable lz4ultra_shrink_block :
  lsza_compressor -> list byte -> Z -> Z -> Z -> Z * list byte * lsza_compressor.
Variable lz4ultra_compressor_get_command_count : lsza_compressor -> Z.
Variable lz4ultra_expand_block :
  list byte -> list byte -> Z -> Z -> Z * list byte.

(** *** lz4ultra_compress *)

Record cstate := CState {
  c_in : rfile;               (* f_in *)
  c_written : list byte;      (* what went to f_out *)
  c_indata : list byte;       (* pInData, 2 * BLOCK_SIZE bytes *)
  c_prev : Z;                 (* nPreviousBlockSize *)
  c_comp : lsza_compressor;
  c_error : bool;             (* bError *)
  c_diag : list diagnostic
}.

(** One round of [while (!feof(f_in) && !bError)]; the boolean tells whether
    the round left the loop with [break]. *)
Definition compress_round (nOptions : Z) (st : cstate) : bool * cstate :=
  let indata1 :=
    if c_prev st =? 0 then c_indata st
    else blit (c_indata st) 0 (slice (c_indata st) BLOCK_SIZE (c_prev st)) in
  let '(data, f_in1) := fread BLOCK_SIZE (c_in st) in
  let indata2 := blit indata1 BLOCK_SIZE data in
  let nInDataSize := Z.of_nat (length data) in
  if 0 <? nInDataSize then
    if negb (c_prev st =? 0) && has_flag nOptions OPT_RAW then
      (true, CState f_in1 (c_written st) indata2 (c_prev st) (c_comp st) true
                    (c_diag st ++ [DiagRawTooLarge]))
    else
      let '(nOutDataSize, outdata, comp1) :=
        lz4ultra_shrink_block (c_comp st)
          (slice indata2 (BLOCK_SIZE - c_prev st) (c_prev st + nInDataSize))
          (c_prev st) nInDataSize
          (if BLOCK_SIZE <=? nInDataSize then BLOCK_SIZE else nInDataSize) in
      if 0 <=? nOutDataSize then
        let hdr := if has_flag nOptions OPT_RAW then []
                   else block_header nOutDataSize false in
        (false, CState f_in1
                  (c_written st ++ hdr ++ take (Z.to_nat nOutDataSize) outdata)
                  indata2 nInDataSize comp1 (c_error st) (c_diag st))
      else if has_flag nOptions OPT_RAW then
        (true, CState f_in1 (c_written st) indata2 (c_prev st) comp1 true
                      (c_diag st ++ [DiagRawUncompressed]))
      else
        (false, CState f_in1
                  (c_written st ++ block_header nInDataSize true
                     ++ slice indata2 BLOCK_SIZE nInDataSize)
                  indata2 nInDataSize comp1 (c_error st) (c_diag st))
  else
    (false, CState f_in1 (c_written st) indata2 (c_prev st) (c_comp st)
                   (c_error st) (c_diag st)).

Fixpoint compress_loop (fuel : nat) (nOptions : Z) (st : cstate)
  : option cstate :=
  match fuel with
  | O => None
  | S fuel' =>
      if negb (at_eof (c_in st)) && negb (c_error st) then
        let '(stop, st') := compress_round nOptions st in
        if stop then Some st' else compress_loop fuel' nOptions st'
      else Some st
  end.

(** The result of one of the three commands: the exit status, the files and
    what was printed on standard error.  [None] stands for a run that the model
    does not define: the loop out of fuel (never the case, see
    [compress_loop_total] and its likes) or the integer division by a zero command count in
    the verbose summary. *)
Definition outcome : Type := option (Z * world * list diagnostic).

Definition lz4ultra_compress (w : world) (pszInFilename pszOutFilename : string)
    (nOptions : Z) : outcome :=
  match fopen_rb w pszInFilename with
  | None => Some (100, w, [DiagOpenRead])
  | Some f_in =>
      if negb (fopen_wb w pszOutFilename) then Some (100, w, [DiagOpenWrite])
      else
        let '(nResult, compressor) := lz4ultra_compressor_init (BLOCK_SIZE * 2) in
        if negb (nResult =? 0) then
          Some (100, fclose_wb w pszOutFilename [], [DiagInitCompressor])
        else
          let header := if has_flag nOptions OPT_RAW then [] else frame_header in
          let st0 := CState f_in header
                       (replicate (Z.to_nat (BLOCK_SIZE * 2)) x00) 0
                       compressor false [] in
          match compress_loop (S (S (length (rest f_in)))) nOptions st0 with
          | None => None
          | Some st =>
              let footer := if has_flag nOptions OPT_RAW then [x00; x00]
                            else [x00; x00; x00; x00] in
              let written := if c_error st then c_written st
                             else c_written st ++ footer in
              if negb (c_error st) && has_flag nOptions OPT_VERBOSE
                 && (lz4ultra_compressor_get_command_count (c_comp st) =? 0)
              then None
              else
                let w' := fclose_wb w pszOutFilename written in
                if c_error st
                then Some (100, w', c_diag st ++ [DiagCompressionError])
                else Some (0, w', c_diag st)
          end
  end.

(** *** lz4ultra_decompress *)

Record dstate := DState {
  d_in : rfile;               (* pInFile *)
  d_filesize : Z;             (* nFileSize *)
  d_written : list byte;      (* what went to pOutFile *)
  d_outdata : list byte;      (* pOutData, 2 * BLOCK_SIZE bytes *)
  d_prev : Z;                 (* nPrevDecompressedSize *)
  d_error : Z                 (* nDecompressionError *)
}.

(** The size of the next block: the 4-byte header in framed mode (0 when
    fewer than 4 bytes are left), all of the file but its footer in raw
    mode. *)
Definition next_block_size (nOptions : Z) (f : rfile) (nFileSize : Z)
  : Z * rfile * Z :=
  if has_flag nOptions OPT_RAW then (uint32 (nFileSize - 2), f, 0)
  else
    let '(cBlockSize, f1) := fread 4 f in
    (if Z.of_nat (length cBlockSize) =? 4 then read_block_size cBlockSize else 0,
     f1, nFileSize).

(** One round of [while (!feof(pInFile) && !nDecompressionError)]; every
    round that does not end the loop through its condition ends it with
    [break] or goes on, as the boolean tells. *)
Definition decompress_round (nOptions : Z) (st : dstate) : bool * dstate :=
  let outdata1 :=
    if d_prev st =? 0 then d_outdata st
    else blit (d_outdata st) (BLOCK_SIZE - d_prev st)
              (slice (d_outdata st) BLOCK_SIZE (d_prev st)) in
  let '(nBlockSize0, f1, nFileSize1) :=
    next_block_size nOptions (d_in st) (d_filesize st) in
  if negb (nBlockSize0 =? 0) then
    let bIsUncompressed := negb (Z.land nBlockSize0 2147483648 =? 0) in
    let nBlockSize := Z.land nBlockSize0 2147483647 in
    let '(inblock, f2) := fread nBlockSize f1 in
    if Z.of_nat (length inblock) =? nBlockSize then
      let '(nDecompressedSize, outdata2) :=
        if bIsUncompressed then (nBlockSize, blit outdata1 BLOCK_SIZE inblock)
        else lz4ultra_expand_block inblock outdata1 BLOCK_SIZE BLOCK_SIZE in
      if nDecompressedSize <? 0 then
        (true, DState f2 nFileSize1 (d_written st) outdata2 (d_prev st)
                      nDecompressedSize)
      else if negb (nDecompressedSize =? 0) then
        (false, DState f2 nFileSize1
                  (d_written st ++ slice outdata2 BLOCK_SIZE nDecompressedSize)
                  outdata2 nDecompressedSize (d_error st))
      else
        (false, DState f2 nFileSize1 (d_written st) outdata2 (d_prev st)
                       (d_error st))
    else (true, DState f2 nFileSize1 (d_written st) outdata1 (d_prev st)
                       (d_error st))
  else (true, DState f1 nFileSize1 (d_written st) outdata1 (d_prev st)
                     (d_error st)).

Fixpoint decompress_loop (fuel : nat) (nOptions : Z) (st : dstate)
  : option dstate :=
  match fuel with
  | O => None
  | S fuel' =>
      if negb (at_eof (d_in st)) && (d_error st =? 0) then
        let '(stop, st') := decompress_round nOptions st in
        if stop then Some st' else decompress_loop fuel' nOptions st'
      else Some st
  end.

(** The header check shared by [lz4ultra_decompress] and [lz4ultra_compare]:
    the file positioned after the header, and [nFileSize]. *)
Definition open_compressed (nOptions : Z) (f : rfile)
  : diagnostic + rfile * Z :=
  if has_flag nOptions OPT_RAW then
    let nFileSize := Z.of_nat (length (rest f)) in
    if nFileSize <? 2 then inl DiagRawFileSize else inr (f, nFileSize)
  else
    let '(cHeader, f1) := fread 7 f in
    if negb (Z.of_nat (length cHeader) =? 7) then inl DiagReadHeader
    else if bytes_eqb cHeader frame_header then inr (f1, 0)
    else inl DiagBadHeader.

Definition lz4ultra_decompress (w : world)
    (pszInFilename pszOutFilename : string) (nOptions : Z) : outcome :=
  match fopen_rb w pszInFilename with
  | None => Some (100, w, [DiagOpenRead])
  | Some pInFile =>
      match open_compressed nOptions pInFile with
      | inl d => Some (100, w, [d])
      | inr (f, nFileSize) =>
          if negb (fopen_wb w pszOutFilename) then Some (100, w, [DiagOpenWrite])
          else
            let st0 := DState f nFileSize []
                         (replicate (Z.to_nat (BLOCK_SIZE * 2)) x00) 0 0 in
            match decompress_loop (S (S (length (rest f)))) nOptions st0 with
            | None => None
            | Some st =>
                let w' := fclose_wb w pszOutFilename (d_written st) in
                if negb (d_error st =? 0)
                then Some (100, w', [DiagDecompressionError])
                else Some (0, w', [])
            end
      end
  end.

(** *** lz4ultra_compare *)

Record vstate := VState {
  v_in : rfile;               (* pInFile, the compressed file *)
  v_filesize : Z;             (* nFileSize *)
  v_orig : rfile;             (* pOutFile, the original file *)
  v_outdata : list byte;      (* pOutData *)
  v_prev : Z;                 (* nPrevDecompressedSize *)
  v_error : Z;                (* nDecompressionError *)
  v_mismatch : bool;          (* bComparisonError *)
  v_total : Z;                (* nOriginalSize *)
  v_good : Z                  (* nKnownGoodSize *)
}.

Definition compare_round (nOptions : Z) (st : vstate) : bool * vstate :=
  let outdata1 :=
    if v_prev st =? 0 then v_outdata st
    else blit (v_outdata st) (BLOCK_SIZE - v_prev st)
              (slice (v_outdata st) BLOCK_SIZE (v_prev st)) in
  let '(comparedata, orig1) := fread BLOCK_SIZE (v_orig st) in
  let nBytesToCompare := Z.of_nat (length comparedata) in
  let '(nBlockSize0, f1, nFileSize1) :=
    next_block_size nOptions (v_in st) (v_filesize st) in
  if negb (nBlockSize0 =? 0) then
    let bIsUncompressed := negb (Z.land nBlockSize0 2147483648 =? 0) in
    let nBlockSize := Z.land nBlockSize0 2147483647 in
    let '(inblock, f2) := fread nBlockSize f1 in
    if Z.of_nat (length inblock) =? nBlockSize then
      let '(nDecompressedSize, outdata2) :=
        if bIsUncompressed then (nBlockSize, blit outdata1 BLOCK_SIZE inblock)
        else lz4ultra_expand_block inblock outdata1 BLOCK_SIZE BLOCK_SIZE in
      if nDecompressedSize <? 0 then
        (true, VState f2 nFileSize1 orig1 outdata2 (v_prev st)
                      nDecompressedSize (v_mismatch st) (v_total st) (v_good st))
      else if nDecompressedSize =? nBytesToCompare then
        (false, VState f2 nFileSize1 orig1 outdata2 nDecompressedSize
                  (v_error st)
                  (if bytes_eqb (slice outdata2 BLOCK_SIZE nBytesToCompare)
                                comparedata
                   then v_mismatch st else true)
                  (v_total st + nDecompressedSize) (v_total st))
      else
        (true, VState f2 nFileSize1 orig1 outdata2 (v_prev st) (v_error st)
                      true (v_total st) (v_good st))
    else (true, VState f2 nFileSize1 orig1 outdata1 (v_prev st) (v_error st)
                       (v_mismatch st) (v_total st) (v_good st))
  else (true, VState f1 nFileSize1 orig1 outdata1 (v_prev st) (v_error st)
                     (v_mismatch st) (v_total st) (v_good st)).

Fixpoint compare_loop (fuel : nat) (nOptions : Z) (st : vstate)
  : option vstate :=
  match fuel with
  | O => None
  | S fuel' =>
      if negb (at_eof (v_in st)) && (v_error st =? 0) && negb (v_mismatch st)
      then
        let '(stop, st') := compare_round nOptions st in
        if stop then Some st' else compare_loop fuel' nOptions st'
      else Some st
  end.

(** What [lz4ultra_compare] returns and prints after its loop. *)
Definition compare_report (st : vstate) : Z * list diagnostic :=
  if negb (v_error st =? 0) then (100, [DiagDecompressionError])
  else if v_mismatch st then (100, [DiagCompareError (v_good st)])
  else (0, []).

(** [pszInFilename] is the compressed file, [pszOutFilename] the original. *)
Definition lz4ultra_compare (w : world)
    (pszInFilename pszOutFilename : string) (nOptions : Z) : outcome :=
  match fopen_rb w pszInFilename with
  | None => Some (100, w, [DiagOpenCompressed])
  | Some pInFile =>
      match open_compressed nOptions pInFile with
      | inl d => Some (100, w, [d])
      | inr (f, nFileSize) =>
          match fopen_rb w pszOutFilename with
          | None => Some (100, w, [DiagOpenOriginal])
          | Some pOutFile =>
              let st0 := VState f nFileSize pOutFile
                           (replicate (Z.to_nat (BLOCK_SIZE * 2)) x00)
                           0 0 false 0 0 in
              match compare_loop (S (S (length (rest f)))) nOptions st0 with
              | None => None
              | Some st =>
                  let '(nResult, d) := compare_report st in Some (nResult, w, d)
              end
          end
      end
  end.

(** *** main *)

Record cmdline := CmdLine {
  pszInFilename : option string;
  pszOutFilename : option string;
  bArgsError : bool;
  bCommandDefined : bool;
  bVerifyCompression : bool;
  cCommand : string;
  nOptions : Z
}.

(** The body of [for (i = 1; i < argc; i++)] for one argument. *)
Definition parse_arg (a : string) (c : cmdline) : cmdline :=
  if String.eqb a "-d" then
    if bCommandDefined c
    then CmdLine (pszInFilename c) (pszOutFilename c) true (bCommandDefined c)
                 (bVerifyCompression c) (cCommand c) (nOptions c)
    else CmdLine (pszInFilename c) (pszOutFilename c) (bArgsError c) true
                 (bVerifyCompression c) "d" (nOptions c)
  else if String.eqb a "-z" then
    if bCommandDefined c
    then CmdLine (pszInFilename c) (pszOutFilename c) true (bCommandDefined c)
                 (bVerifyCompression c) (cCommand c) (nOptions c)
    else CmdLine (pszInFilename c) (pszOutFilename c) (bArgsError c) true
                 (bVerifyCompression c) "z" (nOptions c)
  else if String.eqb a "-c" then
    if bVerifyCompression c
    then CmdLine (pszInFilename c) (pszOutFilename c) true (bCommandDefined c)
                 (bVerifyCompression c) (cCommand c) (nOptions c)
    else CmdLine (pszInFilename c) (pszOutFilename c) (bArgsError c)
                 (bCommandDefined c) true (cCommand c) (nOptions c)
  else if String.eqb a "-v" then
    if has_flag (nOptions c) OPT_VERBOSE
    then CmdLine (pszInFilename c) (pszOutFilename c) true (bCommandDefined c)
                 (bVerifyCompression c) (cCommand c) (nOptions c)
    else CmdLine (pszInFilename c) (pszOutFilename c) (bArgsError c)
                 (bCommandDefined c) (bVerifyCompression c) (cCommand c)
                 (Z.lor (nOptions c) OPT_VERBOSE)
  else if String.eqb a "-r" then
    if has_flag (nOptions c) OPT_RAW
    then CmdLine (pszInFilename c) (pszOutFilename c) true (bCommandDefined c)
                 (bVerifyCompression c) (cCommand c) (nOptions c)
    else CmdLine (pszInFilename c) (pszOutFilename c) (bArgsError c)
                 (bCommandDefined c) (bVerifyCompression c) (cCommand c)
                 (Z.lor (nOptions c) OPT_RAW)
  else
    match pszInFilename c, pszOutFilename c with
    | None, _ =>
        CmdLine (Some a) (pszOutFilename c) (bArgsError c) (bCommandDefined c)
                (bVerifyCompression c) (cCommand c) (nOptions c)
    | Some _, None =>
        CmdLine (pszInFilename c) (Some a) (bArgsError c) (bCommandDefined c)
                (bVerifyCompression c) (cCommand c) (nOptions c)
    | Some _, Some _ =>
        CmdLine (pszInFilename c) (pszOutFilename c) true (bCommandDefined c)
                (bVerifyCompression c) (cCommand c) (nOptions c)
    end.

Definition parse_args (args : list string) : cmdline :=
  fold_left (fun c a => parse_arg a c) args
    (CmdLine None None false false false "z" 0).

(** [main]: [argv] without [argv[0]].  The branch of command ['z'] has no
    [return]: control reaches the closing brace of [main], and the process
    exits with status 0 (C99 5.1.2.2.3), whatever [nResult] holds. *)
Definition main (w : world) (argv : list string) : outcome :=
  let c := parse_args argv in
  match pszInFilename c, pszOutFilename c with
  | Some fin, Some fout =>
      if bArgsError c then Some (100, w, [DiagUsage])
      else if String.eqb (cCommand c) "z" then
        match lz4ultra_compress w fin fout (nOptions c) with
        | None => None
        | Some (nResult, w1, d1) =>
            if (nResult =? 0) && bVerifyCompression c then
              match lz4ultra_compare w1 fout fin (nOptions c) with
              | None => None
              | Some (nResult2, w2, d2) => Some (0, w2, d1 ++ d2)
              end
            else Some (0, w1, d1)
        end
      else if String.eqb (cCommand c) "d" then
        lz4ultra_decompress w fin fout (nOptions c)
      else Some (100, w, [])
  | _, _ => Some (100, w, [DiagUsage])
  end.

End FrameCode.

Arguments CState {lsza_compressor} _ _ _ _ _ _ _.
Arguments c_in {lsza_compressor} _.
Arguments c_written {lsza_compressor} _.
Arguments c_indata {lsza_compressor} _.
Arguments c_prev {lsza_compressor} _.
Arguments c_comp {lsza_compressor} _.
Arguments c_error {lsza_compressor} _.
Arguments c_diag {lsza_compressor} _.
Arguments compress_round {lsza_compressor} _ _ _.
Arguments compress_loop {lsza_compressor} _ _ _ _.
Arguments lz4ultra_compress {lsza_compressor} _ _ _ _ _ _ _.
Arguments main {lsza_compressor} _ _ _ _ _ _.

(** ** The command line driver, second revision (main.c on top of the
    library: [do_compress], [do_decompress], [do_compare] and the comparing
    stream) *)

(** [comparestream_write]: the next [size] bytes of the original file are read
    and compared with the bytes to be written; the result is [size] on
    equality and 0 otherwise. *)
Definition comparestream_write (f : rfile) (ptr : list byte) : Z * rfile :=
  let size := Z.of_nat (length ptr) in
  let '(data, f') := fread size f in
  if negb (Z.of_nat (length data) =? size) then (0, f')
  else if bytes_eqb ptr data then (size, f')
  else (0, f').

(** [comparestream_read] *)
Definition comparestream_read (f : rfile) (size : Z) : Z * rfile := (0, f).

(** [comparestream_open]: an [fopen] of the original file. *)
Definition comparestream_open (w : world) (pszCompareFilename : string)
  : option rfile := fopen_rb w pszCompareFilename.

(** What this revision prints on standard error: the usage text, the fixed
    texts of [do_compare], and one text per status of the library call, chosen
    by a [switch] on the status alone. *)
Inductive message :=
| MsgUsage
| MsgCompressStatus (nStatus : Z)
| MsgDecompressStatus (nStatus : Z)
| MsgDecompressFailed
| MsgOpenCompressed
| MsgOpenOriginal
| MsgDictionary
| MsgCompareStatus (nStatus : Z).

Definition is_space (c : ascii) : bool :=
  let n := Ascii.nat_of_ascii c in
  ((n =? 32) || ((9 <=? n) && (n <=? 13)))%nat.

Definition digit_of (c : ascii) : option Z :=
  let n := Z.of_nat (Ascii.nat_of_ascii c) in
  if (48 <=? n) && (n <=? 57) then Some (n - 48) else None.

Fixpoint atoi_digits (s : string) (acc : Z) : Z :=
  match s with
  | EmptyString => acc
  | String c s' =>
      match digit_of c with
      | Some d => atoi_digits s' (acc * 10 + d)
      | None => acc
      end
  end.

Fixpoint atoi_skip (s : string) : string :=
  match s with
  | String c s' => if is_space c then atoi_skip s' else s
  | EmptyString => s
  end.

(** [atoi] on inputs whose value fits an [int]; on other inputs the C
    function has no defined result, and the properties of [main2] that read
    a number assume that it fits. *)
Definition atoi (s : string) : Z :=
  match atoi_skip s with
  | String "-"%char s' => - atoi_digits s' 0
  | String "+"%char s' => atoi_digits s' 0
  | s' => atoi_digits s' 0
  end.

(** [argv[i] + 2] *)
Definition skip2 (s : string) : string :=
  match s with
  | String _ (String _ s') => s'
  | _ => EmptyString
  end.

Record cmdline2 := CmdLine2 {
  in2 : option string;        (* pszInFilename *)
  out2 : option string;       (* pszOutFilename *)
  dict2 : option string;      (* pszDictionaryFilename *)
  err2 : bool;                (* bArgsError *)
  cmddef2 : bool;             (* bCommandDefined *)
  verify2 : bool;             (* bVerifyCompression *)
  blockcode2 : Z;             (* nBlockMaxCode *)
  indep2 : Z;                 (* nIsIndependentBlocks *)
  depdef2 : bool;             (* bBlockDependenceDefined *)
  cmd2 : string;              (* cCommand *)
  opts2 : Z                   (* nOptions *)
}.

Definition args_error (c : cmdline2) : cmdline2 :=
  CmdLine2 (in2 c) (out2 c) (dict2 c) true (cmddef2 c) (verify2 c)
           (blockcode2 c) (indep2 c) (depdef2 c) (cmd2 c) (opts2 c).

Definition with_command (cmd : string) (c : cmdline2) : cmdline2 :=
  CmdLine2 (in2 c) (out2 c) (dict2 c) (err2 c) true (verify2 c)
           (blockcode2 c) (indep2 c) (depdef2 c) cmd (opts2 c).

Definition with_dictionary (d : string) (c : cmdline2) : cmdline2 :=
  CmdLine2 (in2 c) (out2 c) (Some d) (err2 c) (cmddef2 c) (verify2 c)
           (blockcode2 c) (indep2 c) (depdef2 c) (cmd2 c) (opts2 c).

Definition with_dependence (indep : Z) (c : cmdline2) : cmdline2 :=
  CmdLine2 (in2 c) (out2 c) (dict2 c) (err2 c) (cmddef2 c) (verify2 c)
           (blockcode2 c) indep true (cmd2 c) (opts2 c).

Definition with_option (flag : Z) (c : cmdline2) : cmdline2 :=
  CmdLine2 (in2 c) (out2 c) (dict2 c) (err2 c) (cmddef2 c) (verify2 c)
           (blockcode2 c) (indep2 c) (depdef2 c) (cmd2 c) (Z.lor (opts2 c) flag).

(** One argument other than a lone ["-D"].  ([bBlockCodeDefined] is never
    set by [main], so that the branch of [-B] that tests it is always the
    first one.) *)
Definition parse_arg2 (a : string) (c : cmdline2) : cmdline2 :=
  if String.eqb a "-d" then
    if cmddef2 c then args_error c else with_command "d" c
  else if String.eqb a "-z" then
    if cmddef2 c then args_error c else with_command "z" c
  else if String.eqb a "-c" then
    if verify2 c then args_error c
    else CmdLine2 (in2 c) (out2 c) (dict2 c) (err2 c) (cmddef2 c) true
                  (blockcode2 c) (indep2 c) (depdef2 c) (cmd2 c) (opts2 c)
  else if String.prefix "-D" a then
    match dict2 c with
    | None => with_dictionary (skip2 a) c
    | Some _ => args_error c
    end
  else if String.eqb a "-BD" then
    if depdef2 c then args_error c else with_dependence 0 c
  else if String.eqb a "-BI" then
    if depdef2 c then args_error c else with_dependence 1 c
  else if String.prefix "-B" a then
    let code := atoi (skip2 a) in
    CmdLine2 (in2 c) (out2 c) (dict2 c)
             (if (code <? 4) || (7 <? code) then true else err2 c)
             (cmddef2 c) (verify2 c) code (indep2 c) (depdef2 c) (cmd2 c)
             (opts2 c)
  else if String.eqb a "-v" then
    if has_flag (opts2 c) OPT_VERBOSE then args_error c
    else with_option OPT_VERBOSE c
  else if String.eqb a "-r" then
    if has_flag (opts2 c) OPT_RAW then args_error c
    else with_option OPT_RAW c
  else
    match in2 c, out2 c with
    | None, _ =>
        CmdLine2 (Some a) (out2 c) (dict2 c) (err2 c) (cmddef2 c) (verify2 c)
                 (blockcode2 c) (indep2 c) (depdef2 c) (cmd2 c) (opts2 c)
    | Some _, None =>
        CmdLine2 (in2 c) (Some a) (dict2 c) (err2 c) (cmddef2 c) (verify2 c)
                 (blockcode2 c) (indep2 c) (depdef2 c) (cmd2 c) (opts2 c)
    | Some _, Some _ => args_error c
    end.

(** The argument loop; a lone ["-D"] takes the next argument, if any, as the
    dictionary. *)
Fixpoint parse_args2 (args : list string) (c : cmdline2) : cmdline2 :=
  match args with
  | [] => c
  | a :: args' =>
      if String.eqb a "-D" then
        match dict2 c, args' with
        | None, d :: args'' => parse_args2 args'' (with_dictionary d c)
        | _, _ => parse_args2 args' (args_error c)
        end
      else parse_args2 args' (parse_arg2 a c)
  end.

Section LibraryDriver.

(** The library behind [lib.h] is not at hand: its entry points are
    parameters that return the status ([LZ4ULTRA_OK] is 0) and the files they
    leave.  [lz4ultra_decompress_stream] writes the decompressed bytes through
    the [write] function of the output stream, here a function on the state
    of the sink. *)
Variable LZ4ULTRA_FLAG_RAW_BLOCK : Z.
Variable lz4ultra_compress_file :
  string -> string -> option string -> Z -> Z -> Z -> world -> Z * world.
Variable lz4ultra_decompress_file :
  string -> string -> option string -> Z -> world -> Z * world.
Variable lz4ultra_filestream_open : world -> string -> option rfile.
Variable lz4ultra_dictionary_load : world -> option string -> Z * list byte.
Variable lz4ultra_decompress_stream :
  rfile -> (rfile -> list byte -> Z * rfile) -> rfile -> list byte -> Z -> Z.

Definition library_flags (nOptions : Z) : Z :=
  if has_flag nOptions OPT_RAW then Z.lor 0 LZ4ULTRA_FLAG_RAW_BLOCK else 0.

Definition do_compress (w : world) (fin fout : string) (dict : option string)
    (nOptions nBlockMaxCode nIsIndependentBlocks : Z)
  : Z * world * list message :=
  let '(nStatus, w') :=
    lz4ultra_compress_file fin fout dict (library_flags nOptions)
      nBlockMaxCode nIsIndependentBlocks w in
  if negb (nStatus =? 0) then (100, w', [MsgCompressStatus nStatus])
  else (0, w', []).

Definition do_decompress (w : world) (fin fout : string) (dict : option string)
    (nOptions : Z) : Z * world * list message :=
  let '(nStatus, w') :=
    lz4ultra_decompress_file fin fout dict (library_flags nOptions) w in
  if negb (nStatus =? 0)
  then (100, w', [MsgDecompressStatus nStatus; MsgDecompressFailed])
  else (0, w', []).

(** [fin] is the compressed file, [fout] the original. *)
Definition do_compare (w : world) (fin fout : string) (dict : option string)
    (nOptions : Z) : Z * world * list message :=
  match lz4ultra_filestream_open w fin with
  | None => (100, w, [MsgOpenCompressed])
  | Some inStream =>
      match comparestream_open w fout with
      | None => (100, w, [MsgOpenOriginal])
      | Some compareStream =>
          let '(nDictStatus, pDictionaryData) :=
            lz4ultra_dictionary_load w dict in
          if negb (nDictStatus =? 0) then (100, w, [MsgDictionary])
          else
            let nStatus :=
              lz4ultra_decompress_stream inStream comparestream_write
                compareStream pDictionaryData (library_flags nOptions) in
            if negb (nStatus =? 0) then (100, w, [MsgCompareStatus nStatus])
            else (0, w, [])
      end
  end.

(** [main] of this revision: as in the first one, the branch of command ['z']
    has no [return]. *)
Definition main2 (w : world) (argv : list string) : Z * world * list message :=
  let c := parse_args2 argv
             (CmdLine2 None None None false false false 7 0 false "z" 0) in
  match in2 c, out2 c with
  | Some fin, Some fout =>
      if err2 c then (100, w, [MsgUsage])
      else if String.eqb (cmd2 c) "z" then
        let '(nResult, w1, m1) :=
          do_compress w fin fout (dict2 c) (opts2 c) (blockcode2 c) (indep2 c) in
        if (nResult =? 0) && verify2 c then
          let '(nResult2, w2, m2) := do_compare w1 fout fin (dict2 c) (opts2 c) in
          (0, w2, m1 ++ m2)
        else (0, w1, m1)
      else if String.eqb (cmd2 c) "d" then
        do_decompress w fin fout (dict2 c) (opts2 c)
      else (100, w, [])
  | _, _ => (100, w, [MsgUsage])
  end.

End LibraryDriver.

(** ** Instances used in the examples *)

Definition zeros (n : nat) : list byte := replicate n x00.

(** A stand-in for the compressor on compressible data: every block is
    accepted ([nOutDataSize >= 0]). *)
Definition accepting_init (nMaxWindowSize : Z) : Z * unit := (0, tt).

Definition accepting_shrink (c : unit) (window : list byte)
    (nPreviousBlockSize nInDataSize nMaxOutDataSize : Z)
  : Z * list byte * unit := (1, [x00], tt).

Definition accepting_count (c : unit) : Z := 1.

(** The block decompressor of expand.c in the place of
    [lz4ultra_expand_block]. *)
Definition expand_block_model (pInBlock pOutData : list byte)
    (nOutDataOffset nBlockMaxSize : Z) : Z * list byte :=
  match lz4ultra_decompressor_expand_block_lz4 pInBlock pOutData
          nOutDataOffset nBlockMaxSize with
  | Some (r, st) => (r, out st)
  | None => (-1, pOutData)
  end.

Definition world_of (l : list (string * list byte)) : world :=
  World (list_to_map l) ∅.

Definition exit_status (o : outcome) : option Z := (fun r => r.1.1) <$> o.

Definition file_after (o : outcome) (name : string) : option (list byte) :=
  o ≫= (fun r => files r.1.2 !! name).

Definition printed (o : outcome) : option (list diagnostic) :=
  (fun r => r.2) <$> o.


(** ** Relations between two runs of the decoder *)

(** The two buffers have the same size and the same bytes below [n]. *)
Definition agree (n : Z) (o1 o2 : list byte) : Prop :=
  length o1 = length o2 /\
  forall i : nat, Z.of_nat i < n -> o1 !! i = o2 !! i.

(** No match decoded so far had the offset 0. *)
Definition nonzero_offsets (l : list (Z * Z)) : Prop :=
  Forall (fun e => e.2 <> 0) l.

(** Every match decoded so far had its source inside the buffer. *)
Definition sources_in_buffer (l : list (Z * Z)) : Prop :=
  Forall (fun e => 0 <= e.1 - e.2) l.

(** Two decoder states at the same place of the same block, whose buffers
    hold the same decompressed bytes unless an offset 0 was met. *)
Definition same_decoding (s1 s2 : dec_state) : Prop :=
  inp s1 = inp s2 /\ cur s1 = cur s2 /\ seen s1 = seen s2 /\
  0 <= cur s1 /\ length (out s1) = length (out s2) /\
  (nonzero_offsets (seen s1) -> agree (cur s1) (out s1) (out s2)).

Definition same_result (r1 r2 : token_result) : Prop :=
  match r1, r2 with
  | Fail s1, Fail s2 => seen s1 = seen s2
  | Next s1, Next s2 => same_decoding s1 s2
  | _, _ => False
  end.

Definition same_outcome (r1 r2 : option token_result) : Prop :=
  match r1, r2 with
  | Some x1, Some x2 => same_result x1 x2
  | _, _ => False
  end.

(** What two calls of a helper on the same input and output position, but on
    two buffers, have in common. *)
Definition same_helper_result (inp0 : list byte) (cur0 : Z)
    (o1 o2 : list byte) (ok : Prop)
    (r1 r2 : option (list byte * list byte * Z)) : Prop :=
  match r1, r2 with
  | Some (i1, b1, c1), Some (i2, b2, c2) =>
      i1 = i2 /\ c1 = c2 /\ cur0 <= c1 /\ length b1 = length b2 /\
      (length i1 <= length inp0)%nat /\
      (ok -> agree cur0 o1 o2 -> agree c1 b1 b2)
  | None, None => True
  | _, _ => False
  end.

(** What a round may leave in [seen]: sources inside the buffer throughout,
    or, when the round failed, a last match whose source is before the
    buffer and which left the output position where it was. *)
Definition rejected_last (st : dec_state) : Prop :=
  exists l dst off,
    seen st = l ++ [(dst, off)] /\ sources_in_buffer l /\
    dst - off < 0 /\ cur st = dst.

Definition checked_result (r : token_result) : Prop :=
  match r with
  | Next st => sources_in_buffer (seen st)
  | Fail st => sources_in_buffer (seen st) \/ rejected_last st
  end.

(** Blocks used as examples.  [zero_offset_block]: one literal, a match of 4
    bytes at offset 0, then a last token with 12 literals.
    [truncated_match_block]: one literal, then a match at offset 1 whose
    length nibble is 15 and whose extension bytes are missing.
    [leftover_byte_block]: a token without literals, then one more byte. *)
Definition zero_offset_block : list byte :=
  [x10; x41; x00; x00; xc0; x01; x02; x03; x04; x05; x06; x07; x08; x09; x0a;
   x0b; x0c].

Definition truncated_match_block : list byte := [x1f; x41; x01; x00].

Definition leftover_byte_block : list byte := [x00; x10].

(** 65536 zero bytes, and a frame with one stored block [A C], to be compared
    with the original [A B]. *)
Definition zeros_64k : list byte := zeros (Z.to_nat 65536).

Definition stored_AC : list byte :=
  frame_header ++ block_header 2 true ++ [x41; x43] ++ [x00; x00; x00; x00].

Definition compare_AC_state : vstate :=
  VState (RFile (block_header 2 true ++ [x41; x43] ++ [x00; x00; x00; x00])
                false)
         0 (RFile [x41; x42] false) (zeros (Z.to_nat (BLOCK_SIZE * 2)))
         0 0 false 0 0.

(** What bounds the number of rounds left to the loops of the driver: the
    bytes not read yet, one more while the end of the file has not been seen
    (compression) or while the size of a raw file has not been used
    (decompression and comparison). *)
Definition rounds_left_in (f : rfile) : nat :=
  (length (rest f) + (if at_eof f then 0 else 1))%nat.

Definition rounds_left_out (f : rfile) (nFileSize : Z) : nat :=
  (length (rest f) + (if (nFileSize =? 0)%Z then 0 else 1))%nat.

(** ** Notions used in the further properties *)

(** [o'] has the size of [o] and the bytes of [o] outside [lo, hi). *)
Definition frame (lo hi : Z) (o o' : list byte) : Prop :=
  length o' = length o /\
  forall i : nat, Z.of_nat i < lo \/ hi <= Z.of_nat i -> o' !! i = o !! i.

(** A decoder state whose output position is inside the block's part of the
    buffer [o], and whose buffer is [o] outside that part. *)
Definition within (lo hi : Z) (o : list byte) (st : dec_state) : Prop :=
  lo <= cur st <= hi /\ frame lo hi o (out st).

Definition result_state (r : token_result) : dec_state :=
  match r with Fail st => st | Next st => st end.

(** The blocks of a frame whose data are all stored uncompressed: for every
    [BLOCK_SIZE] bytes of [data], and for what is left at the end, a block
    header with bit 31 set and the bytes. *)
Fixpoint stored_blocks (fuel : nat) (data : list byte) : list byte :=
  match fuel with
  | O => []
  | S fuel' =>
      match data with
      | [] => []
      | _ =>
          let chunk := take (Z.to_nat BLOCK_SIZE) data in
          block_header (Z.of_nat (length chunk)) true ++ chunk
            ++ stored_blocks fuel' (drop (Z.to_nat BLOCK_SIZE) data)
      end
  end.

(** The arguments of the first [main], sorted as its loop sorts them: the
    five options, and everything else, which is a file name. *)
Definition is_command (a : string) : bool :=
  String.eqb a "-d" || String.eqb a "-z".

Definition is_check (a : string) : bool := String.eqb a "-c".

Definition is_verbose (a : string) : bool := String.eqb a "-v".

Definition is_raw (a : string) : bool := String.eqb a "-r".

Definition is_option (a : string) : bool :=
  is_command a || is_check a || is_verbose a || is_raw a.

Definition file_names (args : list string) : list string :=
  List.filter (fun a => negb (is_option a)) args.

Definition count_if (p : string -> bool) (args : list string) : nat :=
  length (List.filter p args).

(** The command of the first of [-d] and [-z] on the command line; ['z']
    without one. *)
Definition first_command (args : list string) : string :=
  match List.filter is_command args with
  | [] => "z"
  | a :: _ => if String.eqb a "-d" then "d" else "z"
  end.

Definition flags_value (verbose raw : bool) : Z :=
  (if verbose then OPT_VERBOSE else 0) + (if raw then OPT_RAW else 0).

(** A command line that the loop of [main] flags: a third file name, a
    second command, or one of [-c], [-v], [-r] given twice. *)
Definition bad_args (args : list string) : Prop :=
  (2 < length (file_names args))%nat \/
  (1 < count_if is_command args)%nat \/
  (1 < count_if is_check args)%nat \/
  (1 < count_if is_verbose args)%nat \/
  (1 < count_if is_raw args)%nat.

(** What the loop of [main] has made of the arguments [l]. *)
Definition parsed (l : list string) (c : cmdline) : Prop :=
  pszInFilename c = file_names l !! 0%nat /\
  pszOutFilename c = file_names l !! 1%nat /\
  bCommandDefined c = negb (count_if is_command l =? 0)%nat /\
  bVerifyCompression c = negb (count_if is_check l =? 0)%nat /\
  nOptions c = flags_value (negb (count_if is_verbose l =? 0)%nat)
                           (negb (count_if is_raw l =? 0)%nat) /\
  cCommand c = first_command l /\
  (bArgsError c = true <-> bad_args l).

(** What ends a frame for [lz4ultra_decompress]: fewer than 4 bytes where a
    block header is expected, a header that reads as 0, or a header that
    announces more bytes than are left. *)
Definition frame_end (tail : list byte) : Prop :=
  (length tail < 4)%nat \/
  exists hdr body,
    tail = hdr ++ body /\ length hdr = 4%nat /\
    (read_block_size hdr = 0 \/
     Z.of_nat (length body) < Z.land (read_block_size hdr) 2147483647).

(** What the loop of [lz4ultra_compress] does with the input [data], told
    block by block and without its buffers: [prev] is the block before, which
    the compressor is given in front of the current one.  The result is what
    is written, [bError], what is printed and the compressor left behind. *)
Fixpoint blocks_of {lsza_compressor : Type}
    (lz4ultra_shrink_block :
       lsza_compressor -> list byte -> Z -> Z -> Z ->
       Z * list byte * lsza_compressor)
    (raw : bool) (fuel : nat) (c : lsza_compressor) (prev data : list byte)
  : list byte * bool * list diagnostic * lsza_compressor :=
  match fuel with
  | O => ([], false, [], c)
  | S fuel' =>
      match data with
      | [] => ([], false, [], c)
      | _ =>
          let chunk := take (Z.to_nat BLOCK_SIZE) data in
          let n := Z.of_nat (length chunk) in
          if negb (Z.of_nat (length prev) =? 0) && raw
          then ([], true, [DiagRawTooLarge], c)
          else
            let '(nOutDataSize, outdata, c1) :=
              lz4ultra_shrink_block c (prev ++ chunk) (Z.of_nat (length prev)) n
                (if BLOCK_SIZE <=? n then BLOCK_SIZE else n) in
            if 0 <=? nOutDataSize then
              let '(more, err, d, c2) :=
                blocks_of lz4ultra_shrink_block raw fuel' c1 chunk
                  (drop (Z.to_nat BLOCK_SIZE) data) in
              ((if raw then [] else block_header nOutDataSize false)
                 ++ take (Z.to_nat nOutDataSize) outdata ++ more, err, d, c2)
            else if raw then ([], true, [DiagRawUncompressed], c1)
            else
              let '(more, err, d, c2) :=
                blocks_of lz4ultra_shrink_block raw fuel' c1 chunk
                  (drop (Z.to_nat BLOCK_SIZE) data) in
              (block_header n true ++ chunk ++ more, err, d, c2)
      end
  end.

(** The compressor refuses each block of the input [data] when it is called
    on it in turn, as the loop of [lz4ultra_compress] calls it. *)
Fixpoint refuses_every_block {lsza_compressor : Type}
    (lz4ultra_shrink_block :
       lsza_compressor -> list byte -> Z -> Z -> Z ->
       Z * list byte * lsza_compressor)
    (fuel : nat) (c : lsza_compressor) (prev data : list byte) : bool :=
  match fuel with
  | O => true
  | S fuel' =>
      match data with
      | [] => true
      | _ =>
          let chunk := take (Z.to_nat BLOCK_SIZE) data in
          let n := Z.of_nat (length chunk) in
          let '(nOutDataSize, _, c1) :=
            lz4ultra_shrink_block c (prev ++ chunk) (Z.of_nat (length prev)) n
              (if BLOCK_SIZE <=? n then BLOCK_SIZE else n) in
          (nOutDataSize <? 0)
          && refuses_every_block lz4ultra_shrink_block fuel' c1 chunk
               (drop (Z.to_nat BLOCK_SIZE) data)
      end
  end.

(** The call of the compressor on the first block of [data]. *)
Definition first_block_call {lsza_compressor : Type}
    (lz4ultra_shrink_block :
       lsza_compressor -> list byte -> Z -> Z -> Z ->
       Z * list byte * lsza_compressor)
    (c : lsza_compressor) (data : list byte)
  : Z * list byte * lsza_compressor :=
  let chunk := take (Z.to_nat BLOCK_SIZE) data in
  let n := Z.of_nat (length chunk) in
  lz4ultra_shrink_block c chunk 0 n (if BLOCK_SIZE <=? n then BLOCK_SIZE else n).

(** A stand-in for a compressor that depends on the data: it accepts a block
    that starts with a zero byte, as one byte, and refuses every other
    block. *)
Definition picky_shrink (c : unit) (window : list byte)
    (nPreviousBlockSize nInDataSize nMaxOutDataSize : Z)
  : Z * list byte * unit :=
  match drop (Z.to_nat nPreviousBlockSize) window with
  | x00 :: _ => (1, [x00], tt)
  | _ => (-1, [], tt)
  end.

(** The state of the loop of [lz4ultra_compare] after [k] rounds that have
    gone to their end: the condition of the [while] held before each of
    them, and none has left through a [break]. *)
Fixpoint compare_rounds
    (lz4ultra_expand_block : list byte -> list byte -> Z -> Z -> Z * list byte)
    (k : nat) (nOptions : Z) (st : vstate) : option vstate :=
  match k with
  | O => Some st
  | S k' =>
      if negb (at_eof (v_in st)) && (v_error st =? 0) && negb (v_mismatch st)
      then
        let '(stop, st') := compare_round lz4ultra_expand_block nOptions st in
        if stop then None
        else compare_rounds lz4ultra_expand_block k' nOptions st'
      else None
  end.

(** * Properties *)

(** ** Bytes *)

Lemma byte_val_range (b : byte) : 0 <= byte_val b < 256.
Proof.
  unfold byte_val. pose proof (Byte.to_N_bounded b). lia.
Qed.

Lemma uint32_small (z : Z) : 0 <= z < 2 ^ 32 -> uint32 z = z.
Proof. intros H. unfold uint32. apply Z.mod_small. exact H. Qed.

Lemma match_nibble_range (token : byte) : 0 <= match_nibble token < 16.
Proof.
  unfold match_nibble. change 15 with (Z.ones 4). rewrite Z.land_ones by lia.
  apply Z.mod_pos_bound. reflexivity.
Qed.

Lemma literals_nibble_range (token : byte) : 0 <= literals_nibble token < 16.
Proof.
  unfold literals_nibble. destruct token; vm_compute; split; congruence.
Qed.

Lemma match_offset_value (b0 b1 : byte) :
  match_offset b0 b1 = byte_val b0 + 256 * byte_val b1.
Proof.
  unfold match_offset.
  pose proof (byte_val_range b0) as H0. pose proof (byte_val_range b1) as H1.
  rewrite Z.shiftl_mul_pow2 by lia.
  rewrite <- Z.add_nocarry_lor; [lia |].
  apply Z.bits_inj'. intros n Hn. rewrite Z.land_spec, Z.bits_0.
  destruct (Z.lt_ge_cases n 8) as [Hlt | Hge].
  - rewrite Z.mul_pow2_bits_low by lia. apply andb_false_r.
  - replace (Z.testbit (byte_val b0) n) with false; [reflexivity |].
    symmetry. apply Z.bits_above_log2; [lia |].
    destruct (Z.eq_dec (byte_val b0) 0) as [-> | Hnz]; [simpl; lia |].
    apply Z.log2_lt_pow2; [lia |].
    apply Z.lt_le_trans with (2 ^ 8); [lia |].
    apply Z.pow_le_mono_r; lia.
Qed.

Lemma match_offset_range (b0 b1 : byte) : 0 <= match_offset b0 b1 < 65536.
Proof.
  rewrite match_offset_value.
  pose proof (byte_val_range b0). pose proof (byte_val_range b1). lia.
Qed.

(** ** Buffers *)

Lemma length_poke buf p v : length (poke buf p v) = length buf.
Proof. unfold poke. apply length_insert. Qed.

Lemma lookup_poke_ne buf p v (i : nat) :
  i <> Z.to_nat p -> poke buf p v !! i = buf !! i.
Proof. intros H. unfold poke. apply list_lookup_insert_ne. congruence. Qed.

Lemma peek_poke_ne buf p q v :
  0 <= p -> 0 <= q -> p <> q -> peek (poke buf p v) q = peek buf q.
Proof.
  intros Hp Hq Hne. unfold peek. rewrite lookup_poke_ne by lia. reflexivity.
Qed.

Lemma length_store bs : forall buf p, length (store buf p bs) = length buf.
Proof.
  induction bs as [| b bs IH]; intros buf p; simpl; [reflexivity |].
  rewrite IH. apply length_poke.
Qed.

Lemma lookup_store_below bs : forall buf p (i : nat),
  0 <= p -> Z.of_nat i < p -> store buf p bs !! i = buf !! i.
Proof.
  induction bs as [| b bs IH]; intros buf p i Hp Hi; simpl; [reflexivity |].
  rewrite IH by lia. apply lookup_poke_ne. lia.
Qed.

Lemma length_copy_bytes n : forall buf src dst,
  length (copy_bytes n buf src dst) = length buf.
Proof.
  induction n as [| n IH]; intros buf src dst; simpl; [reflexivity |].
  rewrite IH. apply length_poke.
Qed.

Lemma lookup_copy_bytes_below n : forall buf src dst (i : nat),
  0 <= dst -> Z.of_nat i < dst -> copy_bytes n buf src dst !! i = buf !! i.
Proof.
  induction n as [| n IH]; intros buf src dst i Hd Hi; simpl; [reflexivity |].
  rewrite IH by lia. apply lookup_poke_ne. lia.
Qed.

Lemma copy_bytes_add n m : forall buf src dst,
  copy_bytes (n + m) buf src dst =
  copy_bytes m (copy_bytes n buf src dst) (src + Z.of_nat n) (dst + Z.of_nat n).
Proof.
  induction n as [| n IH]; intros buf src dst.
  - simpl. f_equal; lia.
  - change (S n + m)%nat with (S (n + m)). cbn [copy_bytes]. rewrite IH.
    f_equal; lia.
Qed.

Lemma load_poke_above n : forall buf src dst v,
  0 <= src -> src + Z.of_nat n <= dst ->
  load (poke buf dst v) src n = load buf src n.
Proof.
  induction n as [| n IH]; intros buf src dst v Hs Hd; simpl; [reflexivity |].
  rewrite peek_poke_ne by lia. rewrite IH by lia. reflexivity.
Qed.

(** On regions that do not overlap, [memcpy] is the byte-by-byte copy. *)
Lemma memcpy_copy_bytes n : forall buf src dst,
  0 <= src -> src + Z.of_nat n <= dst ->
  memcpy buf dst src n = copy_bytes n buf src dst.
Proof.
  unfold memcpy.
  induction n as [| n IH]; intros buf src dst Hs Hd; simpl; [reflexivity |].
  rewrite <- IH by lia. rewrite load_poke_above by lia. reflexivity.
Qed.

(** Two 8-byte [memcpy] at distance 8 or more are sixteen byte copies. *)
Lemma chunk16_copy_bytes buf src dst :
  0 <= src -> src + 8 <= dst ->
  memcpy (memcpy buf dst src 8) (dst + 8) (src + 8) 8 =
  copy_bytes 16 buf src dst.
Proof.
  intros Hs Hd. rewrite !memcpy_copy_bytes by lia.
  change 16%nat with (8 + 8)%nat. rewrite copy_bytes_add. reflexivity.
Qed.

(** The three [memcpy] of the fast loop are twenty byte copies. *)
Lemma fast_copy_bytes buf src dst :
  0 <= src -> src + 8 <= dst ->
  memcpy (memcpy (memcpy buf dst src 8) (dst + 8) (src + 8) 8)
         (dst + 16) (src + 16) 4 =
  copy_bytes 20 buf src dst.
Proof.
  intros Hs Hd. rewrite chunk16_copy_bytes by lia.
  rewrite memcpy_copy_bytes by lia.
  change 20%nat with (16 + 4)%nat. rewrite copy_bytes_add. reflexivity.
Qed.

(** The chunked loop copies byte by byte some number of bytes that covers
    the match. *)
Lemma copy_chunks16_copy_bytes fuel : forall src dst dend,
  0 <= src -> src + 8 <= dst -> (0 < fuel)%nat ->
  dend - dst <= 16 * Z.of_nat fuel ->
  exists N : nat, dend - dst <= Z.of_nat N /\
    forall buf, copy_chunks16 fuel buf src dst dend = copy_bytes N buf src dst.
Proof.
  induction fuel as [| fuel IH]; intros src dst dend Hs Hd Hf Hlen; [lia |].
  cbn [copy_chunks16].
  destruct (dst + 16 <? dend) eqn:Hmore.
  - apply Z.ltb_lt in Hmore.
    destruct (IH (src + 16) (dst + 16) dend) as [N [HN Heq]]; [lia .. |].
    exists (16 + N)%nat. split; [lia |].
    intros buf. rewrite chunk16_copy_bytes by lia. rewrite Heq.
    rewrite copy_bytes_add. reflexivity.
  - apply Z.ltb_ge in Hmore. exists 16%nat. split; [lia |].
    intros buf. apply chunk16_copy_bytes; lia.
Qed.

Lemma copy_quads_copy_bytes r : forall buf src dst,
  copy_quads r buf src dst =
  (copy_bytes (4 * r) buf src dst,
   src + 4 * Z.of_nat r, dst + 4 * Z.of_nat r).
Proof.
  induction r as [| r IH]; intros buf src dst.
  - simpl. f_equal; [f_equal |]; lia.
  - cbn [copy_quads]. rewrite IH.
    replace (4 * S r)%nat with (4 + 4 * r)%nat by lia.
    rewrite (copy_bytes_add 4). cbn [copy_bytes].
    replace (src + 1 + 1) with (src + 2) by lia.
    replace (src + 2 + 1) with (src + 3) by lia.
    replace (dst + 1 + 1) with (dst + 2) by lia.
    replace (dst + 2 + 1) with (dst + 3) by lia.
    replace (src + 3 + 1) with (src + 4) by lia.
    replace (dst + 3 + 1) with (dst + 4) by lia.
    replace (src + Z.of_nat 4) with (src + 4) by lia.
    replace (dst + Z.of_nat 4) with (dst + 4) by lia.
    f_equal; [f_equal |]; lia.
Qed.

Lemma copy_match_bytewise_copy_bytes buf src dst n :
  0 <= n ->
  copy_match_bytewise buf src dst n = copy_bytes (Z.to_nat n) buf src dst.
Proof.
  intros Hn. unfold copy_match_bytewise. rewrite copy_quads_copy_bytes.
  assert (Hsplit : Z.to_nat n = (4 * Z.to_nat (n / 4) + Z.to_nat (n mod 4))%nat).
  { pose proof (Z.div_mod n 4 ltac:(lia)) as Hdm.
    pose proof (Z.mod_pos_bound n 4 ltac:(lia)) as Hm.
    assert (0 <= n / 4) by (apply Z.div_pos; lia). lia. }
  rewrite Hsplit. rewrite copy_bytes_add. f_equal; lia.
Qed.

(** ** Agreement of two buffers *)

Lemma agree_weaken n m o1 o2 : agree n o1 o2 -> m <= n -> agree m o1 o2.
Proof.
  intros [Hlen Hag] Hm. split; [exact Hlen |].
  intros i Hi. apply Hag. lia.
Qed.

Lemma agree_peek n o1 o2 p :
  agree n o1 o2 -> 0 <= p < n -> peek o1 p = peek o2 p.
Proof.
  intros [_ Hag] Hp. unfold peek. rewrite Hag by lia. reflexivity.
Qed.

Lemma agree_poke p o1 o2 v :
  agree p o1 o2 -> 0 <= p -> agree (p + 1) (poke o1 p v) (poke o2 p v).
Proof.
  intros [Hlen Hag] Hp. split.
  - rewrite !length_poke. exact Hlen.
  - intros i Hi. unfold poke.
    destruct (decide (i = Z.to_nat p)) as [-> | Hne].
    + destruct (decide (Z.to_nat p < length o1)%nat) as [Hin | Hout].
      * rewrite !list_lookup_insert_eq by lia. reflexivity.
      * rewrite !list_insert_ge by lia.
        rewrite !lookup_ge_None_2 by lia. reflexivity.
    + rewrite !list_lookup_insert_ne by congruence. apply Hag. lia.
Qed.

Lemma agree_store bs : forall p o1 o2,
  agree p o1 o2 -> 0 <= p ->
  agree (p + Z.of_nat (length bs)) (store o1 p bs) (store o2 p bs).
Proof.
  induction bs as [| b bs IH]; intros p o1 o2 Hag Hp; simpl.
  - replace (p + Z.of_nat 0) with p by lia. exact Hag.
  - replace (p + Z.of_nat (S (length bs))) with (p + 1 + Z.of_nat (length bs))
      by lia.
    apply IH; [| lia]. apply agree_poke; assumption.
Qed.

(** Writing two byte strings that start alike leaves the buffers alike up to
    the end of the common part. *)
Lemma agree_store_prefix (n : nat) : forall bs1 bs2 p o1 o2,
  agree p o1 o2 -> 0 <= p -> take n bs1 = take n bs2 ->
  (n <= length bs1)%nat -> (n <= length bs2)%nat ->
  agree (p + Z.of_nat n) (store o1 p bs1) (store o2 p bs2).
Proof.
  induction n as [| n IH]; intros bs1 bs2 p o1 o2 Hag Hp Htake H1 H2.
  - replace (p + Z.of_nat 0) with p by lia. destruct Hag as [Hlen Hag]. split.
    + rewrite !length_store. exact Hlen.
    + intros i Hi. rewrite !lookup_store_below by lia. apply Hag. exact Hi.
  - destruct bs1 as [| b1 bs1]; [simpl in H1; lia |].
    destruct bs2 as [| b2 bs2]; [simpl in H2; lia |].
    simpl in Htake, H1, H2. injection Htake as -> Htake.
    simpl. replace (p + Z.of_nat (S n)) with (p + 1 + Z.of_nat n) by lia.
    apply IH; [| lia | exact Htake | lia | lia].
    apply agree_poke; assumption.
Qed.

(** Byte-by-byte copies from a source below the destination keep the buffers
    alike, over the shorter of the two copies. *)
Lemma agree_copy_bytes (n : nat) : forall n1 n2 src dst o1 o2,
  agree dst o1 o2 -> 0 <= src -> src < dst ->
  (n <= n1)%nat -> (n <= n2)%nat ->
  agree (dst + Z.of_nat n) (copy_bytes n1 o1 src dst) (copy_bytes n2 o2 src dst).
Proof.
  induction n as [| n IH]; intros n1 n2 src dst o1 o2 Hag Hs Hd H1 H2.
  - replace (dst + Z.of_nat 0) with dst by lia. destruct Hag as [Hlen Hag]. split.
    + rewrite !length_copy_bytes. exact Hlen.
    + intros i Hi. rewrite !lookup_copy_bytes_below by lia. apply Hag. exact Hi.
  - destruct n1 as [| n1]; [lia |]. destruct n2 as [| n2]; [lia |].
    cbn [copy_bytes].
    replace (dst + Z.of_nat (S n)) with (dst + 1 + Z.of_nat n) by lia.
    apply IH; [| lia | lia | lia | lia].
    rewrite (agree_peek dst o1 o2 src Hag) by lia.
    apply agree_poke; [exact Hag | lia].
Qed.

Lemma agree_take n o1 o2 (s r : Z) :
  agree n o1 o2 -> 0 <= s -> s + r <= n ->
  take (Z.to_nat r) (drop (Z.to_nat s) o1) =
  take (Z.to_nat r) (drop (Z.to_nat s) o2).
Proof.
  intros [Hlen Hag] Hs Hr. apply list_eq. intros i.
  rewrite !lookup_take. destruct (decide (i < Z.to_nat r)%nat) as [Hi | Hi];
    [| reflexivity].
  rewrite !lookup_drop. apply Hag. lia.
Qed.

(** ** The helpers of expand.c on two buffers *)

Lemma read_run_length inp : forall n inp1 n1,
  read_run inp n = (inp1, n1) -> (length inp1 <= length inp)%nat.
Proof.
  induction inp as [| b inp IH]; intros n inp1 n1 H; simpl in H.
  - injection H as <- <-. simpl. lia.
  - destruct (byte_val b =? 255).
    + apply IH in H. simpl. lia.
    + injection H as <- <-. simpl. lia.
Qed.

Lemma read_run_nonneg inp : forall n inp1 n1,
  read_run inp n = (inp1, n1) -> 0 <= n -> 0 <= n1.
Proof.
  induction inp as [| b inp IH]; intros n inp1 n1 H Hn; simpl in H.
  - injection H as <- <-. exact Hn.
  - assert (Hu : 0 <= uint32 (n + byte_val b)).
    { unfold uint32. apply Z.mod_pos_bound. reflexivity. }
    destruct (byte_val b =? 255).
    + eapply IH; eassumption.
    + injection H as <- <-. exact Hu.
Qed.

Lemma uint32_nonneg z : 0 <= uint32 z.
Proof. unfold uint32. apply Z.mod_pos_bound. reflexivity. Qed.

Lemma literals_slow_rel inp0 n o1 o2 cur0 pOutDataEnd :
  0 <= n -> 0 <= cur0 -> length o1 = length o2 ->
  same_helper_result inp0 cur0 o1 o2 True
    (lz4ultra_expand_literals_slow inp0 n o1 cur0 pOutDataEnd)
    (lz4ultra_expand_literals_slow inp0 n o2 cur0 pOutDataEnd).
Proof.
  intros Hn Hc Hlen. unfold lz4ultra_expand_literals_slow.
  destruct (if n =? LITERALS_RUN_LEN then read_run inp0 n else (inp0, n))
    as [inp1 n1] eqn:Hrun.
  assert (Hlen1 : (length inp1 <= length inp0)%nat).
  { destruct (n =? LITERALS_RUN_LEN).
    - eapply read_run_length; eassumption.
    - injection Hrun as <- <-. lia. }
  assert (Hn1 : 0 <= n1).
  { destruct (n =? LITERALS_RUN_LEN).
    - eapply read_run_nonneg; eassumption.
    - injection Hrun as <- <-. lia. }
  destruct (n1 =? 0).
  - simpl. repeat apply conj; try reflexivity; try lia. intros _ H; exact H.
  - destruct ((n1 <=? Z.of_nat (length inp1)) && (cur0 + n1 <=? pOutDataEnd))
      eqn:Hok; simpl; [| exact I].
    apply andb_true_iff in Hok as [Hin _]. apply Z.leb_le in Hin.
    repeat apply conj; try reflexivity; try lia.
    + rewrite !length_store. exact Hlen.
    + rewrite length_drop. lia.
    + intros _ Hag.
      replace (cur0 + n1)
        with (cur0 + Z.of_nat (length (take (Z.to_nat n1) inp1))).
      * apply agree_store; assumption.
      * rewrite length_take. lia.
Qed.

Lemma match_slow_rel inp0 pSrc m o1 o2 cur0 pOutDataEnd pOutDataFastEnd :
  0 <= m -> 0 <= pSrc -> length o1 = length o2 ->
  same_helper_result inp0 cur0 o1 o2 (pSrc < cur0)
    (lz4ultra_expand_match_slow inp0 pSrc m o1 cur0 pOutDataEnd pOutDataFastEnd)
    (lz4ultra_expand_match_slow inp0 pSrc m o2 cur0 pOutDataEnd pOutDataFastEnd).
Proof.
  intros Hm Hs Hlen. unfold lz4ultra_expand_match_slow.
  destruct (if m =? MATCH_RUN_LEN then read_run inp0 m else (inp0, m))
    as [inp1 n1] eqn:Hrun.
  assert (Hlen1 : (length inp1 <= length inp0)%nat).
  { destruct (m =? MATCH_RUN_LEN).
    - eapply read_run_length; eassumption.
    - injection Hrun as <- <-. lia. }
  pose proof (uint32_nonneg (n1 + MIN_MATCH_SIZE)) as Hl.
  set (len := uint32 (n1 + MIN_MATCH_SIZE)) in *.
  destruct (cur0 + len <=? pOutDataEnd); [| exact I].
  destruct ((8 <=? cur0 - pSrc) && (cur0 + len <=? pOutDataFastEnd)) eqn:Hfast.
  - apply andb_true_iff in Hfast as [Hdist _]. apply Z.leb_le in Hdist.
    destruct (copy_chunks16_copy_bytes (S (Z.to_nat len)) pSrc cur0 (cur0 + len))
      as [N [HN Heq]]; [lia .. |].
    rewrite !Heq. unfold same_helper_result. repeat apply conj; try reflexivity; try lia.
    + rewrite !length_copy_bytes. exact Hlen.
    + intros Hlt Hag. replace (cur0 + len) with (cur0 + Z.of_nat (Z.to_nat len))
        by lia.
      apply agree_copy_bytes; (assumption || lia).
  - rewrite !copy_match_bytewise_copy_bytes by exact Hl.
    unfold same_helper_result.
    repeat apply conj; try reflexivity; try lia.
    + rewrite !length_copy_bytes. exact Hlen.
    + intros Hlt Hag. replace (cur0 + len) with (cur0 + Z.of_nat (Z.to_nat len))
        by lia.
      apply agree_copy_bytes; (assumption || lia).
Qed.

(** ** One token on two buffers *)

Lemma nonzero_offsets_snoc l c o :
  nonzero_offsets (l ++ [(c, o)]) -> nonzero_offsets l /\ o <> 0.
Proof.
  unfold nonzero_offsets. intros H. apply Forall_app in H as [Hl Ho].
  split; [exact Hl |]. rewrite Forall_singleton in Ho. exact Ho.
Qed.

Lemma slow_match_rel token pOutDataEnd pOutDataFastEnd s1 s2 :
  same_decoding s1 s2 ->
  same_result (slow_match token pOutDataEnd pOutDataFastEnd s1)
              (slow_match token pOutDataEnd pOutDataFastEnd s2).
Proof.
  destruct s1 as [i1 o1 c1 t1], s2 as [i2 o2 c2 t2].
  unfold same_decoding. cbn [inp out cur seen].
  intros (<- & <- & <- & Hc & Hlen & Hag).
  unfold slow_match. cbn [inp out cur seen].
  destruct i1 as [| b0 [| b1 inp2]];
    try (cbn [same_result]; unfold same_decoding; cbn [inp out cur seen];
         repeat apply conj; try reflexivity; assumption).
  pose proof (match_offset_range b0 b1) as Hoff.
  destruct (0 <=? c1 - match_offset b0 b1) eqn:Hsrc; [| reflexivity].
  apply Z.leb_le in Hsrc.
  pose proof (match_slow_rel inp2 (c1 - match_offset b0 b1) (match_nibble token)
                o1 o2 c1 pOutDataEnd pOutDataFastEnd
                (proj1 (match_nibble_range token)) Hsrc Hlen) as Hrel.
  destruct (lz4ultra_expand_match_slow inp2 _ _ o1 _ _ _) as [[[i1 b1'] c1'] |];
    destruct (lz4ultra_expand_match_slow inp2 _ _ o2 _ _ _) as [[[i2 b2'] c2'] |];
    cbn [same_helper_result] in Hrel; try contradiction; [| reflexivity].
  destruct Hrel as (-> & -> & Hle & Hlen' & _ & Hag').
  cbn [same_result]. unfold same_decoding. cbn [inp out cur seen].
  repeat apply conj; try reflexivity; try lia.
  intros Hnz. apply nonzero_offsets_snoc in Hnz as [Hnz Hne].
  apply Hag'; [lia | apply Hag; exact Hnz].
Qed.

Lemma fast_match_rel token pOutDataEnd s1 s2 :
  same_decoding s1 s2 ->
  same_result (fast_match token pOutDataEnd (pOutDataEnd - 20) s1)
              (slow_match token pOutDataEnd (pOutDataEnd - 20) s2).
Proof.
  destruct s1 as [i1 o1 c1 t1], s2 as [i2 o2 c2 t2].
  unfold same_decoding. cbn [inp out cur seen].
  intros (<- & <- & <- & Hc & Hlen & Hag).
  unfold fast_match, slow_match. cbn [inp out cur seen].
  destruct i1 as [| b0 [| b1 inp2]];
    try (cbn [same_result]; unfold same_decoding; cbn [inp out cur seen];
         repeat apply conj; try reflexivity; assumption).
  pose proof (match_offset_range b0 b1) as Hoff.
  pose proof (match_nibble_range token) as Hm.
  destruct (0 <=? c1 - match_offset b0 b1) eqn:Hsrc; [| reflexivity].
  apply Z.leb_le in Hsrc.
  destruct ((match_nibble token <? MATCH_RUN_LEN) && (8 <=? match_offset b0 b1)
            && (c1 <? pOutDataEnd - 20)) eqn:Hfast.
  - apply andb_true_iff in Hfast as [Hfast Hroom].
    apply andb_true_iff in Hfast as [Hshort Hfar].
    apply Z.ltb_lt in Hroom, Hshort. apply Z.leb_le in Hfar.
    unfold MATCH_RUN_LEN in Hshort.
    rewrite fast_copy_bytes by lia.
    unfold lz4ultra_expand_match_slow.
    replace (match_nibble token =? MATCH_RUN_LEN) with false
      by (symmetry; apply Z.eqb_neq; unfold MATCH_RUN_LEN; lia).
    unfold MIN_MATCH_SIZE.
    rewrite uint32_small by lia.
    replace (c1 + (match_nibble token + 4) <=? pOutDataEnd) with true
      by (symmetry; apply Z.leb_le; lia).
    assert (Hslow : exists N : nat,
      match_nibble token + 4 <= Z.of_nat N /\
      (if (8 <=? c1 - (c1 - match_offset b0 b1))
          && (c1 + (match_nibble token + 4) <=? pOutDataEnd - 20)
       then copy_chunks16 (S (Z.to_nat (match_nibble token + 4))) o2
              (c1 - match_offset b0 b1) c1 (c1 + (match_nibble token + 4))
       else copy_match_bytewise o2 (c1 - match_offset b0 b1) c1
              (match_nibble token + 4)) =
      copy_bytes N o2 (c1 - match_offset b0 b1) c1).
    { destruct ((8 <=? c1 - (c1 - match_offset b0 b1))
                && (c1 + (match_nibble token + 4) <=? pOutDataEnd - 20)).
      - destruct (copy_chunks16_copy_bytes
                    (S (Z.to_nat (match_nibble token + 4)))
                    (c1 - match_offset b0 b1) c1
                    (c1 + (match_nibble token + 4)))
          as [N [HN Heq]]; [lia .. |].
        exists N. split; [lia | apply Heq].
      - exists (Z.to_nat (match_nibble token + 4)). split; [lia |].
        apply copy_match_bytewise_copy_bytes. lia. }
    destruct Hslow as [N [HN Heq]].
    destruct ((8 <=? c1 - (c1 - match_offset b0 b1))
              && (c1 + (match_nibble token + 4) <=? pOutDataEnd - 20));
      rewrite Heq; cbn [same_result]; unfold same_decoding;
      cbn [inp out cur seen]; repeat apply conj; try reflexivity; try lia;
      try (rewrite !length_copy_bytes; exact Hlen);
      (intros Hnz; apply nonzero_offsets_snoc in Hnz as [Hnz Hne];
       replace (c1 + (4 + match_nibble token))
         with (c1 + Z.of_nat (Z.to_nat (match_nibble token + 4))) by lia;
       apply agree_copy_bytes; [apply Hag; exact Hnz | lia ..]).
  - pose proof (match_slow_rel inp2 (c1 - match_offset b0 b1)
                  (match_nibble token) o1 o2 c1 pOutDataEnd (pOutDataEnd - 20)
                  (proj1 Hm) Hsrc Hlen) as Hrel.
    destruct (lz4ultra_expand_match_slow inp2 _ _ o1 _ _ _)
      as [[[i1 b1'] c1'] |];
      destruct (lz4ultra_expand_match_slow inp2 _ _ o2 _ _ _)
        as [[[i2 b2'] c2'] |];
      cbn [same_helper_result] in Hrel; try contradiction; [| reflexivity].
    destruct Hrel as (-> & -> & Hle & Hlen' & _ & Hag').
    cbn [same_result]. unfold same_decoding. cbn [inp out cur seen].
    repeat apply conj; try reflexivity; try lia.
    intros Hnz. apply nonzero_offsets_snoc in Hnz as [Hnz Hne].
    apply Hag'; [lia | apply Hag; exact Hnz].
Qed.

Lemma literals_slow_length inp0 n o cur0 pOutDataEnd i b c :
  0 <= n -> 0 <= cur0 ->
  lz4ultra_expand_literals_slow inp0 n o cur0 pOutDataEnd = Some (i, b, c) ->
  (length i <= length inp0)%nat /\ cur0 <= c.
Proof.
  intros Hn Hc H.
  pose proof (literals_slow_rel inp0 n o o cur0 pOutDataEnd Hn Hc eq_refl) as Hr.
  rewrite H in Hr. cbn [same_helper_result] in Hr. lia.
Qed.

Lemma match_slow_length inp0 pSrc m o cur0 pOutDataEnd pOutDataFastEnd i b c :
  0 <= m -> 0 <= pSrc ->
  lz4ultra_expand_match_slow inp0 pSrc m o cur0 pOutDataEnd pOutDataFastEnd
    = Some (i, b, c) ->
  (length i <= length inp0)%nat /\ cur0 <= c.
Proof.
  intros Hm Hs H.
  pose proof (match_slow_rel inp0 pSrc m o o cur0 pOutDataEnd pOutDataFastEnd
                Hm Hs eq_refl) as Hr.
  rewrite H in Hr. cbn [same_helper_result] in Hr. lia.
Qed.

Lemma slow_match_length token pOutDataEnd pOutDataFastEnd st st' :
  slow_match token pOutDataEnd pOutDataFastEnd st = Next st' ->
  (length (inp st') <= length (inp st))%nat /\ cur st <= cur st'.
Proof.
  unfold slow_match. intros H.
  destruct (inp st) as [| b0 [| b1 inp2]] eqn:Hi;
    try (injection H as <-; rewrite Hi; lia).
  destruct (0 <=? cur st - match_offset b0 b1) eqn:Hsrc; [| discriminate].
  apply Z.leb_le in Hsrc.
  destruct (lz4ultra_expand_match_slow _ _ _ _ _ _ _) as [[[i b] c] |] eqn:Hm;
    [| discriminate].
  injection H as <-. cbn [inp cur].
  apply match_slow_length in Hm;
    [simpl; lia | apply match_nibble_range | exact Hsrc].
Qed.

Lemma fast_match_length token pOutDataEnd pOutDataFastEnd st st' :
  fast_match token pOutDataEnd pOutDataFastEnd st = Next st' ->
  (length (inp st') <= length (inp st))%nat /\ cur st <= cur st'.
Proof.
  unfold fast_match. intros H.
  destruct (inp st) as [| b0 [| b1 inp2]] eqn:Hi;
    try (injection H as <-; rewrite Hi; lia).
  destruct (0 <=? cur st - match_offset b0 b1) eqn:Hsrc; [| discriminate].
  apply Z.leb_le in Hsrc.
  destruct ((match_nibble token <? MATCH_RUN_LEN) && _ && _).
  - injection H as <-. pose proof (match_nibble_range token).
    unfold MIN_MATCH_SIZE. simpl. lia.
  - destruct (lz4ultra_expand_match_slow _ _ _ _ _ _ _) as [[[i b] c] |] eqn:Hm;
      [| discriminate].
    injection H as <-. cbn [inp cur].
    apply match_slow_length in Hm;
      [simpl; lia | apply match_nibble_range | exact Hsrc].
Qed.

(** Every round reads its token: the input gets shorter, and the output
    position does not move back. *)
Lemma slow_token_length pOutDataEnd pOutDataFastEnd st st' :
  0 <= cur st -> inp st <> [] ->
  slow_token pOutDataEnd pOutDataFastEnd st = Next st' ->
  (length (inp st') < length (inp st))%nat /\ cur st <= cur st'.
Proof.
  unfold slow_token. intros Hc Hne H.
  destruct (inp st) as [| token inp0] eqn:Hi; [congruence |].
  destruct (lz4ultra_expand_literals_slow _ _ _ _ _) as [[[i b] c] |] eqn:Hl;
    [| discriminate].
  apply literals_slow_length in Hl;
    [| apply literals_nibble_range | exact Hc].
  apply slow_match_length in H. cbn [inp cur] in H. simpl. lia.
Qed.

Lemma fast_token_length pOutDataEnd pOutDataFastEnd st st' :
  0 <= cur st -> inp st <> [] ->
  fast_token pOutDataEnd pOutDataFastEnd st = Next st' ->
  (length (inp st') < length (inp st))%nat /\ cur st <= cur st'.
Proof.
  unfold fast_token. intros Hc Hne H.
  destruct (inp st) as [| token inp0] eqn:Hi; [congruence |].
  pose proof (literals_nibble_range token) as Hn.
  destruct (literals_nibble token <? LITERALS_RUN_LEN).
  - apply fast_match_length in H. cbn [inp cur] in H.
    rewrite length_drop in H. simpl. lia.
  - destruct (lz4ultra_expand_literals_slow _ _ _ _ _) as [[[i b] c] |] eqn:Hl;
      [| discriminate].
    apply literals_slow_length in Hl; [| lia | exact Hc].
    apply fast_match_length in H. cbn [inp cur] in H. simpl. lia.
Qed.

Lemma slow_token_rel pOutDataEnd pOutDataFastEnd s1 s2 :
  same_decoding s1 s2 ->
  same_result (slow_token pOutDataEnd pOutDataFastEnd s1)
              (slow_token pOutDataEnd pOutDataFastEnd s2).
Proof.
  intros Hsame. pose proof Hsame as (Hi & Hc & Ht & Hpos & Hlen & Hag).
  unfold slow_token. rewrite <- Hi, <- Hc, <- Ht.
  destruct (inp s1) as [| token inp0] eqn:Hinp; [exact Hsame |].
  pose proof (literals_slow_rel inp0 (literals_nibble token) (out s1) (out s2)
                (cur s1) pOutDataEnd (proj1 (literals_nibble_range token))
                Hpos Hlen) as Hrel.
  destruct (lz4ultra_expand_literals_slow inp0 _ (out s1) _ _)
    as [[[i1 b1] c1] |];
    destruct (lz4ultra_expand_literals_slow inp0 _ (out s2) _ _)
      as [[[i2 b2] c2] |];
    cbn [same_helper_result] in Hrel; try contradiction; [| reflexivity].
  destruct Hrel as (-> & -> & Hle & Hlen' & _ & Hag').
  apply slow_match_rel. unfold same_decoding. cbn [inp out cur seen].
  repeat apply conj; try reflexivity; try lia.
  intros Hnz. apply Hag'; [exact I | apply Hag; exact Hnz].
Qed.

(** While the fast loop runs, its round and the round of the slow loop decode
    the same token to the same bytes. *)
Lemma fast_token_rel pOutDataEnd s1 s2 :
  same_decoding s1 s2 ->
  16 < Z.of_nat (length (inp s1)) -> cur s1 < pOutDataEnd - 20 ->
  same_result (fast_token pOutDataEnd (pOutDataEnd - 20) s1)
              (slow_token pOutDataEnd (pOutDataEnd - 20) s2).
Proof.
  intros Hsame Hroom_in Hroom_out.
  pose proof Hsame as (Hi & Hc & Ht & Hpos & Hlen & Hag).
  unfold fast_token, slow_token. rewrite <- Hi, <- Hc, <- Ht.
  destruct (inp s1) as [| token inp0] eqn:Hinp; [exact Hsame |].
  simpl in Hroom_in.
  pose proof (literals_nibble_range token) as Hn.
  destruct (literals_nibble token <? LITERALS_RUN_LEN) eqn:Hshort.
  - apply Z.ltb_lt in Hshort. unfold LITERALS_RUN_LEN in Hshort.
    unfold lz4ultra_expand_literals_slow.
    replace (literals_nibble token =? LITERALS_RUN_LEN) with false
      by (symmetry; apply Z.eqb_neq; unfold LITERALS_RUN_LEN; lia).
    destruct (literals_nibble token =? 0) eqn:Hzero.
    + apply Z.eqb_eq in Hzero. rewrite Hzero. cbn [Z.to_nat drop].
      apply fast_match_rel. unfold same_decoding. cbn [inp out cur seen].
      repeat apply conj; try reflexivity; try lia.
      * rewrite length_store. exact Hlen.
      * intros Hnz.
        replace (cur s1 + 0) with (cur s1 + Z.of_nat 0) by lia.
        apply (agree_store_prefix 0 (take 16 inp0) [] (cur s1) (out s1) (out s2));
          [apply Hag; exact Hnz | exact Hpos | reflexivity | lia | simpl; lia].
    + replace ((literals_nibble token <=? Z.of_nat (length inp0))
               && (cur s1 + literals_nibble token <=? pOutDataEnd)) with true
        by (symmetry; apply andb_true_iff; split; apply Z.leb_le; lia).
      apply fast_match_rel. unfold same_decoding. cbn [inp out cur seen].
      repeat apply conj; try reflexivity; try lia.
      * rewrite !length_store. exact Hlen.
      * intros Hnz.
        replace (cur s1 + literals_nibble token)
          with (cur s1 + Z.of_nat (Z.to_nat (literals_nibble token))) by lia.
        apply agree_store_prefix;
          [apply Hag; exact Hnz | exact Hpos | | |].
        -- rewrite !take_take. f_equal. lia.
        -- rewrite length_take. lia.
        -- rewrite length_take. lia.
  - pose proof (literals_slow_rel inp0 (literals_nibble token) (out s1) (out s2)
                  (cur s1) pOutDataEnd (proj1 Hn) Hpos Hlen) as Hrel.
    destruct (lz4ultra_expand_literals_slow inp0 _ (out s1) _ _)
      as [[[i1 b1] c1] |];
      destruct (lz4ultra_expand_literals_slow inp0 _ (out s2) _ _)
        as [[[i2 b2] c2] |];
      cbn [same_helper_result] in Hrel; try contradiction; [| reflexivity].
    destruct Hrel as (-> & -> & Hle & Hlen' & _ & Hag').
    apply fast_match_rel. unfold same_decoding. cbn [inp out cur seen].
    repeat apply conj; try reflexivity; try lia.
    intros Hnz. apply Hag'; [exact I | apply Hag; exact Hnz].
Qed.

(** ** The loops *)

Lemma slow_loop_fuel pOutDataEnd pOutDataFastEnd f1 : forall f2 st,
  0 <= cur st ->
  (length (inp st) < f1)%nat -> (length (inp st) < f2)%nat ->
  slow_loop f1 pOutDataEnd pOutDataFastEnd st =
  slow_loop f2 pOutDataEnd pOutDataFastEnd st.
Proof.
  induction f1 as [| f1 IH]; intros f2 st Hc H1 H2; [lia |].
  destruct f2 as [| f2]; [lia |]. cbn [slow_loop].
  destruct (0 <? Z.of_nat (length (inp st))) eqn:Hmore; [| reflexivity].
  apply Z.ltb_lt in Hmore.
  destruct (slow_token pOutDataEnd pOutDataFastEnd st) as [st' | st'] eqn:Htok;
    [reflexivity |].
  apply slow_token_length in Htok; [| exact Hc | destruct (inp st); simpl in *; [lia | congruence]].
  apply IH; lia.
Qed.

Lemma slow_loop_rel pOutDataEnd pOutDataFastEnd fuel : forall s1 s2,
  same_decoding s1 s2 -> (length (inp s1) < fuel)%nat ->
  same_outcome (slow_loop fuel pOutDataEnd pOutDataFastEnd s1)
               (slow_loop fuel pOutDataEnd pOutDataFastEnd s2).
Proof.
  induction fuel as [| fuel IH]; intros s1 s2 Hsame Hfuel; [lia |].
  cbn [slow_loop]. pose proof Hsame as (Hi & _ & _ & Hc & _).
  rewrite <- Hi.
  destruct (0 <? Z.of_nat (length (inp s1))) eqn:Hmore; [| exact Hsame].
  apply Z.ltb_lt in Hmore.
  pose proof (slow_token_rel pOutDataEnd pOutDataFastEnd s1 s2 Hsame) as Hrel.
  destruct (slow_token pOutDataEnd pOutDataFastEnd s1) as [t1 | t1] eqn:Htok;
    destruct (slow_token pOutDataEnd pOutDataFastEnd s2) as [t2 | t2];
    cbn [same_result] in Hrel; try contradiction; [exact Hrel |].
  apply slow_token_length in Htok;
    [| exact Hc | destruct (inp s1); simpl in *; [lia | congruence]].
  apply IH; [exact Hrel | lia].
Qed.

(** The fast loop followed by the slow loop, against the slow loop alone. *)
Lemma both_loops_rel pOutDataEnd fuel : forall F1 F2 s1 s2,
  same_decoding s1 s2 ->
  (length (inp s1) < fuel)%nat ->
  (length (inp s1) < F1)%nat -> (length (inp s1) < F2)%nat ->
  same_outcome
    match fast_loop fuel pOutDataEnd (pOutDataEnd - 20) s1 with
    | None => None
    | Some (Fail st') => Some (Fail st')
    | Some (Next st') => slow_loop F1 pOutDataEnd (pOutDataEnd - 20) st'
    end
    (slow_loop F2 pOutDataEnd (pOutDataEnd - 20) s2).
Proof.
  induction fuel as [| fuel IH]; intros F1 F2 s1 s2 Hsame Hfuel H1 H2; [lia |].
  cbn [fast_loop]. pose proof Hsame as (Hi & Hcur & _ & Hc & _).
  destruct ((16 <? Z.of_nat (length (inp s1)))
            && (cur s1 <? pOutDataEnd - 20)) eqn:Hfast.
  - apply andb_true_iff in Hfast as [Hin Hout].
    apply Z.ltb_lt in Hin, Hout.
    destruct F2 as [| F2]; [lia |]. cbn [slow_loop]. rewrite <- Hi.
    replace (0 <? Z.of_nat (length (inp s1))) with true
      by (symmetry; apply Z.ltb_lt; lia).
    pose proof (fast_token_rel pOutDataEnd s1 s2 Hsame Hin Hout) as Hrel.
    destruct (fast_token pOutDataEnd (pOutDataEnd - 20) s1) as [t1 | t1] eqn:Htok;
      destruct (slow_token pOutDataEnd (pOutDataEnd - 20) s2) as [t2 | t2];
      cbn [same_result] in Hrel; try contradiction; [exact Hrel |].
    apply fast_token_length in Htok;
      [| exact Hc | destruct (inp s1); simpl in *; [lia | congruence]].
    apply IH; [exact Hrel | lia ..].
  - rewrite (slow_loop_fuel pOutDataEnd (pOutDataEnd - 20) F2 F1 s2);
      [| lia | rewrite <- Hi; lia | rewrite <- Hi; lia].
    apply slow_loop_rel; [exact Hsame | lia].
Qed.

Lemma same_decoding_refl st : 0 <= cur st -> same_decoding st st.
Proof.
  intros Hc. unfold same_decoding. repeat apply conj; try reflexivity; try lia.
  intros _. split; reflexivity.
Qed.

(** The decoder always returns: the fuel it is given is enough. *)
Lemma expand_block_total pInBlock pOutData nOutDataOffset nBlockMaxSize :
  0 <= nOutDataOffset ->
  is_Some (lz4ultra_decompressor_expand_block_lz4 pInBlock pOutData
             nOutDataOffset nBlockMaxSize).
Proof.
  intros Hoff. unfold lz4ultra_decompressor_expand_block_lz4, both_loops.
  set (st := DecState pInBlock pOutData nOutDataOffset []).
  pose proof (both_loops_rel (nOutDataOffset + nBlockMaxSize)
                (S (length pInBlock)) (S (length pInBlock))
                (S (length pInBlock)) st st
                (same_decoding_refl st Hoff)) as Hrel.
  cbn [inp st] in Hrel. specialize (Hrel ltac:(lia) ltac:(lia) ltac:(lia)).
  destruct (match fast_loop _ _ _ st with None => None | Some _ => _ end)
    as [r |]; [| destruct Hrel].
  eexists. reflexivity.
Qed.

(** ** The fast loop against the slow loop (C1) *)

(** C1, counterexample.  On [zero_offset_block] both decoders succeed and
    return 17, but the bytes differ: the match at offset 0 copies the bytes
    that are already at the output position, which the 16-byte literal copy
    of the fast loop has overwritten with input bytes, and which the slow
    loop has left as they were. *)
Lemma fast_loop_changes_zero_offset_match :
  exists r1 r2,
    lz4ultra_decompressor_expand_block_lz4 zero_offset_block (zeros 64) 0 64
      = Some r1 /\
    expand_block_slow_only zero_offset_block (zeros 64) 0 64 = Some r2 /\
    r1.1 = 17 /\ r2.1 = 17 /\
    produced 0 r1 =
      [x41; x00; x00; xc0; x01; x01; x02; x03; x04; x05; x06; x07; x08; x09;
       x0a; x0b; x0c] /\
    produced 0 r2 =
      [x41; x00; x00; x00; x00; x01; x02; x03; x04; x05; x06; x07; x08; x09;
       x0a; x0b; x0c] /\
    produced 0 r1 <> produced 0 r2.
Proof.
  eexists. eexists.
  split; [vm_compute; reflexivity |].
  split; [vm_compute; reflexivity |].
  repeat split; try (vm_compute; congruence).
Qed.

(** C1, amended.  The decoder and the slow-loop-only decoder always return
    the same value and decode the same match offsets; when the decoder
    succeeds and no match has the offset 0, they produce the same bytes. *)
Theorem fast_loop_preserves_result
    (pInBlock pOutData : list byte) (nOutDataOffset nBlockMaxSize : Z) :
  0 <= nOutDataOffset ->
  exists r1 r2,
    lz4ultra_decompressor_expand_block_lz4 pInBlock pOutData
      nOutDataOffset nBlockMaxSize = Some r1 /\
    expand_block_slow_only pInBlock pOutData nOutDataOffset nBlockMaxSize
      = Some r2 /\
    r1.1 = r2.1 /\
    seen r1.2 = seen r2.2 /\
    (0 <= r1.1 -> nonzero_offsets (seen r1.2) ->
     produced nOutDataOffset r1 = produced nOutDataOffset r2).
Proof.
  intros Hoff.
  unfold lz4ultra_decompressor_expand_block_lz4, expand_block_slow_only,
    both_loops.
  set (st := DecState pInBlock pOutData nOutDataOffset []).
  pose proof (both_loops_rel (nOutDataOffset + nBlockMaxSize)
                (S (length pInBlock)) (S (length pInBlock))
                (S (length pInBlock)) st st
                (same_decoding_refl st Hoff)) as Hrel.
  cbn [inp st] in Hrel. specialize (Hrel ltac:(lia) ltac:(lia) ltac:(lia)).
  destruct (match fast_loop _ _ _ st with None => None | Some _ => _ end)
    as [r1 |]; [| destruct Hrel].
  destruct (slow_loop _ _ _ st) as [r2 |]; [| destruct Hrel].
  exists (finish nOutDataOffset r1), (finish nOutDataOffset r2).
  split; [reflexivity |]. split; [reflexivity |].
  destruct r1 as [t1 | t1], r2 as [t2 | t2]; cbn [same_outcome same_result] in Hrel;
    try contradiction; cbn [finish fst snd].
  - split; [reflexivity | split; [exact Hrel | intros; lia]].
  - destruct Hrel as (Hi & Hc & Ht & Hpos & Hlen & Hag).
    repeat apply conj; [congruence | exact Ht |].
    intros Hret Hnz. unfold produced. cbn [fst snd]. rewrite <- Hc.
    apply (agree_take (cur t1)); [apply Hag; exact Hnz | exact Hoff | lia].
Qed.

Lemma fast_loop_preserves_result_witness :
  exists r1 r2,
    lz4ultra_decompressor_expand_block_lz4 [x17; x61; x01; x00; x00]
      (zeros 64) 0 64 = Some r1 /\
    expand_block_slow_only [x17; x61; x01; x00; x00] (zeros 64) 0 64
      = Some r2 /\
    r1.1 = r2.1 /\
    seen r1.2 = seen r2.2 /\
    (0 <= r1.1 -> nonzero_offsets (seen r1.2) ->
     produced 0 r1 = produced 0 r2).
Proof.
  apply (fast_loop_preserves_result [x17; x61; x01; x00; x00] (zeros 64) 0 64).
  lia.
Defined.

(** ** A match whose source is before the buffer (C5) *)

Lemma sources_in_buffer_snoc l c o :
  sources_in_buffer l -> 0 <= c - o -> sources_in_buffer (l ++ [(c, o)]).
Proof.
  unfold sources_in_buffer. intros Hl Ho. apply Forall_app. split; [exact Hl |].
  apply Forall_singleton. exact Ho.
Qed.

Lemma slow_match_checked token pOutDataEnd pOutDataFastEnd st :
  sources_in_buffer (seen st) ->
  checked_result (slow_match token pOutDataEnd pOutDataFastEnd st).
Proof.
  intros Hok. unfold slow_match.
  destruct (inp st) as [| b0 [| b1 inp2]]; try exact Hok.
  destruct (0 <=? cur st - match_offset b0 b1) eqn:Hsrc.
  - apply Z.leb_le in Hsrc.
    destruct (lz4ultra_expand_match_slow _ _ _ _ _ _ _) as [[[i b] c] |];
      cbn [checked_result seen]; [| left];
      apply sources_in_buffer_snoc; assumption.
  - apply Z.leb_gt in Hsrc. cbn [checked_result]. right.
    exists (seen st), (cur st), (match_offset b0 b1).
    cbn [seen cur]. repeat apply conj; (reflexivity || assumption || lia).
Qed.

Lemma fast_match_checked token pOutDataEnd pOutDataFastEnd st :
  sources_in_buffer (seen st) ->
  checked_result (fast_match token pOutDataEnd pOutDataFastEnd st).
Proof.
  intros Hok. unfold fast_match.
  destruct (inp st) as [| b0 [| b1 inp2]]; try exact Hok.
  destruct (0 <=? cur st - match_offset b0 b1) eqn:Hsrc.
  - apply Z.leb_le in Hsrc.
    destruct ((match_nibble token <? MATCH_RUN_LEN) && _ && _).
    + cbn [checked_result seen]. apply sources_in_buffer_snoc; assumption.
    + destruct (lz4ultra_expand_match_slow _ _ _ _ _ _ _) as [[[i b] c] |];
        cbn [checked_result seen]; [| left];
        apply sources_in_buffer_snoc; assumption.
  - apply Z.leb_gt in Hsrc. cbn [checked_result]. right.
    exists (seen st), (cur st), (match_offset b0 b1).
    cbn [seen cur]. repeat apply conj; (reflexivity || assumption || lia).
Qed.

Lemma slow_token_checked pOutDataEnd pOutDataFastEnd st :
  sources_in_buffer (seen st) ->
  checked_result (slow_token pOutDataEnd pOutDataFastEnd st).
Proof.
  intros Hok. unfold slow_token.
  destruct (inp st) as [| token inp0]; [exact Hok |].
  destruct (lz4ultra_expand_literals_slow _ _ _ _ _) as [[[i b] c] |].
  - apply slow_match_checked. exact Hok.
  - left. exact Hok.
Qed.

Lemma fast_token_checked pOutDataEnd pOutDataFastEnd st :
  sources_in_buffer (seen st) ->
  checked_result (fast_token pOutDataEnd pOutDataFastEnd st).
Proof.
  intros Hok. unfold fast_token.
  destruct (inp st) as [| token inp0]; [exact Hok |].
  destruct (literals_nibble token <? LITERALS_RUN_LEN).
  - apply fast_match_checked. exact Hok.
  - destruct (lz4ultra_expand_literals_slow _ _ _ _ _) as [[[i b] c] |].
    + apply fast_match_checked. exact Hok.
    + left. exact Hok.
Qed.

Lemma slow_loop_checked pOutDataEnd pOutDataFastEnd fuel : forall st r,
  sources_in_buffer (seen st) ->
  slow_loop fuel pOutDataEnd pOutDataFastEnd st = Some r ->
  checked_result r.
Proof.
  induction fuel as [| fuel IH]; intros st r Hok H; [discriminate |].
  cbn [slow_loop] in H.
  destruct (0 <? Z.of_nat (length (inp st))).
  - pose proof (slow_token_checked pOutDataEnd pOutDataFastEnd st Hok) as Hch.
    destruct (slow_token pOutDataEnd pOutDataFastEnd st) as [st' | st'].
    + injection H as <-. exact Hch.
    + eapply IH; [exact Hch | exact H].
  - injection H as <-. exact Hok.
Qed.

Lemma fast_loop_checked pOutDataEnd pOutDataFastEnd fuel : forall st r,
  sources_in_buffer (seen st) ->
  fast_loop fuel pOutDataEnd pOutDataFastEnd st = Some r ->
  checked_result r.
Proof.
  induction fuel as [| fuel IH]; intros st r Hok H; [discriminate |].
  cbn [fast_loop] in H.
  destruct ((16 <? Z.of_nat (length (inp st))) && _).
  - pose proof (fast_token_checked pOutDataEnd pOutDataFastEnd st Hok) as Hch.
    destruct (fast_token pOutDataEnd pOutDataFastEnd st) as [st' | st'].
    + injection H as <-. exact Hch.
    + eapply IH; [exact Hch | exact H].
  - injection H as <-. exact Hok.
Qed.

Lemma both_loops_checked pOutDataEnd pOutDataFastEnd fuel st r :
  sources_in_buffer (seen st) ->
  both_loops fuel pOutDataEnd pOutDataFastEnd st = Some r ->
  checked_result r.
Proof.
  intros Hok H. unfold both_loops in H.
  destruct (fast_loop fuel pOutDataEnd pOutDataFastEnd st) as [[st' | st'] |]
    eqn:Hfast; [| | discriminate].
  - injection H as <-. eapply fast_loop_checked; eassumption.
  - apply fast_loop_checked in Hfast; [| exact Hok].
    eapply slow_loop_checked; eassumption.
Qed.

(** C5.  If the decoder decodes, at output position [dst], a match offset
    [off] that points before the start of the output buffer
    ([dst - off < 0]), then it returns -1; that match is the last thing it
    decoded, and the output position is still [dst]: the match was not
    copied.  In either loop the rejecting round leaves the buffer as it was
    after the literals of the token. *)
Theorem offset_before_buffer_is_rejected
    (pInBlock pOutData : list byte) (nOutDataOffset nBlockMaxSize : Z)
    (r : Z * dec_state) (dst off : Z) :
  lz4ultra_decompressor_expand_block_lz4 pInBlock pOutData
    nOutDataOffset nBlockMaxSize = Some r ->
  (dst, off) ∈ seen r.2 ->
  dst - off < 0 ->
  (r.1 = -1 /\ cur r.2 = dst /\ last (seen r.2) = Some (dst, off)) /\
  (forall token pOutDataEnd pOutDataFastEnd st b0 b1 inp2,
     inp st = b0 :: b1 :: inp2 ->
     cur st - match_offset b0 b1 < 0 ->
     let st' := DecState inp2 (out st) (cur st)
                  (seen st ++ [(cur st, match_offset b0 b1)]) in
     slow_match token pOutDataEnd pOutDataFastEnd st = Fail st' /\
     fast_match token pOutDataEnd pOutDataFastEnd st = Fail st').
Proof.
  intros Hdec Hin Hbad. split.
  - unfold lz4ultra_decompressor_expand_block_lz4 in Hdec.
    destruct (both_loops _ _ _ _) as [res |] eqn:Hloops; [| discriminate].
    injection Hdec as <-.
    apply both_loops_checked in Hloops; [| constructor].
    assert (Hnot : ~ sources_in_buffer (seen (finish nOutDataOffset res).2)).
    { intros Hall. unfold sources_in_buffer in Hall.
      rewrite Forall_forall in Hall. specialize (Hall _ Hin).
      cbn [fst snd] in Hall. lia. }
    destruct res as [st | st]; cbn [finish fst snd checked_result] in *;
      [| contradiction].
    destruct Hloops as [Hall | (l & d & o & Hseen & Hl & Hneg & Hcur)];
      [contradiction |].
    rewrite Hseen in Hin. apply elem_of_app in Hin as [Hin | Hin].
    + unfold sources_in_buffer in Hl. rewrite Forall_forall in Hl.
      specialize (Hl _ Hin). cbn [fst snd] in Hl. lia.
    + apply list_elem_of_singleton in Hin. injection Hin as -> ->.
      repeat apply conj; [reflexivity | exact Hcur |].
      rewrite Hseen. apply last_snoc.
  - intros token pOutDataEnd pOutDataFastEnd st b0 b1 inp2 Hi Hneg st'.
    unfold slow_match, fast_match. rewrite Hi.
    replace (0 <=? cur st - match_offset b0 b1) with false
      by (symmetry; apply Z.leb_gt; exact Hneg).
    split; reflexivity.
Qed.

Lemma offset_before_buffer_is_rejected_witness :
  exists r,
    lz4ultra_decompressor_expand_block_lz4 [x10; x41; x02; x00; x00]
      (zeros 64) 0 64 = Some r /\
    (1, 2) ∈ seen r.2 /\ 1 - 2 < 0 /\
    r.1 = -1 /\ cur r.2 = 1 /\ last (seen r.2) = Some (1, 2).
Proof.
  eexists. split; [vm_compute; reflexivity |].
  split; [cbn; apply list_elem_of_here |].
  split; [lia |].
  refine (proj1 (offset_before_buffer_is_rejected [x10; x41; x02; x00; x00]
                   (zeros 64) 0 64 _ 1 2 _ _ _)).
  - vm_compute. reflexivity.
  - cbn. apply list_elem_of_here.
  - lia.
Defined.

(** ** Variable-length runs (C6) *)

Lemma byte_val_255 (b : byte) : byte_val b = 255 -> b = xff.
Proof.
  intros H. unfold byte_val in H.
  assert (Hn : Byte.to_N b = 255%N) by lia.
  apply Byte.to_of_N_iff in Hn. vm_compute in Hn. congruence.
Qed.

(** A chain of [k] bytes 0xFF adds [255 * k]. *)
Lemma read_run_ff (k : nat) : forall n rest,
  0 <= n -> n + 255 * Z.of_nat k < 2 ^ 32 ->
  read_run (replicate k xff ++ rest) n = read_run rest (n + 255 * Z.of_nat k).
Proof.
  induction k as [| k IH]; intros n rest Hn Hk.
  - simpl. f_equal. lia.
  - cbn [replicate app read_run].
    change (byte_val xff) with 255. change (255 =? 255) with true. cbv iota.
    rewrite uint32_small by lia. rewrite IH by lia. f_equal. lia.
Qed.

(** The first byte other than 0xFF adds its value and ends the run. *)
Lemma read_run_end (b : byte) rest n :
  b <> xff -> 0 <= n -> n + byte_val b < 2 ^ 32 ->
  read_run (b :: rest) n = (rest, n + byte_val b).
Proof.
  intros Hb Hn Hk. cbn [read_run].
  destruct (byte_val b =? 255) eqn:Hff.
  - apply Z.eqb_eq in Hff. apply byte_val_255 in Hff. contradiction.
  - pose proof (byte_val_range b). rewrite uint32_small by lia. reflexivity.
Qed.

(** A literal run whose chain of 0xFF bytes runs into the end of the block is
    an error: no literal is left to copy. *)
Lemma truncated_literal_run_is_rejected (k : nat) out cur0 pOutDataEnd :
  15 + 255 * Z.of_nat k < 2 ^ 32 ->
  lz4ultra_expand_literals_slow (replicate k xff) LITERALS_RUN_LEN
    out cur0 pOutDataEnd = None.
Proof.
  intros Hk. unfold lz4ultra_expand_literals_slow, LITERALS_RUN_LEN.
  change (15 =? 15) with true. cbv iota.
  rewrite <- (app_nil_r (replicate k xff)).
  rewrite read_run_ff by lia. cbn [read_run].
  replace (15 + 255 * Z.of_nat k =? 0) with false
    by (symmetry; apply Z.eqb_neq; lia).
  replace (15 + 255 * Z.of_nat k <=? Z.of_nat (length (@nil byte))) with false
    by (symmetry; apply Z.leb_gt; simpl; lia).
  reflexivity.
Qed.

(** C6, the failing input.  In [truncated_match_block] the match length
    nibble is 15 and the block ends before any extension byte: the decoder
    does not return -1; it copies a match of 15 + 4 bytes and returns 20. *)
Theorem truncated_match_run_is_decoded :
  exists st,
    lz4ultra_decompressor_expand_block_lz4 truncated_match_block
      (zeros 64) 0 64 = Some (20, st) /\
    seen st = [(1, 1)] /\
    produced 0 (20, st) = replicate 20 x41 /\
    lz4ultra_expand_match_slow [] 0 MATCH_RUN_LEN (x41 :: zeros 63) 1 64 44
      = Some ([], replicate 20 x41 ++ zeros 44, 20).
Proof.
  eexists. split; [vm_compute; reflexivity |].
  repeat split; vm_compute; reflexivity.
Qed.

(** The two slow helpers on their own.  [lz4ultra_expand_literals_slow]
    consumes [n] literal bytes for a nibble [n] below 15, and
    [15 + 255 * k + b] bytes for a nibble 15 followed by [k] bytes 0xFF and a
    byte [b] other than 0xFF; [lz4ultra_expand_match_slow] moves the output
    by the nibble, so extended, plus 4.  (The run length is an
    [unsigned int]: the statement is for runs below 2^32.) *)
Lemma slow_helpers_read_runs
    (k : nat) (b : byte) (rest out : list byte)
    (cur0 pOutDataEnd pOutDataFastEnd pSrc n m : Z) :
  b <> xff ->
  15 + 255 * Z.of_nat k + byte_val b + 4 < 2 ^ 32 ->
  0 < n < 15 ->
  0 <= m < 15 ->
  let ext := replicate k xff ++ b :: rest in
  let L := 15 + 255 * Z.of_nat k + byte_val b in
  lz4ultra_expand_literals_slow rest 0 out cur0 pOutDataEnd
    = Some (rest, out, cur0) /\
  lz4ultra_expand_literals_slow rest n out cur0 pOutDataEnd
    = (if (n <=? Z.of_nat (length rest)) && (cur0 + n <=? pOutDataEnd)
       then Some (drop (Z.to_nat n) rest,
                  store out cur0 (take (Z.to_nat n) rest), cur0 + n)
       else None) /\
  lz4ultra_expand_literals_slow ext LITERALS_RUN_LEN out cur0 pOutDataEnd
    = (if (L <=? Z.of_nat (length rest)) && (cur0 + L <=? pOutDataEnd)
       then Some (drop (Z.to_nat L) rest,
                  store out cur0 (take (Z.to_nat L) rest), cur0 + L)
       else None) /\
  (fun r => (r.1.1, r.2)) <$>
    lz4ultra_expand_match_slow rest pSrc m out cur0 pOutDataEnd pOutDataFastEnd
    = (if cur0 + (m + MIN_MATCH_SIZE) <=? pOutDataEnd
       then Some (rest, cur0 + (m + MIN_MATCH_SIZE)) else None) /\
  (fun r => (r.1.1, r.2)) <$>
    lz4ultra_expand_match_slow ext pSrc MATCH_RUN_LEN out cur0
      pOutDataEnd pOutDataFastEnd
    = (if cur0 + (L + MIN_MATCH_SIZE) <=? pOutDataEnd
       then Some (rest, cur0 + (L + MIN_MATCH_SIZE)) else None).
Proof.
  intros Hb Hwrap Hn Hm ext L.
  pose proof (byte_val_range b) as Hbv.
  assert (Hext : read_run ext 15 = (rest, L)).
  { unfold ext, L. rewrite read_run_ff by lia.
    rewrite read_run_end by (assumption || lia). reflexivity. }
  repeat apply conj.
  - reflexivity.
  - unfold lz4ultra_expand_literals_slow.
    replace (n =? LITERALS_RUN_LEN) with false
      by (symmetry; apply Z.eqb_neq; unfold LITERALS_RUN_LEN; lia).
    replace (n =? 0) with false by (symmetry; apply Z.eqb_neq; lia).
    reflexivity.
  - unfold lz4ultra_expand_literals_slow, LITERALS_RUN_LEN.
    change (15 =? 15) with true. cbv iota. rewrite Hext.
    replace (L =? 0) with false by (symmetry; apply Z.eqb_neq; lia).
    reflexivity.
  - unfold lz4ultra_expand_match_slow.
    replace (m =? MATCH_RUN_LEN) with false
      by (symmetry; apply Z.eqb_neq; unfold MATCH_RUN_LEN; lia).
    unfold MIN_MATCH_SIZE. rewrite uint32_small by lia.
    destruct (cur0 + (m + 4) <=? pOutDataEnd); [| reflexivity].
    destruct ((8 <=? cur0 - pSrc) && _); reflexivity.
  - unfold lz4ultra_expand_match_slow, MATCH_RUN_LEN.
    change (15 =? 15) with true. cbv iota. rewrite Hext.
    unfold MIN_MATCH_SIZE. rewrite uint32_small by lia.
    destruct (cur0 + (L + 4) <=? pOutDataEnd); [| reflexivity].
    destruct ((8 <=? cur0 - pSrc) && _); reflexivity.
Qed.

(** ** The token without a match (C8) *)

(** C8, counterexample.  In [leftover_byte_block] the first token has no
    literals and one byte follows it: fewer than two, so that the token has no
    match; but it is not taken as the last token of the block, which would
    make the decoder return 0: the loop goes on, reads the byte that is left
    as a token with one literal, and the decoder returns -1. *)
Lemma leftover_byte_is_a_token :
  slow_token 64 44 (DecState leftover_byte_block (zeros 64) 0 [])
    = Next (DecState [x10] (zeros 64) 0 []) /\
  slow_token 64 44 (DecState [x10] (zeros 64) 0 [])
    = Fail (DecState [] (zeros 64) 0 []) /\
  lz4ultra_decompressor_expand_block_lz4 leftover_byte_block (zeros 64) 0 64
    = Some (-1, DecState [] (zeros 64) 0 []).
Proof.
  repeat split; vm_compute; reflexivity.
Qed.

(** C8, amended.  After the literals of a token, in either loop: with two
    bytes or more left, the first two are read as the match offset, low byte
    first; with fewer, nothing is read or written and the token has no match.
    The token is then the last one when no byte is left; when one byte [b]
    is left, the slow loop decodes it as one more token, which fails unless
    its literals nibble is 0. *)
Theorem match_offset_read_iff_two_bytes_left
    (token : byte) (pOutDataEnd pOutDataFastEnd : Z) (st : dec_state)
    (fuel : nat) :
  (forall r, r = slow_match token pOutDataEnd pOutDataFastEnd st \/
             r = fast_match token pOutDataEnd pOutDataFastEnd st ->
     let st' := match r with Fail s => s | Next s => s end in
     (forall b0 b1 inp2, inp st = b0 :: b1 :: inp2 ->
        seen st' = seen st ++ [(cur st, byte_val b0 + 256 * byte_val b1)]) /\
     ((length (inp st) < 2)%nat -> r = Next st) /\
     (seen st' <> seen st <-> (2 <= length (inp st))%nat)) /\
  (inp st = [] ->
   slow_loop (S fuel) pOutDataEnd pOutDataFastEnd st = Some (Next st)) /\
  (forall b, inp st = [b] ->
   slow_loop (S (S fuel)) pOutDataEnd pOutDataFastEnd st =
   Some ((if literals_nibble b =? 0 then Next else Fail)
           (DecState [] (out st) (cur st) (seen st)))).
Proof.
  split; [| split].
  - assert (Hgrow : forall (l : list (Z * Z)) x, l ++ [x] <> l).
    { intros l x H. apply (f_equal length) in H.
      rewrite length_app in H. simpl in H. lia. }
    intros r Hr st'. subst st'.
    unfold slow_match, fast_match in Hr.
    destruct (inp st) as [| b0 [| b1 inp2]] eqn:Hi.
    + assert (r = Next st) as -> by (destruct Hr; assumption).
      split; [discriminate | split; [reflexivity | simpl; split; [congruence | lia]]].
    + assert (r = Next st) as -> by (destruct Hr; assumption).
      split; [discriminate | split; [reflexivity | simpl; split; [congruence | lia]]].
    + assert (Hseen :
        seen match r with Fail s => s | Next s => s end
        = seen st ++ [(cur st, match_offset b0 b1)]).
      { destruct Hr as [-> | ->];
          destruct (0 <=? cur st - match_offset b0 b1); try reflexivity.
        - destruct (lz4ultra_expand_match_slow _ _ _ _ _ _ _) as [[[i b] c] |];
            reflexivity.
        - destruct ((match_nibble token <? MATCH_RUN_LEN) && _ && _);
            [reflexivity |].
          destruct (lz4ultra_expand_match_slow _ _ _ _ _ _ _) as [[[i b] c] |];
            reflexivity. }
      split; [| split].
      * intros c0 c1 i2 Heq. injection Heq as <- <- <-.
        rewrite <- match_offset_value. exact Hseen.
      * simpl. lia.
      * rewrite Hseen. split; [simpl; lia | intros _; apply Hgrow].
  - intros Hi. cbn [slow_loop]. rewrite Hi. reflexivity.
  - intros b Hi. cbn [slow_loop]. rewrite Hi. cbn [length Z.of_nat].
    change (0 <? Z.pos (Pos.of_succ_nat 0)) with true. cbv iota.
    unfold slow_token. rewrite Hi.
    unfold lz4ultra_expand_literals_slow.
    pose proof (literals_nibble_range b) as Hn.
    destruct (literals_nibble b =? LITERALS_RUN_LEN) eqn:Hrun.
    + apply Z.eqb_eq in Hrun. rewrite Hrun. reflexivity.
    + cbn [read_run]. destruct (literals_nibble b =? 0) eqn:Hzero.
      * unfold slow_match. cbn [inp length Z.of_nat]. reflexivity.
      * apply Z.eqb_neq in Hzero.
        replace (literals_nibble b <=? Z.of_nat (length (@nil byte)))
          with false by (symmetry; apply Z.leb_gt; simpl; lia).
        reflexivity.
Qed.

Lemma match_offset_read_iff_two_bytes_left_witness :
  seen match slow_match x00 64 44 (DecState [x02; x01; x50] (zeros 64) 300 [])
       with Fail s => s | Next s => s end
    = [(300, 2 + 256 * 1)] /\
  slow_match x00 64 44 (DecState [x02] (zeros 64) 300 [])
    = Next (DecState [x02] (zeros 64) 300 []) /\
  slow_loop 2 64 44 (DecState [x10] (zeros 64) 0 [])
    = Some (Fail (DecState [] (zeros 64) 0 [])).
Proof.
  repeat apply conj.
  - pose proof (match_offset_read_iff_two_bytes_left x00 64 44
                  (DecState [x02; x01; x50] (zeros 64) 300 []) 0) as (H & _ & _).
    destruct (H _ (or_introl eq_refl)) as (Hread & _ & _).
    exact (Hread x02 x01 [x50] eq_refl).
  - pose proof (match_offset_read_iff_two_bytes_left x00 64 44
                  (DecState [x02] (zeros 64) 300 []) 0) as (H & _ & _).
    destruct (H _ (or_introl eq_refl)) as (_ & Hnone & _).
    apply Hnone. simpl. lia.
  - pose proof (match_offset_read_iff_two_bytes_left x00 64 44
                  (DecState [x10] (zeros 64) 0 []) 0) as (_ & _ & H).
    exact (H x10 eq_refl).
Defined.

(** ** The exit status (C2) *)

(** C2, the failing input.  Compressing a file that does not exist is an
    error, reported on standard error, and yet the process exits with status
    0 instead of 100: in both revisions of [main], the branch of the
    compression command computes [nResult] and does not return it.  So does
    every run of the compression command whose arguments are accepted. *)
Theorem failed_compression_exits_with_0 :
  (forall lsza_compressor init shrink count expand,
     @main lsza_compressor init shrink count expand
       (world_of []) ["in.bin"; "out.lz4"]
     = Some (0, world_of [], [DiagOpenRead])) /\
  (forall FLAG compress_file decompress_file stream_open dict_load
          decompress_stream w nStatus w',
     compress_file "in.bin" "out.lz4" None 0 7 0 w = (nStatus, w') ->
     main2 FLAG compress_file decompress_file stream_open dict_load
       decompress_stream w ["in.bin"; "out.lz4"]
     = (0, w', if nStatus =? 0 then [] else [MsgCompressStatus nStatus])) /\
  (forall lsza_compressor init shrink count expand w argv r,
     @main lsza_compressor init shrink count expand w argv = Some r ->
     cCommand (parse_args argv) = "z" ->
     bArgsError (parse_args argv) = false ->
     is_Some (pszInFilename (parse_args argv)) ->
     is_Some (pszOutFilename (parse_args argv)) ->
     r.1.1 = 0).
Proof.
  split; [| split].
  - intros. reflexivity.
  - intros FLAG cf df so dl ds w nStatus w' Hcf.
    assert (Hparse :
      parse_args2 ["in.bin"; "out.lz4"]
        (CmdLine2 None None None false false false 7 0 false "z" 0)
      = CmdLine2 (Some "in.bin") (Some "out.lz4") None false false false 7 0
                 false "z" 0) by (vm_compute; reflexivity).
    unfold main2. rewrite Hparse.
    cbn [in2 out2 err2 cmd2 dict2 opts2 verify2 blockcode2 indep2].
    change (String.eqb "z" "z") with true. cbv iota.
    unfold do_compress, library_flags.
    change (has_flag 0 OPT_RAW) with false. cbv iota.
    rewrite Hcf. destruct (nStatus =? 0); reflexivity.
  - intros C init shrink count expand w argv r Hmain Hcmd Herr [fin Hin]
      [fout Hout].
    unfold main in Hmain. rewrite Hin, Hout, Herr, Hcmd in Hmain.
    change (String.eqb "z" "z") with true in Hmain. cbv iota in Hmain.
    destruct (lz4ultra_compress _ _ _ w fin fout _) as [[[nResult w1] d1] |];
      [| discriminate].
    destruct ((nResult =? 0) && _).
    + destruct (lz4ultra_compare _ w1 fout fin _) as [[[nResult2 w2] d2] |];
        [| discriminate].
      injection Hmain as <-. reflexivity.
    + injection Hmain as <-. reflexivity.
Qed.

Lemma failed_compression_exits_with_0_witness :
  main2 1 (fun _ _ _ _ _ _ w => (1, w)) (fun _ _ _ _ w => (0, w))
    (fun _ _ => None) (fun _ _ => (0, [])) (fun _ _ _ _ _ => 0)
    (world_of []) ["in.bin"; "out.lz4"]
  = (0, world_of [], [MsgCompressStatus 1]).
Proof.
  exact (proj1 (proj2 failed_compression_exits_with_0) 1
           (fun _ _ _ _ _ _ w => (1, w)) (fun _ _ _ _ w => (0, w))
           (fun _ _ => None) (fun _ _ => (0, [])) (fun _ _ _ _ _ => 0)
           (world_of []) 1 (world_of []) eq_refl).
Defined.

(** ** Reading files *)

(** Reading from a file that is exhausted: nothing is read and the
    end-of-file indicator is set. *)
Lemma fread_exhausted n f :
  rest f = [] -> 0 < n -> fread n f = ([], RFile [] true).
Proof.
  intros Hrest Hn. unfold fread. rewrite Hrest.
  replace (n <=? Z.of_nat (length (@nil byte))) with false
    by (symmetry; apply Z.leb_gt; simpl; lia).
  reflexivity.
Qed.

Lemma fread_enough n f :
  0 <= n <= Z.of_nat (length (rest f)) ->
  fread n f =
  (take (Z.to_nat n) (rest f), RFile (drop (Z.to_nat n) (rest f)) (at_eof f)).
Proof.
  intros Hn. unfold fread.
  replace (n <=? Z.of_nat (length (rest f))) with true
    by (symmetry; apply Z.leb_le; lia).
  reflexivity.
Qed.

Lemma fread_short n f :
  Z.of_nat (length (rest f)) < n -> fread n f = (rest f, RFile [] true).
Proof.
  intros Hn. unfold fread.
  replace (n <=? Z.of_nat (length (rest f))) with false
    by (symmetry; apply Z.leb_gt; lia).
  reflexivity.
Qed.

Section FrameCodeProperties.

Variable lsza_compressor : Type.
Variable lz4ultra_compressor_init : Z -> Z * lsza_compressor.
Variable lz4ultra_shrink_block :
  lsza_compressor -> list byte -> Z -> Z -> Z -> Z * list byte * lsza_compressor.
Variable lz4ultra_compressor_get_command_count : lsza_compressor -> Z.
Variable lz4ultra_expand_block :
  list byte -> list byte -> Z -> Z -> Z * list byte.

(** A round of the compression loop at the end of the input reads nothing,
    sets the end-of-file indicator and writes nothing. *)
Lemma compress_round_exhausted nOptions st :
  rest (c_in st) = [] ->
  exists indata,
    compress_round lz4ultra_shrink_block nOptions st =
    (false, CState (RFile [] true) (c_written st) indata
              (c_prev st) (c_comp st) (c_error st) (c_diag st)).
Proof.
  intros Hrest. unfold compress_round.
  rewrite (fread_exhausted BLOCK_SIZE (c_in st) Hrest) by reflexivity.
  cbn [length Z.of_nat]. change (0 <? 0) with false. cbv iota.
  eexists. reflexivity.
Qed.

Lemma compress_loop_exhausted nOptions st fuel :
  rest (c_in st) = [] -> c_error st = false ->
  exists indata,
    compress_loop lz4ultra_shrink_block (S (S fuel)) nOptions st
    = Some (CState (RFile [] (if at_eof (c_in st) then at_eof (c_in st) else true))
              (c_written st) indata
              (c_prev st) (c_comp st) false (c_diag st)).
Proof.
  intros Hrest Herr. cbn [compress_loop]. rewrite Herr.
  destruct (at_eof (c_in st)) eqn:Heof; cbn [negb andb].
  - exists (c_indata st). destruct st as [[r e] wr b p c er d].
    cbn in *. subst. reflexivity.
  - destruct (compress_round_exhausted nOptions st Hrest) as [indata Hround].
    rewrite Hround. cbn [at_eof c_in negb andb]. exists indata.
    rewrite Herr. reflexivity.
Qed.

(** ** A truncated block header (C10) *)

Lemma open_compressed_framed nOptions tail eof :
  has_flag nOptions OPT_RAW = false ->
  open_compressed nOptions (RFile (frame_header ++ tail) eof)
  = inr (RFile tail eof, 0).
Proof.
  intros Hraw. unfold open_compressed. rewrite Hraw.
  rewrite fread_enough by (cbn [rest]; rewrite length_app; simpl; lia).
  cbn [rest at_eof]. change (Z.to_nat 7) with 7%nat.
  change (take 7 (frame_header ++ tail)) with frame_header.
  change (drop 7 (frame_header ++ tail)) with tail.
  reflexivity.
Qed.

(** With fewer than 4 bytes left, the size of the next block is 0. *)
Lemma next_block_size_truncated nOptions f nFileSize :
  has_flag nOptions OPT_RAW = false ->
  (length (rest f) < 4)%nat ->
  next_block_size nOptions f nFileSize = (0, RFile [] true, nFileSize).
Proof.
  intros Hraw Hlen. unfold next_block_size. rewrite Hraw.
  rewrite fread_short by lia.
  replace (Z.of_nat (length (rest f)) =? 4) with false
    by (symmetry; apply Z.eqb_neq; lia).
  reflexivity.
Qed.

Lemma next_block_size_zero nOptions more eof nFileSize :
  has_flag nOptions OPT_RAW = false ->
  next_block_size nOptions (RFile (x00 :: x00 :: x00 :: x00 :: more) eof)
    nFileSize
  = (0, RFile more eof, nFileSize).
Proof.
  intros Hraw. unfold next_block_size. rewrite Hraw.
  rewrite fread_enough by (cbn [rest length]; lia).
  reflexivity.
Qed.

(** C10.  In framed mode, when fewer than 4 bytes are left where a block
    header is expected, the loop of [lz4ultra_decompress] ends at once,
    without an error and without writing anything more, as it does on a
    header of four zero bytes; a frame that stops after its header, or in the
    middle of the next block header, is decompressed with status 0. *)
Theorem truncated_block_header_ends_frame
    (nOptions : Z) (st : dstate) (fuel : nat) :
  has_flag nOptions OPT_RAW = false ->
  at_eof (d_in st) = false ->
  d_error st = 0 ->
  (length (rest (d_in st)) < 4)%nat ->
  (exists st',
     decompress_loop lz4ultra_expand_block (S fuel) nOptions st = Some st' /\
     d_error st' = 0 /\ d_written st' = d_written st /\
     forall more,
       exists st0',
         decompress_loop lz4ultra_expand_block (S fuel) nOptions
           (DState (RFile (x00 :: x00 :: x00 :: x00 :: more) false)
                   (d_filesize st) (d_written st) (d_outdata st)
                   (d_prev st) (d_error st)) = Some st0' /\
         d_error st0' = d_error st' /\ d_written st0' = d_written st' /\
         d_outdata st0' = d_outdata st' /\ d_prev st0' = d_prev st') /\
  (forall w fin fout tail,
     files w !! fin = Some (frame_header ++ tail) ->
     (length tail < 4)%nat ->
     fopen_wb w fout = true ->
     lz4ultra_decompress lz4ultra_expand_block w fin fout nOptions
     = Some (0, fclose_wb w fout [], [])).
Proof.
  intros Hraw Heof Herr Hlen. split.
  - eexists. split; [| split; [| split]].
    + cbn [decompress_loop]. rewrite Heof, Herr.
      change (negb false && (0 =? 0)) with true. cbv iota.
      unfold decompress_round.
      rewrite next_block_size_truncated by assumption.
      change (negb (0 =? 0)) with false. cbv iota. reflexivity.
    + exact Herr.
    + reflexivity.
    + intros more. eexists. split.
      { cbn [decompress_loop d_in d_error at_eof]. rewrite Herr.
        change (negb false && (0 =? 0)) with true. cbv iota.
        unfold decompress_round. cbn [d_in d_filesize d_prev d_outdata].
        rewrite next_block_size_zero by assumption.
        change (negb (0 =? 0)) with false. cbv iota. reflexivity. }
      cbn [d_error d_written d_outdata d_prev]. rewrite Herr.
      repeat split.
  - intros w fin fout tail Hfile Htail Hout.
    unfold lz4ultra_decompress, fopen_rb. rewrite Hfile.
    cbn [fmap option_fmap option_map].
    rewrite open_compressed_framed by exact Hraw. rewrite Hout.
    cbn [negb rest decompress_loop d_in d_error at_eof].
    change (negb false && (0 =? 0)) with true. cbv iota.
    unfold decompress_round. cbn [d_in d_filesize d_prev d_outdata].
    change (0 =? 0) with true. cbv iota.
    rewrite next_block_size_truncated by assumption.
    change (negb true) with false. cbv iota.
    cbn [d_error d_written]. change (negb (0 =? 0)) with false. reflexivity.
Qed.

(** ** The empty input (C3) *)

(** A frame without blocks: the header, then the four zero bytes. *)
Lemma decompress_empty_frame nOptions w fin fout more :
  has_flag nOptions OPT_RAW = false ->
  files w !! fin = Some (frame_header ++ x00 :: x00 :: x00 :: x00 :: more) ->
  fopen_wb w fout = true ->
  lz4ultra_decompress lz4ultra_expand_block w fin fout nOptions
  = Some (0, fclose_wb w fout [], []).
Proof.
  intros Hraw Hfile Hout.
  unfold lz4ultra_decompress, fopen_rb. rewrite Hfile.
  cbn [fmap option_fmap option_map].
  rewrite open_compressed_framed by exact Hraw. rewrite Hout.
  cbn [negb rest decompress_loop d_in d_error at_eof].
  change (negb false && (0 =? 0)) with true. cbv iota.
  unfold decompress_round. cbn [d_in d_filesize d_prev d_outdata].
  change (0 =? 0) with true. cbv iota.
  rewrite next_block_size_zero by assumption.
  change (negb true) with false. cbv iota.
  cbn [d_error d_written]. change (negb (0 =? 0)) with false. reflexivity.
Qed.

(** C3, amended.  Compressing an empty input in framed mode writes the 11
    bytes 04 22 4D 18 40 40 C0 00 00 00 00: the frame header, whose block
    size byte is [4 << 4], and the 4-byte footer; [lz4ultra_decompress] turns
    these bytes back into an empty file. *)
Theorem empty_input_frame
    (w : world) (fin fout : string) (nOptions : Z) :
  files w !! fin = Some [] ->
  fopen_wb w fout = true ->
  (lz4ultra_compressor_init (BLOCK_SIZE * 2)).1 = 0 ->
  has_flag nOptions OPT_RAW = false ->
  has_flag nOptions OPT_VERBOSE = false ->
  let framed :=
    [x04; x22; x4d; x18; x40; x40; xc0; x00; x00; x00; x00] in
  lz4ultra_compress lz4ultra_compressor_init lz4ultra_shrink_block
    lz4ultra_compressor_get_command_count w fin fout nOptions
  = Some (0, fclose_wb w fout framed, []) /\
  (forall w' fout',
     files w' !! fout = Some framed ->
     fopen_wb w' fout' = true ->
     lz4ultra_decompress lz4ultra_expand_block w' fout fout' nOptions
     = Some (0, fclose_wb w' fout' [], [])).
Proof.
  intros Hfile Hout Hinit Hraw Hverbose framed. split.
  - unfold lz4ultra_compress, fopen_rb. rewrite Hfile.
    cbn [fmap option_fmap option_map]. rewrite Hout. cbn [negb].
    destruct (lz4ultra_compressor_init (BLOCK_SIZE * 2)) as [nResult c].
    cbn [fst] in Hinit. subst nResult.
    change (negb (0 =? 0)) with false. cbv iota.
    rewrite Hraw, Hverbose. cbn [rest length].
    match goal with
    | |- context [compress_loop _ (S (S ?f)) _ ?st] =>
        destruct (compress_loop_exhausted nOptions st f eq_refl eq_refl)
          as [indata Hloop]
    end.
    rewrite Hloop. cbn [c_error c_written c_diag negb andb app].
    reflexivity.
  - intros w' fout' Hfile' Hout'.
    apply (decompress_empty_frame nOptions w' fout fout' []);
      [exact Hraw | exact Hfile' | exact Hout'].
Qed.

(** ** Reading a block *)

Lemma fread_lengths n f data f' :
  0 < n -> fread n f = (data, f') ->
  Z.of_nat (length data) = Z.min n (Z.of_nat (length (rest f))) /\
  (length (rest f') = length (rest f) - length data)%nat /\
  at_eof f' = (at_eof f || (Z.of_nat (length (rest f)) <? n)).
Proof.
  intros Hn H. unfold fread in H.
  destruct (n <=? Z.of_nat (length (rest f))) eqn:Hle.
  - apply Z.leb_le in Hle. injection H as <- <-. cbn [rest at_eof].
    rewrite length_take, length_drop.
    replace (Z.of_nat (length (rest f)) <? n) with false
      by (symmetry; apply Z.ltb_ge; lia).
    rewrite orb_false_r. repeat split; lia.
  - apply Z.leb_gt in Hle. injection H as <- <-. cbn [rest at_eof length].
    replace (Z.of_nat (length (rest f)) <? n) with true
      by (symmetry; apply Z.ltb_lt; lia).
    rewrite orb_true_r. repeat split; lia.
Qed.

Lemma compress_loop_step fuel nOptions st :
  compress_loop lz4ultra_shrink_block (S fuel) nOptions st =
  if negb (at_eof (c_in st)) && negb (c_error st) then
    let '(stop, st') := compress_round lz4ultra_shrink_block nOptions st in
    if stop then Some st'
    else compress_loop lz4ultra_shrink_block fuel nOptions st'
  else Some st.
Proof. reflexivity. Qed.

(** ** The loops of the driver have fuel enough *)

Lemma compress_round_file nOptions st :
  c_in (compress_round lz4ultra_shrink_block nOptions st).2
  = (fread BLOCK_SIZE (c_in st)).2.
Proof.
  unfold compress_round.
  destruct (fread BLOCK_SIZE (c_in st)) as [data f1].
  destruct (0 <? Z.of_nat (length data)); [| reflexivity].
  destruct (negb (c_prev st =? 0) && has_flag nOptions OPT_RAW);
    [reflexivity |].
  destruct (lz4ultra_shrink_block _ _ _ _ _) as [[nOut outdata] comp1].
  destruct (0 <=? nOut); [reflexivity |].
  destruct (has_flag nOptions OPT_RAW); reflexivity.
Qed.

Lemma compress_loop_total fuel : forall nOptions st,
  (rounds_left_in (c_in st) < fuel)%nat ->
  is_Some (compress_loop lz4ultra_shrink_block fuel nOptions st).
Proof.
  induction fuel as [| fuel IH]; intros nOptions st Hfuel; [lia |].
  rewrite compress_loop_step.
  destruct (negb (at_eof (c_in st)) && negb (c_error st)) eqn:Hgo;
    [| eexists; reflexivity].
  apply andb_true_iff in Hgo as [Heof _]. apply negb_true_iff in Heof.
  pose proof (compress_round_file nOptions st) as Hfile.
  destruct (compress_round lz4ultra_shrink_block nOptions st) as [stop st'].
  destruct stop; [eexists; reflexivity |].
  apply IH. cbn [snd] in Hfile. rewrite Hfile.
  destruct (fread BLOCK_SIZE (c_in st)) as [data f1] eqn:Hread.
  apply fread_lengths in Hread as (Hlen & Hrest & Heof'); [| reflexivity].
  unfold rounds_left_in in *. cbn [snd]. rewrite Heof', Hrest, Heof in *.
  cbn [orb]. unfold BLOCK_SIZE in *.
  destruct (Z.of_nat (length (rest (c_in st))) <? 65536) eqn:Hsmall.
  - apply Z.ltb_lt in Hsmall. lia.
  - apply Z.ltb_ge in Hsmall. lia.
Qed.

(** A read that returns as many bytes as asked for consumes them and leaves
    the end-of-file indicator as it was. *)
Lemma fread_complete n f data f' :
  0 <= n -> fread n f = (data, f') -> Z.of_nat (length data) = n ->
  Z.of_nat (length (rest f')) = Z.of_nat (length (rest f)) - n.
Proof.
  intros Hn H Hlen. unfold fread in H.
  destruct (n <=? Z.of_nat (length (rest f))) eqn:Hle.
  - apply Z.leb_le in Hle. injection H as <- <-. cbn [rest].
    rewrite length_drop. lia.
  - apply Z.leb_gt in Hle. injection H as <- <-. lia.
Qed.

(** Reading the size of a block that is not the last one uses up bytes, or
    the size of the raw file. *)
Lemma next_block_size_progress nOptions f nFileSize nBlockSize0 f1 nFileSize1 :
  next_block_size nOptions f nFileSize = (nBlockSize0, f1, nFileSize1) ->
  nBlockSize0 <> 0 ->
  (rounds_left_out f1 nFileSize1
     + (if (Z.land nBlockSize0 2147483647 =? 0)%Z then 1 else 0)
   <= rounds_left_out f nFileSize)%nat /\
  (rounds_left_out f1 nFileSize1 <= rounds_left_out f nFileSize)%nat.
Proof.
  unfold next_block_size, rounds_left_out. intros H Hnz.
  destruct (has_flag nOptions OPT_RAW).
  - injection H as <- <- <-. change (0 =? 0) with true.
    destruct (nFileSize =? 0) eqn:Hfs.
    + apply Z.eqb_eq in Hfs. subst nFileSize.
      change (Z.land (uint32 (0 - 2)) 2147483647 =? 0) with false.
      cbv iota. lia.
    + destruct (Z.land (uint32 (nFileSize - 2)) 2147483647 =? 0); lia.
  - destruct (fread 4 f) as [cBlockSize f2] eqn:Hread.
    injection H as <- <- <-.
    destruct (Z.of_nat (length cBlockSize) =? 4) eqn:Hfour; [| congruence].
    apply Z.eqb_eq in Hfour.
    apply fread_complete in Hread; [| lia | exact Hfour].
    destruct (Z.land (read_block_size cBlockSize) 2147483647 =? 0);
      destruct (nFileSize =? 0); lia.
Qed.

Lemma decompress_loop_total fuel : forall nOptions st,
  (rounds_left_out (d_in st) (d_filesize st) < fuel)%nat ->
  is_Some (decompress_loop lz4ultra_expand_block fuel nOptions st).
Proof.
  induction fuel as [| fuel IH]; intros nOptions st Hfuel; [lia |].
  cbn [decompress_loop].
  destruct (negb (at_eof (d_in st)) && (d_error st =? 0));
    [| eexists; reflexivity].
  destruct (decompress_round lz4ultra_expand_block nOptions st)
    as [stop st'] eqn:Hround.
  destruct stop; [eexists; reflexivity |].
  apply IH. unfold decompress_round in Hround.
  destruct (next_block_size nOptions (d_in st) (d_filesize st))
    as [[nBlockSize0 f1] nFileSize1] eqn:Hsize.
  destruct (negb (nBlockSize0 =? 0)) eqn:Hnz; [| discriminate].
  apply negb_true_iff, Z.eqb_neq in Hnz.
  apply next_block_size_progress in Hsize as [Hprog _]; [| exact Hnz].
  assert (Hpos : 0 <= Z.land nBlockSize0 2147483647)
    by (apply Z.land_nonneg; right; lia).
  destruct (fread (Z.land nBlockSize0 2147483647) f1) as [inblock f2] eqn:Hread.
  destruct (Z.of_nat (length inblock) =? Z.land nBlockSize0 2147483647)
    eqn:Hfull; [| discriminate].
  apply Z.eqb_eq in Hfull.
  apply fread_complete in Hread; [| exact Hpos | exact Hfull].
  assert (Hleft : (rounds_left_out f2 nFileSize1 < fuel)%nat).
  { unfold rounds_left_out in *.
    destruct (Z.land nBlockSize0 2147483647 =? 0) eqn:Hzero.
    - lia.
    - apply Z.eqb_neq in Hzero. lia. }
  destruct (if negb (Z.land nBlockSize0 2147483648 =? 0)
            then (Z.land nBlockSize0 2147483647, blit _ BLOCK_SIZE inblock)
            else lz4ultra_expand_block inblock _ BLOCK_SIZE BLOCK_SIZE)
    as [nDecompressedSize outdata2].
  destruct (nDecompressedSize <? 0); [discriminate |].
  destruct (negb (nDecompressedSize =? 0));
    injection Hround as <-; exact Hleft.
Qed.

Lemma compare_loop_total fuel : forall nOptions st,
  (rounds_left_out (v_in st) (v_filesize st) < fuel)%nat ->
  is_Some (compare_loop lz4ultra_expand_block fuel nOptions st).
Proof.
  induction fuel as [| fuel IH]; intros nOptions st Hfuel; [lia |].
  cbn [compare_loop].
  destruct (negb (at_eof (v_in st)) && (v_error st =? 0)
            && negb (v_mismatch st)); [| eexists; reflexivity].
  destruct (compare_round lz4ultra_expand_block nOptions st)
    as [stop st'] eqn:Hround.
  destruct stop; [eexists; reflexivity |].
  apply IH. unfold compare_round in Hround.
  destruct (fread BLOCK_SIZE (v_orig st)) as [comparedata orig1].
  destruct (next_block_size nOptions (v_in st) (v_filesize st))
    as [[nBlockSize0 f1] nFileSize1] eqn:Hsize.
  destruct (negb (nBlockSize0 =? 0)) eqn:Hnz; [| discriminate].
  apply negb_true_iff, Z.eqb_neq in Hnz.
  apply next_block_size_progress in Hsize as [Hprog _]; [| exact Hnz].
  assert (Hpos : 0 <= Z.land nBlockSize0 2147483647)
    by (apply Z.land_nonneg; right; lia).
  destruct (fread (Z.land nBlockSize0 2147483647) f1) as [inblock f2] eqn:Hread.
  destruct (Z.of_nat (length inblock) =? Z.land nBlockSize0 2147483647)
    eqn:Hfull; [| discriminate].
  apply Z.eqb_eq in Hfull.
  apply fread_complete in Hread; [| exact Hpos | exact Hfull].
  assert (Hleft : (rounds_left_out f2 nFileSize1 < fuel)%nat).
  { unfold rounds_left_out in *.
    destruct (Z.land nBlockSize0 2147483647 =? 0) eqn:Hzero.
    - lia.
    - apply Z.eqb_neq in Hzero. lia. }
  destruct (if negb (Z.land nBlockSize0 2147483648 =? 0)
            then (Z.land nBlockSize0 2147483647, blit _ BLOCK_SIZE inblock)
            else lz4ultra_expand_block inblock _ BLOCK_SIZE BLOCK_SIZE)
    as [nDecompressedSize outdata2].
  destruct (nDecompressedSize <? 0); [discriminate |].
  destruct (nDecompressedSize =? Z.of_nat (length comparedata));
    [| discriminate].
  injection Hround as <-. exact Hleft.
Qed.

End FrameCodeProperties.

Lemma truncated_block_header_ends_frame_witness :
  lz4ultra_decompress expand_block_model
    (world_of [("cut.lz4", frame_header ++ [x00; x00])]) "cut.lz4" "out.bin" 0
  = Some (0, fclose_wb (world_of [("cut.lz4", frame_header ++ [x00; x00])])
               "out.bin" [], []).
Proof.
  refine (proj2 (truncated_block_header_ends_frame expand_block_model 0
                   (DState (RFile [x00; x00] false) 0 [] [] 0 0) 0
                   eq_refl eq_refl eq_refl _)
            (world_of [("cut.lz4", frame_header ++ [x00; x00])])
            "cut.lz4" "out.bin" [x00; x00] eq_refl _ eq_refl).
  - simpl. lia.
  - simpl. lia.
Defined.


(** C3, counterexample.  The compressed empty input is not the 11 bytes with
    the block size byte 70: that byte is 40; and the bytes with 70 are
    refused by [lz4ultra_decompress], as an invalid header. *)
Lemma empty_input_frame_has_block_size_byte_40 :
  let r := lz4ultra_compress accepting_init accepting_shrink accepting_count
             (world_of [("empty", [])]) "empty" "empty.lz4" 0 in
  let claimed := [x04; x22; x4d; x18; x40; x70; xc0; x00; x00; x00; x00] in
  exit_status r = Some 0 /\
  file_after r "empty.lz4"
    = Some [x04; x22; x4d; x18; x40; x40; xc0; x00; x00; x00; x00] /\
  file_after r "empty.lz4" <> Some claimed /\
  let d := lz4ultra_decompress expand_block_model
             (world_of [("claimed.lz4", claimed)]) "claimed.lz4" "out" 0 in
  exit_status d = Some 100 /\ printed d = Some [DiagBadHeader].
Proof.
  repeat split; try (vm_compute; congruence).
Qed.

Lemma empty_input_frame_witness :
  let w := world_of [("empty", [])] in
  lz4ultra_compress accepting_init accepting_shrink accepting_count
    w "empty" "empty.lz4" 0
  = Some (0, fclose_wb w "empty.lz4"
               [x04; x22; x4d; x18; x40; x40; xc0; x00; x00; x00; x00], []).
Proof.
  exact (proj1 (empty_input_frame unit accepting_init accepting_shrink
                  accepting_count expand_block_model
                  (world_of [("empty", [])]) "empty" "empty.lz4" 0
                  eq_refl eq_refl eq_refl eq_refl eq_refl)).
Defined.

(** C4, counterexample.  A compressible input of 65536 bytes is accepted in
    raw mode. *)
Lemma raw_mode_accepts_65536_bytes :
  let r := lz4ultra_compress accepting_init accepting_shrink accepting_count
             (world_of [("in.bin", zeros_64k)]) "in.bin" "out.lz4" OPT_RAW in
  Z.of_nat (length zeros_64k) = 65536 /\
  exit_status r = Some 0 /\ printed r = Some [].
Proof.
  repeat split; vm_compute; reflexivity.
Qed.

(** C9, counterexample.  The decoded block [A C] and the original [A B]
    differ first at offset 1; the diagnostic of [lz4ultra_compare] carries 0,
    the offset at which the block starts.  In the revision that compares
    through [comparestream_write], the difference only shows as the result 0
    of the write: no offset is reported. *)
Lemma compare_reports_block_start :
  let w := world_of [("stored.lz4", stored_AC); ("orig.bin", [x41; x42])] in
  [x41; x43] !! 0%nat = [x41; x42] !! 0%nat /\
  [x41; x43] !! 1%nat <> [x41; x42] !! 1%nat /\
  lz4ultra_compare expand_block_model w "stored.lz4" "orig.bin" 0
    = Some (100, w, [DiagCompareError 0]) /\
  comparestream_write (RFile [x41; x42] false) [x41; x43]
    = (0, RFile [] false).
Proof.
  repeat split; try (vm_compute; congruence).
Qed.

(** [lz4ultra_decompress] and [lz4ultra_compare] never run out of fuel. *)
Lemma lz4ultra_decompress_total expand w fin fout options :
  is_Some (lz4ultra_decompress expand w fin fout options).
Proof.
  unfold lz4ultra_decompress.
  destruct (fopen_rb w fin) as [pInFile |]; [| eexists; reflexivity].
  destruct (open_compressed options pInFile) as [d | [f nFileSize]];
    [eexists; reflexivity |].
  destruct (negb (fopen_wb w fout)); [eexists; reflexivity |].
  match goal with
  | |- context [decompress_loop expand ?fuel options ?st] =>
      destruct (decompress_loop_total expand fuel options st) as [st' Hloop]
  end.
  - unfold rounds_left_out. cbn [d_in d_filesize].
    destruct (nFileSize =? 0); lia.
  - rewrite Hloop. destruct (negb (d_error st' =? 0)); eexists; reflexivity.
Qed.

Lemma lz4ultra_compare_total expand w fin fout options :
  is_Some (lz4ultra_compare expand w fin fout options).
Proof.
  unfold lz4ultra_compare.
  destruct (fopen_rb w fin) as [pInFile |]; [| eexists; reflexivity].
  destruct (open_compressed options pInFile) as [d | [f nFileSize]];
    [eexists; reflexivity |].
  destruct (fopen_rb w fout) as [pOutFile |]; [| eexists; reflexivity].
  match goal with
  | |- context [compare_loop expand ?fuel options ?st] =>
      destruct (compare_loop_total expand fuel options st) as [st' Hloop]
  end.
  - unfold rounds_left_out. cbn [v_in v_filesize].
    destruct (nFileSize =? 0); lia.
  - rewrite Hloop. destruct (compare_report st') as [nResult d].
    eexists. reflexivity.
Qed.

(** * Further properties *)

(** ** What a copy leaves alone *)

Lemma frame_refl lo hi o : frame lo hi o o.
Proof. split; [reflexivity | intros; reflexivity]. Qed.

Lemma frame_trans lo hi o1 o2 o3 :
  frame lo hi o1 o2 -> frame lo hi o2 o3 -> frame lo hi o1 o3.
Proof.
  intros [Hl1 H1] [Hl2 H2]. split; [congruence |].
  intros i Hi. rewrite H2 by exact Hi. apply H1. exact Hi.
Qed.

Lemma frame_widen lo hi lo' hi' o o' :
  frame lo hi o o' -> lo' <= lo -> hi <= hi' -> frame lo' hi' o o'.
Proof.
  intros [Hl H] Hlo Hhi. split; [exact Hl |].
  intros i Hi. apply H. lia.
Qed.

Lemma lookup_store_above bs : forall buf p (i : nat),
  0 <= p -> p + Z.of_nat (length bs) <= Z.of_nat i ->
  store buf p bs !! i = buf !! i.
Proof.
  induction bs as [| b bs IH]; intros buf p i Hp Hi; simpl; [reflexivity |].
  simpl in Hi. rewrite IH by lia. apply lookup_poke_ne. lia.
Qed.

Lemma frame_store buf p bs :
  0 <= p -> frame p (p + Z.of_nat (length bs)) buf (store buf p bs).
Proof.
  intros Hp. split; [apply length_store |].
  intros i [Hi | Hi].
  - apply lookup_store_below; assumption.
  - apply lookup_store_above; assumption.
Qed.

Lemma lookup_copy_bytes_above n : forall buf src dst (i : nat),
  0 <= dst -> dst + Z.of_nat n <= Z.of_nat i ->
  copy_bytes n buf src dst !! i = buf !! i.
Proof.
  induction n as [| n IH]; intros buf src dst i Hd Hi; simpl; [reflexivity |].
  rewrite IH by lia. apply lookup_poke_ne. lia.
Qed.

Lemma frame_copy_bytes n buf src dst :
  0 <= dst -> frame dst (dst + Z.of_nat n) buf (copy_bytes n buf src dst).
Proof.
  intros Hd. split; [apply length_copy_bytes |].
  intros i [Hi | Hi].
  - apply lookup_copy_bytes_below; assumption.
  - apply lookup_copy_bytes_above; assumption.
Qed.

(** Inside the buffer, [store] writes its bytes where [blit] puts them. *)
Lemma lookup_store_in bs : forall buf p (k : nat),
  0 <= p -> (k < length bs)%nat ->
  p + Z.of_nat (length bs) <= Z.of_nat (length buf) ->
  store buf p bs !! (Z.to_nat p + k)%nat = bs !! k.
Proof.
  induction bs as [| b bs IH]; intros buf p k Hp Hk Hin; simpl in *; [lia |].
  destruct k as [| k].
  - rewrite lookup_store_below by lia.
    replace (Z.to_nat p + 0)%nat with (Z.to_nat p) by lia.
    unfold poke. apply list_lookup_insert_eq. lia.
  - replace (Z.to_nat p + S k)%nat with (Z.to_nat (p + 1) + k)%nat by lia.
    rewrite IH; [reflexivity | lia | lia | rewrite length_poke; lia].
Qed.

Lemma store_blit buf p bs :
  0 <= p -> p + Z.of_nat (length bs) <= Z.of_nat (length buf) ->
  store buf p bs = blit buf p bs.
Proof.
  intros Hp Hin. apply list_eq. intros i. unfold blit.
  destruct (decide (i < Z.to_nat p)%nat) as [Hlo | Hlo].
  - rewrite lookup_store_below by lia.
    rewrite lookup_app_l by (rewrite length_take; lia).
    rewrite lookup_take_lt by lia. reflexivity.
  - rewrite lookup_app_r by (rewrite length_take; lia).
    rewrite length_take.
    replace (Z.to_nat p `min` length buf)%nat with (Z.to_nat p) by lia.
    destruct (decide (i - Z.to_nat p < length bs)%nat) as [Hmid | Hhi].
    + rewrite lookup_app_l by lia.
      replace i with (Z.to_nat p + (i - Z.to_nat p))%nat at 1 by lia.
      apply lookup_store_in; lia.
    + rewrite lookup_app_r by lia. rewrite lookup_drop.
      rewrite lookup_store_above by lia. f_equal. lia.
Qed.

Lemma length_blit buf p bs :
  0 <= p -> p + Z.of_nat (length bs) <= Z.of_nat (length buf) ->
  length (blit buf p bs) = length buf.
Proof.
  intros Hp Hin. unfold blit.
  rewrite !length_app, length_take, length_drop. lia.
Qed.

Lemma slice_blit buf p bs :
  0 <= p -> p <= Z.of_nat (length buf) ->
  slice (blit buf p bs) p (Z.of_nat (length bs)) = bs.
Proof.
  intros Hp Hin. unfold slice, blit.
  rewrite drop_app_length'
    by (rewrite length_take; lia).
  rewrite take_app_length' by lia. reflexivity.
Qed.

(** A copy from [src] below [dst]: every byte written is the byte that lies
    [dst - src] positions before it in the result. *)
Lemma copy_bytes_periodic n : forall buf src dst (k : nat),
  0 <= src -> src < dst ->
  dst + Z.of_nat n <= Z.of_nat (length buf) -> (k < n)%nat ->
  copy_bytes n buf src dst !! (Z.to_nat dst + k)%nat =
  copy_bytes n buf src dst !! (Z.to_nat src + k)%nat.
Proof.
  induction n as [| n IH]; intros buf src dst k Hs Hd Hin Hk; [lia |].
  cbn [copy_bytes]. destruct k as [| k].
  - rewrite !lookup_copy_bytes_below by lia.
    replace (Z.to_nat dst + 0)%nat with (Z.to_nat dst) by lia.
    replace (Z.to_nat src + 0)%nat with (Z.to_nat src) by lia.
    rewrite (lookup_poke_ne _ _ _ (Z.to_nat src)) by lia. unfold poke, peek.
    rewrite list_lookup_insert_eq by lia.
    destruct (buf !! Z.to_nat src) as [v |] eqn:Hv; [reflexivity |].
    apply lookup_ge_None in Hv. lia.
  - replace (Z.to_nat dst + S k)%nat with (Z.to_nat (dst + 1) + k)%nat by lia.
    replace (Z.to_nat src + S k)%nat with (Z.to_nat (src + 1) + k)%nat by lia.
    apply IH; [lia | lia | rewrite length_poke; lia | lia].
Qed.

(** The chunked loop, with the number of bytes it writes bounded. *)
Lemma copy_chunks16_bounded fuel : forall src dst dend,
  0 <= src -> src + 8 <= dst -> (0 < fuel)%nat ->
  dend - dst <= 16 * Z.of_nat fuel ->
  exists N : nat,
    dend - dst <= Z.of_nat N /\ Z.of_nat N <= Z.max 16 (dend - dst + 15) /\
    forall buf, copy_chunks16 fuel buf src dst dend = copy_bytes N buf src dst.
Proof.
  induction fuel as [| fuel IH]; intros src dst dend Hs Hd Hf Hlen; [lia |].
  cbn [copy_chunks16].
  destruct (dst + 16 <? dend) eqn:Hmore.
  - apply Z.ltb_lt in Hmore.
    destruct (IH (src + 16) (dst + 16) dend) as (N & HN & HN' & Heq);
      [lia .. |].
    exists (16 + N)%nat. repeat apply conj; [lia | lia |].
    intros buf. rewrite chunk16_copy_bytes by lia. rewrite Heq.
    rewrite copy_bytes_add. reflexivity.
  - apply Z.ltb_ge in Hmore. exists 16%nat. repeat apply conj; [lia | lia |].
    intros buf. apply chunk16_copy_bytes; lia.
Qed.

(** A match, whichever way it is copied, is a byte-by-byte copy of at least
    its length that ends inside the output buffer. *)
Lemma match_slow_copy inp0 pSrc m o cur0 pOutDataEnd pOutDataFastEnd i b c :
  lz4ultra_expand_match_slow inp0 pSrc m o cur0 pOutDataEnd pOutDataFastEnd
    = Some (i, b, c) ->
  0 <= pSrc -> pOutDataFastEnd + 16 <= pOutDataEnd ->
  exists N : nat,
    b = copy_bytes N o pSrc cur0 /\
    cur0 <= c <= pOutDataEnd /\ c - cur0 <= Z.of_nat N /\
    cur0 + Z.of_nat N <= pOutDataEnd.
Proof.
  unfold lz4ultra_expand_match_slow. intros H Hs Hfe.
  destruct (if m =? MATCH_RUN_LEN then read_run inp0 m else (inp0, m))
    as [inp1 n1].
  pose proof (uint32_nonneg (n1 + MIN_MATCH_SIZE)) as Hl.
  set (len := uint32 (n1 + MIN_MATCH_SIZE)) in *.
  destruct (cur0 + len <=? pOutDataEnd) eqn:Hroom; [| discriminate].
  apply Z.leb_le in Hroom.
  destruct ((8 <=? cur0 - pSrc) && (cur0 + len <=? pOutDataFastEnd)) eqn:Hfast.
  - apply andb_true_iff in Hfast as [Hdist Hin].
    apply Z.leb_le in Hdist, Hin.
    destruct (copy_chunks16_bounded (S (Z.to_nat len)) pSrc cur0 (cur0 + len))
      as (N & HN & HN' & Heq); [lia .. |].
    injection H as <- <- <-. exists N.
    repeat apply conj; [apply Heq | lia ..].
  - injection H as <- <- <-. exists (Z.to_nat len).
    rewrite copy_match_bytewise_copy_bytes by exact Hl.
    repeat apply conj; try reflexivity; lia.
Qed.

Lemma read_run_suffix inp0 : forall n inp1 n1,
  read_run inp0 n = (inp1, n1) -> exists ext, inp0 = ext ++ inp1.
Proof.
  induction inp0 as [| b inp0 IH]; intros n inp1 n1 H; simpl in H.
  - injection H as <- <-. exists []. reflexivity.
  - destruct (byte_val b =? 255).
    + apply IH in H as [ext ->]. exists (b :: ext). reflexivity.
    + injection H as <- <-. exists [b]. reflexivity.
Qed.

(** ** The two helpers of expand.c *)

(** X1.  A literal run that is accepted copies the bytes that follow its
    length bytes to the output position, in order, advances the input and
    the output by their number, and changes nothing else in the buffer. *)
Theorem literals_are_copied_verbatim
    (inp0 : list byte) (n : Z) (o : list byte) (cur0 pOutDataEnd : Z)
    (i b : list byte) (c : Z) :
  lz4ultra_expand_literals_slow inp0 n o cur0 pOutDataEnd = Some (i, b, c) ->
  0 <= n -> 0 <= cur0 <= pOutDataEnd ->
  pOutDataEnd <= Z.of_nat (length o) ->
  exists ext lits,
    inp0 = ext ++ lits ++ i /\
    (n <> LITERALS_RUN_LEN -> ext = [] /\ Z.of_nat (length lits) = n) /\
    c = cur0 + Z.of_nat (length lits) /\ c <= pOutDataEnd /\
    b = take (Z.to_nat cur0) o ++ lits ++ drop (Z.to_nat c) o.
Proof.
  unfold lz4ultra_expand_literals_slow. intros H Hn Hc Hlen.
  destruct (if n =? LITERALS_RUN_LEN then read_run inp0 n else (inp0, n))
    as [inp1 n1] eqn:Hrun.
  assert (Hext : exists ext, inp0 = ext ++ inp1 /\
                 (n <> LITERALS_RUN_LEN -> ext = [] /\ n1 = n)).
  { destruct (n =? LITERALS_RUN_LEN) eqn:Hn15.
    - apply Z.eqb_eq in Hn15. apply read_run_suffix in Hrun as [ext ->].
      exists ext. split; [reflexivity | intros Hne; contradiction].
    - injection Hrun as <- <-. exists []. split; [reflexivity | auto]. }
  assert (Hn1 : 0 <= n1).
  { destruct (n =? LITERALS_RUN_LEN).
    - eapply read_run_nonneg; eassumption.
    - injection Hrun as <- <-. exact Hn. }
  destruct Hext as (ext & -> & Hshort).
  destruct (n1 =? 0) eqn:Hzero.
  - apply Z.eqb_eq in Hzero. injection H as <- <- <-.
    exists ext, []. cbn [length app].
    repeat apply conj; try reflexivity; try lia.
    + intros Hne. destruct (Hshort Hne) as [-> ->]. auto.
    + replace (Z.to_nat (cur0 + Z.of_nat 0)) with (Z.to_nat cur0) by lia.
      symmetry. apply take_drop.
  - destruct ((n1 <=? Z.of_nat (length inp1)) && (cur0 + n1 <=? pOutDataEnd))
      eqn:Hok; [| discriminate].
    apply andb_true_iff in Hok as [Hin Hroom].
    apply Z.leb_le in Hin, Hroom. injection H as <- <- <-.
    exists ext, (take (Z.to_nat n1) inp1).
    assert (Hl : Z.of_nat (length (take (Z.to_nat n1) inp1)) = n1)
      by (rewrite length_take; lia).
    rewrite Hl. repeat apply conj; try reflexivity; try lia.
    + rewrite take_drop. reflexivity.
    + intros Hne. destruct (Hshort Hne) as [-> ->]. auto.
    + rewrite store_blit by lia. unfold blit. do 2 f_equal. f_equal. lia.
Qed.

Lemma literals_are_copied_verbatim_witness :
  exists ext lits,
    [x61; x62; x63] = ext ++ lits ++ [x63] /\
    ((2 : Z) <> LITERALS_RUN_LEN -> ext = [] /\ Z.of_nat (length lits) = 2) /\
    (3 : Z) = 1 + Z.of_nat (length lits) /\ 3 <= 8 /\
    [x00; x61; x62; x00; x00; x00; x00; x00] =
      take (Z.to_nat 1) (zeros 8) ++ lits ++ drop (Z.to_nat 3) (zeros 8).
Proof.
  apply (literals_are_copied_verbatim [x61; x62; x63] 2 (zeros 8) 1 8
           [x63] [x00; x61; x62; x00; x00; x00; x00; x00] 3 eq_refl);
    simpl; lia.
Defined.

(** X2.  A match that is accepted leaves the bytes below the output position
    as they were, and makes every byte of the match equal to the byte
    [pCurOutData - pSrc] positions before it: it repeats its source, also
    when the source overlaps the match. *)
Theorem match_repeats_its_source
    (inp0 : list byte) (pSrc m : Z) (o : list byte)
    (cur0 pOutDataEnd pOutDataFastEnd : Z) (i b : list byte) (c : Z) :
  lz4ultra_expand_match_slow inp0 pSrc m o cur0 pOutDataEnd pOutDataFastEnd
    = Some (i, b, c) ->
  0 <= pSrc < cur0 ->
  pOutDataFastEnd + 16 <= pOutDataEnd ->
  pOutDataEnd <= Z.of_nat (length o) ->
  cur0 <= c <= pOutDataEnd /\ length b = length o /\
  (forall j : nat, Z.of_nat j < cur0 -> b !! j = o !! j) /\
  (forall j : nat, cur0 <= Z.of_nat j < c ->
     b !! j = b !! (j - Z.to_nat (cur0 - pSrc))%nat).
Proof.
  intros H Hs Hfe Hlen.
  apply match_slow_copy in H as (N & -> & Hc & HN & Hend); [| lia | exact Hfe].
  repeat apply conj; try lia.
  - apply length_copy_bytes.
  - intros j Hj. apply lookup_copy_bytes_below; lia.
  - intros j Hj.
    replace j with (Z.to_nat cur0 + (j - Z.to_nat cur0))%nat at 1 by lia.
    replace (j - Z.to_nat (cur0 - pSrc))%nat
      with (Z.to_nat pSrc + (j - Z.to_nat cur0))%nat by lia.
    apply copy_bytes_periodic; lia.
Qed.

Lemma match_repeats_its_source_witness :
  1 <= 20 <= 64 /\
  length (replicate 20 x41 ++ zeros 44) = length (x41 :: zeros 63) /\
  (forall j : nat, Z.of_nat j < 1 ->
     (replicate 20 x41 ++ zeros 44) !! j = (x41 :: zeros 63) !! j) /\
  (forall j : nat, 1 <= Z.of_nat j < 20 ->
     (replicate 20 x41 ++ zeros 44) !! j
     = (replicate 20 x41 ++ zeros 44) !! (j - Z.to_nat (1 - 0))%nat).
Proof.
  apply (match_repeats_its_source [] 0 MATCH_RUN_LEN (x41 :: zeros 63) 1 64 44
           [] (replicate 20 x41 ++ zeros 44) 20).
  - vm_compute. reflexivity.
  - lia.
  - lia.
  - simpl. lia.
Defined.

(** ** The window of the output buffer that a block may write *)

Lemma literals_slow_within inp0 n o cur0 pOutDataEnd i b c :
  lz4ultra_expand_literals_slow inp0 n o cur0 pOutDataEnd = Some (i, b, c) ->
  0 <= n -> 0 <= cur0 <= pOutDataEnd ->
  cur0 <= c <= pOutDataEnd /\ frame cur0 pOutDataEnd o b.
Proof.
  unfold lz4ultra_expand_literals_slow. intros H Hn Hc.
  destruct (if n =? LITERALS_RUN_LEN then read_run inp0 n else (inp0, n))
    as [inp1 n1] eqn:Hrun.
  assert (Hn1 : 0 <= n1).
  { destruct (n =? LITERALS_RUN_LEN).
    - eapply read_run_nonneg; eassumption.
    - injection Hrun as <- <-. exact Hn. }
  destruct (n1 =? 0).
  - injection H as <- <- <-. split; [lia | apply frame_refl].
  - destruct ((n1 <=? Z.of_nat (length inp1)) && (cur0 + n1 <=? pOutDataEnd))
      eqn:Hok; [| discriminate].
    apply andb_true_iff in Hok as [Hin Hroom].
    apply Z.leb_le in Hin, Hroom. injection H as <- <- <-.
    split; [lia |].
    eapply frame_widen; [apply frame_store; lia | lia |].
    rewrite length_take. lia.
Qed.

Lemma match_slow_within inp0 pSrc m o cur0 pOutDataEnd pOutDataFastEnd i b c :
  lz4ultra_expand_match_slow inp0 pSrc m o cur0 pOutDataEnd pOutDataFastEnd
    = Some (i, b, c) ->
  0 <= pSrc -> 0 <= cur0 -> pOutDataFastEnd + 16 <= pOutDataEnd ->
  cur0 <= c <= pOutDataEnd /\ frame cur0 pOutDataEnd o b.
Proof.
  intros H Hs Hc Hfe.
  apply match_slow_copy in H as (N & -> & Hc' & HN & Hend);
    [| exact Hs | exact Hfe].
  split; [exact Hc' |].
  eapply frame_widen; [apply frame_copy_bytes; exact Hc | lia | lia].
Qed.

Lemma within_step lo hi o o1 o2 c1 c2 i1 i2 s1 s2 :
  within lo hi o (DecState i1 o1 c1 s1) ->
  c1 <= c2 <= hi -> frame c1 hi o1 o2 ->
  within lo hi o (DecState i2 o2 c2 s2).
Proof.
  unfold within. cbn [cur out]. intros [Hc Hf] Hc2 Hf2.
  split; [lia |].
  eapply frame_trans; [exact Hf |].
  eapply frame_widen; [exact Hf2 | lia | lia].
Qed.

Lemma within_same lo hi o st i s :
  within lo hi o st -> within lo hi o (DecState i (out st) (cur st) s).
Proof. intros H. exact H. Qed.

Lemma slow_match_within token pOutDataEnd pOutDataFastEnd lo o st :
  0 <= lo -> pOutDataFastEnd + 16 <= pOutDataEnd ->
  within lo pOutDataEnd o st ->
  within lo pOutDataEnd o
    (result_state (slow_match token pOutDataEnd pOutDataFastEnd st)).
Proof.
  intros Hlo Hfe Hw. unfold slow_match.
  destruct (inp st) as [| b0 [| b1 inp2]]; [exact Hw | exact Hw |].
  cbv zeta.
  destruct (0 <=? cur st - match_offset b0 b1) eqn:Hsrc;
    [| apply within_same; exact Hw].
  apply Z.leb_le in Hsrc.
  destruct (lz4ultra_expand_match_slow inp2 (cur st - match_offset b0 b1)
              (match_nibble token) (out st) (cur st) pOutDataEnd
              pOutDataFastEnd) as [[[inp3 out3] cur3] |] eqn:Hm;
    [| apply within_same; exact Hw].
  pose proof Hw as [Hc _].
  apply match_slow_within in Hm as [Hc3 Hf3]; [| lia | lia | exact Hfe].
  cbn [result_state]. destruct st as [i0 o0 c0 s0]. cbn [cur out seen] in *.
  eapply within_step; [exact Hw | exact Hc3 | exact Hf3].
Qed.

Lemma slow_token_within pOutDataEnd pOutDataFastEnd lo o st :
  0 <= lo -> pOutDataFastEnd + 16 <= pOutDataEnd ->
  within lo pOutDataEnd o st ->
  within lo pOutDataEnd o
    (result_state (slow_token pOutDataEnd pOutDataFastEnd st)).
Proof.
  intros Hlo Hfe Hw. unfold slow_token.
  destruct (inp st) as [| token inp0]; [exact Hw |].
  destruct (lz4ultra_expand_literals_slow inp0 (literals_nibble token)
              (out st) (cur st) pOutDataEnd) as [[[inp1 out1] cur1] |] eqn:Hl;
    [| apply within_same; exact Hw].
  pose proof Hw as [Hc _].
  apply literals_slow_within in Hl as [Hc1 Hf1];
    [| apply literals_nibble_range | lia].
  apply slow_match_within; [exact Hlo | exact Hfe |].
  destruct st as [i0 o0 c0 s0]. cbn [cur out seen] in *.
  eapply within_step; [exact Hw | exact Hc1 | exact Hf1].
Qed.

Lemma fast_match_within token pOutDataEnd lo o st :
  0 <= lo ->
  within lo pOutDataEnd o st ->
  within lo pOutDataEnd o
    (result_state (fast_match token pOutDataEnd (pOutDataEnd - 20) st)).
Proof.
  intros Hlo Hw. unfold fast_match.
  destruct (inp st) as [| b0 [| b1 inp2]]; [exact Hw | exact Hw |].
  cbv zeta.
  destruct (0 <=? cur st - match_offset b0 b1) eqn:Hsrc;
    [| apply within_same; exact Hw].
  apply Z.leb_le in Hsrc. pose proof Hw as [Hc _].
  destruct ((match_nibble token <? MATCH_RUN_LEN) && (8 <=? match_offset b0 b1)
            && (cur st <? pOutDataEnd - 20)) eqn:Hfast.
  - apply andb_true_iff in Hfast as [Hfast Hroom].
    apply andb_true_iff in Hfast as [Hshort Hdist].
    apply Z.ltb_lt in Hshort, Hroom. apply Z.leb_le in Hdist.
    rewrite fast_copy_bytes by lia. cbn [result_state].
    pose proof (match_nibble_range token) as Hm.
    unfold MATCH_RUN_LEN, MIN_MATCH_SIZE in *.
    destruct st as [i0 o0 c0 s0]. cbn [cur out seen] in *.
    eapply within_step; [exact Hw | lia |].
    eapply frame_widen; [apply frame_copy_bytes; lia | lia | lia].
  - destruct (lz4ultra_expand_match_slow inp2 (cur st - match_offset b0 b1)
                (match_nibble token) (out st) (cur st) pOutDataEnd
                (pOutDataEnd - 20)) as [[[inp3 out3] cur3] |] eqn:Hm;
      [| apply within_same; exact Hw].
    apply match_slow_within in Hm as [Hc3 Hf3]; [| lia | lia | lia].
    cbn [result_state]. destruct st as [i0 o0 c0 s0]. cbn [cur out seen] in *.
    eapply within_step; [exact Hw | exact Hc3 | exact Hf3].
Qed.

Lemma fast_token_within pOutDataEnd lo o st :
  0 <= lo -> cur st < pOutDataEnd - 20 ->
  within lo pOutDataEnd o st ->
  within lo pOutDataEnd o
    (result_state (fast_token pOutDataEnd (pOutDataEnd - 20) st)).
Proof.
  intros Hlo Hroom Hw. unfold fast_token.
  destruct (inp st) as [| token inp0]; [exact Hw |].
  cbv zeta. pose proof Hw as [Hc _].
  pose proof (literals_nibble_range token) as Hn.
  destruct (literals_nibble token <? LITERALS_RUN_LEN) eqn:Hshort.
  - apply fast_match_within; [exact Hlo |].
    destruct st as [i0 o0 c0 s0]. cbn [cur out seen] in *.
    eapply within_step; [exact Hw | unfold LITERALS_RUN_LEN in *; lia |].
    eapply frame_widen; [apply frame_store; lia | lia |].
    rewrite length_take. lia.
  - destruct (lz4ultra_expand_literals_slow inp0 (literals_nibble token)
                (out st) (cur st) pOutDataEnd) as [[[inp1 out1] cur1] |] eqn:Hl;
      [| apply within_same; exact Hw].
    apply literals_slow_within in Hl as [Hc1 Hf1]; [| lia | lia].
    apply fast_match_within; [exact Hlo |].
    destruct st as [i0 o0 c0 s0]. cbn [cur out seen] in *.
    eapply within_step; [exact Hw | exact Hc1 | exact Hf1].
Qed.

Lemma fast_loop_within pOutDataEnd lo o fuel : forall st r,
  0 <= lo ->
  fast_loop fuel pOutDataEnd (pOutDataEnd - 20) st = Some r ->
  within lo pOutDataEnd o st ->
  within lo pOutDataEnd o (result_state r).
Proof.
  induction fuel as [| fuel IH]; intros st r Hlo H Hw; [discriminate |].
  cbn [fast_loop] in H.
  destruct ((16 <? Z.of_nat (length (inp st))) && (cur st <? pOutDataEnd - 20))
    eqn:Hcond.
  - apply andb_true_iff in Hcond as [_ Hroom]. apply Z.ltb_lt in Hroom.
    pose proof (fast_token_within pOutDataEnd lo o st Hlo Hroom Hw) as Hw'.
    destruct (fast_token pOutDataEnd (pOutDataEnd - 20) st) as [st' | st'].
    + injection H as <-. exact Hw'.
    + eapply IH; [exact Hlo | exact H | exact Hw'].
  - injection H as <-. exact Hw.
Qed.

Lemma slow_loop_within pOutDataEnd pOutDataFastEnd lo o fuel : forall st r,
  0 <= lo -> pOutDataFastEnd + 16 <= pOutDataEnd ->
  slow_loop fuel pOutDataEnd pOutDataFastEnd st = Some r ->
  within lo pOutDataEnd o st ->
  within lo pOutDataEnd o (result_state r).
Proof.
  induction fuel as [| fuel IH]; intros st r Hlo Hfe H Hw; [discriminate |].
  cbn [slow_loop] in H.
  destruct (0 <? Z.of_nat (length (inp st))).
  - pose proof (slow_token_within pOutDataEnd pOutDataFastEnd lo o st
                  Hlo Hfe Hw) as Hw'.
    destruct (slow_token pOutDataEnd pOutDataFastEnd st) as [st' | st'].
    + injection H as <-. exact Hw'.
    + eapply IH; [exact Hlo | exact Hfe | exact H | exact Hw'].
  - injection H as <-. exact Hw.
Qed.

(** The slow loop stops without an error only at the end of the block. *)
Lemma slow_loop_consumes pOutDataEnd pOutDataFastEnd fuel : forall st st',
  slow_loop fuel pOutDataEnd pOutDataFastEnd st = Some (Next st') ->
  inp st' = [].
Proof.
  induction fuel as [| fuel IH]; intros st st' H; [discriminate |].
  cbn [slow_loop] in H.
  destruct (0 <? Z.of_nat (length (inp st))) eqn:Hmore.
  - destruct (slow_token pOutDataEnd pOutDataFastEnd st) as [st1 | st1];
      [discriminate |].
    eapply IH. exact H.
  - injection H as <-. apply Z.ltb_ge in Hmore.
    apply nil_length_inv. lia.
Qed.

Lemma both_loops_within pOutDataEnd lo o fuel st r :
  0 <= lo ->
  both_loops fuel pOutDataEnd (pOutDataEnd - 20) st = Some r ->
  within lo pOutDataEnd o st ->
  within lo pOutDataEnd o (result_state r) /\
  (forall st', r = Next st' -> inp st' = []).
Proof.
  unfold both_loops. intros Hlo H Hw.
  destruct (fast_loop fuel pOutDataEnd (pOutDataEnd - 20) st) as [[st1 | st1] |]
    eqn:Hfast; [| | discriminate].
  - injection H as <-. split; [| intros st' Hr; discriminate].
    eapply fast_loop_within in Hfast; [exact Hfast | exact Hlo | exact Hw].
  - eapply fast_loop_within in Hfast; [| exact Hlo | exact Hw].
    split.
    + eapply slow_loop_within; [exact Hlo | | exact H | exact Hfast]. lia.
    + intros st' ->. eapply slow_loop_consumes. exact H.
Qed.

(** X3.  The block decoder always returns, and whatever the block holds it
    keeps to its window of the output buffer: the buffer keeps its size,
    every byte before [nOutDataOffset] and from
    [nOutDataOffset + nBlockMaxSize] on is left as it was, and the value
    returned is -1 or a size between 0 and [nBlockMaxSize], in which case the
    whole block was read. *)
Theorem decoder_keeps_to_its_window
    (pInBlock pOutData : list byte) (nOutDataOffset nBlockMaxSize : Z) :
  0 <= nOutDataOffset -> 0 <= nBlockMaxSize ->
  exists r,
    lz4ultra_decompressor_expand_block_lz4 pInBlock pOutData
      nOutDataOffset nBlockMaxSize = Some r /\
    (r.1 = -1 \/ (0 <= r.1 <= nBlockMaxSize /\ inp r.2 = [])) /\
    length (out r.2) = length pOutData /\
    forall i : nat,
      Z.of_nat i < nOutDataOffset \/
      nOutDataOffset + nBlockMaxSize <= Z.of_nat i ->
      out r.2 !! i = pOutData !! i.
Proof.
  intros Hoff Hmax.
  destruct (expand_block_total pInBlock pOutData nOutDataOffset nBlockMaxSize
              Hoff) as [r Hr].
  exists r. split; [exact Hr |].
  unfold lz4ultra_decompressor_expand_block_lz4 in Hr.
  destruct (both_loops (S (length pInBlock)) (nOutDataOffset + nBlockMaxSize)
              (nOutDataOffset + nBlockMaxSize - 20)
              (DecState pInBlock pOutData nOutDataOffset [])) as [t |] eqn:Hb;
    [| discriminate].
  injection Hr as <-.
  apply (both_loops_within _ nOutDataOffset pOutData) in Hb
    as [[Hc [Hlen Hout]] Hdone]; [| exact Hoff |].
  - destruct t as [st | st]; cbn [finish result_state fst snd] in *.
    + repeat apply conj; [left; reflexivity | exact Hlen | exact Hout].
    + repeat apply conj; [right | exact Hlen | exact Hout].
      split; [lia | apply Hdone; reflexivity].
  - split; [cbn [cur]; lia | apply frame_refl].
Qed.

Lemma decoder_keeps_to_its_window_witness :
  exists r,
    lz4ultra_decompressor_expand_block_lz4 [x10; x61; x01; x00; x0f] (zeros 64)
      8 32 = Some r /\
    (r.1 = -1 \/ (0 <= r.1 <= 32 /\ inp r.2 = [])) /\
    length (out r.2) = length (zeros 64) /\
    forall i : nat,
      Z.of_nat i < 8 \/ 8 + 32 <= Z.of_nat i ->
      out r.2 !! i = zeros 64 !! i.
Proof.
  apply (decoder_keeps_to_its_window [x10; x61; x01; x00; x0f] (zeros 64) 8 32);
    lia.
Defined.

(** ** What was in the output buffer before *)

Lemma agree_sym n o1 o2 : agree n o1 o2 -> agree n o2 o1.
Proof.
  intros [Hlen Hag]. split; [congruence |].
  intros i Hi. symmetry. apply Hag. exact Hi.
Qed.

Lemma agree_trans n o1 o2 o3 : agree n o1 o2 -> agree n o2 o3 -> agree n o1 o3.
Proof.
  intros [Hl1 H1] [Hl2 H2]. split; [congruence |].
  intros i Hi. rewrite H1 by exact Hi. apply H2. exact Hi.
Qed.

Lemma same_decoding_sym s1 s2 : same_decoding s1 s2 -> same_decoding s2 s1.
Proof.
  intros (Hi & Hc & Hs & Hpos & Hlen & Hag).
  unfold same_decoding. rewrite <- Hi, <- Hc, <- Hs.
  repeat apply conj; try reflexivity; try congruence.
  intros Hnz. apply agree_sym. apply Hag. exact Hnz.
Qed.

Lemma same_decoding_trans s1 s2 s3 :
  same_decoding s1 s2 -> same_decoding s2 s3 -> same_decoding s1 s3.
Proof.
  intros (Hi & Hc & Hs & Hpos & Hlen & Hag) (Hi' & Hc' & Hs' & _ & Hlen' & Hag').
  unfold same_decoding.
  repeat apply conj; try congruence.
  intros Hnz. eapply agree_trans; [apply Hag; exact Hnz |].
  rewrite Hc. apply Hag'. rewrite <- Hs. exact Hnz.
Qed.

Lemma same_outcome_sym r1 r2 : same_outcome r1 r2 -> same_outcome r2 r1.
Proof.
  destruct r1 as [[s1 | s1] |], r2 as [[s2 | s2] |]; cbn; try contradiction.
  - congruence.
  - apply same_decoding_sym.
Qed.

Lemma same_outcome_trans r1 r2 r3 :
  same_outcome r1 r2 -> same_outcome r2 r3 -> same_outcome r1 r3.
Proof.
  destruct r1 as [[s1 | s1] |], r2 as [[s2 | s2] |], r3 as [[s3 | s3] |]; cbn;
    try contradiction.
  - congruence.
  - apply same_decoding_trans.
Qed.

(** X4.  What the output buffer holds from [nOutDataOffset] on before the
    call does not influence the decoder: on two buffers of the same size with
    the same bytes before [nOutDataOffset], it returns the same value and
    decodes the same match offsets, and, when it succeeds and no match has
    the offset 0, it produces the same bytes. *)
Theorem decoder_ignores_stale_output
    (pInBlock o1 o2 : list byte) (nOutDataOffset nBlockMaxSize : Z) :
  0 <= nOutDataOffset ->
  length o1 = length o2 ->
  (forall i : nat, Z.of_nat i < nOutDataOffset -> o1 !! i = o2 !! i) ->
  exists r1 r2,
    lz4ultra_decompressor_expand_block_lz4 pInBlock o1
      nOutDataOffset nBlockMaxSize = Some r1 /\
    lz4ultra_decompressor_expand_block_lz4 pInBlock o2
      nOutDataOffset nBlockMaxSize = Some r2 /\
    r1.1 = r2.1 /\
    seen r1.2 = seen r2.2 /\
    (0 <= r1.1 -> nonzero_offsets (seen r1.2) ->
     produced nOutDataOffset r1 = produced nOutDataOffset r2).
Proof.
  intros Hoff Hlen Hbelow.
  unfold lz4ultra_decompressor_expand_block_lz4, both_loops.
  set (s1 := DecState pInBlock o1 nOutDataOffset []).
  set (s2 := DecState pInBlock o2 nOutDataOffset []).
  assert (H12 : same_decoding s1 s2).
  { unfold same_decoding. cbn [inp cur seen out s1 s2].
    repeat apply conj; try reflexivity; try assumption.
    intros _. split; assumption. }
  pose proof (both_loops_rel (nOutDataOffset + nBlockMaxSize)
                (S (length pInBlock)) (S (length pInBlock))
                (S (length pInBlock)) s1 s2 H12) as Hrel1.
  pose proof (both_loops_rel (nOutDataOffset + nBlockMaxSize)
                (S (length pInBlock)) (S (length pInBlock))
                (S (length pInBlock)) s2 s2
                (same_decoding_refl s2 Hoff)) as Hrel2.
  cbn [inp s1 s2] in Hrel1, Hrel2.
  specialize (Hrel1 ltac:(lia) ltac:(lia) ltac:(lia)).
  specialize (Hrel2 ltac:(lia) ltac:(lia) ltac:(lia)).
  pose proof (same_outcome_trans _ _ _ Hrel1 (same_outcome_sym _ _ Hrel2))
    as Hrel.
  clear Hrel1 Hrel2.
  destruct (match fast_loop _ _ _ s1 with None => None | Some _ => _ end)
    as [r1 |]; [| destruct Hrel].
  destruct (match fast_loop _ _ _ s2 with None => None | Some _ => _ end)
    as [r2 |]; [| destruct Hrel].
  exists (finish nOutDataOffset r1), (finish nOutDataOffset r2).
  split; [reflexivity |]. split; [reflexivity |].
  destruct r1 as [t1 | t1], r2 as [t2 | t2]; cbn [same_outcome same_result] in Hrel;
    try contradiction; cbn [finish fst snd].
  - split; [reflexivity | split; [exact Hrel | intros; lia]].
  - destruct Hrel as (Hi & Hc & Ht & Hpos & Hlen' & Hag).
    repeat apply conj; [congruence | exact Ht |].
    intros Hret Hnz. unfold produced. cbn [fst snd]. rewrite <- Hc.
    apply (agree_take (cur t1)); [apply Hag; exact Hnz | exact Hoff | lia].
Qed.

Lemma decoder_ignores_stale_output_witness :
  exists r1 r2,
    lz4ultra_decompressor_expand_block_lz4 [x17; x61; x01; x00; x00]
      (zeros 64) 2 32 = Some r1 /\
    lz4ultra_decompressor_expand_block_lz4 [x17; x61; x01; x00; x00]
      (zeros 2 ++ replicate 62 xff) 2 32 = Some r2 /\
    r1.1 = r2.1 /\
    seen r1.2 = seen r2.2 /\
    (0 <= r1.1 -> nonzero_offsets (seen r1.2) ->
     produced 2 r1 = produced 2 r2).
Proof.
  apply (decoder_ignores_stale_output [x17; x61; x01; x00; x00]
           (zeros 64) (zeros 2 ++ replicate 62 xff) 2 32).
  - lia.
  - reflexivity.
  - intros i Hi.
    destruct i as [| [| i]]; [reflexivity | reflexivity | lia].
Defined.

(** ** The block header of the frame *)

Lemma byte_val_of_Z z : byte_val (byte_of_Z z) = z mod 256.
Proof.
  unfold byte_val, byte_of_Z.
  pose proof (Z.mod_pos_bound z 256 ltac:(lia)) as Hz.
  destruct (Byte.of_N (Z.to_N (z mod 256))) as [b |] eqn:Hb.
  - apply Byte.to_of_N in Hb. change (default x00 (Some b)) with b.
    rewrite Hb. lia.
  - apply Byte.of_N_None_iff in Hb. lia.
Qed.

Lemma lor_shiftl_add a b k :
  0 <= k -> 0 <= a < 2 ^ k -> Z.lor a (Z.shiftl b k) = a + b * 2 ^ k.
Proof.
  intros Hk Ha. rewrite Z.shiftl_mul_pow2 by exact Hk.
  rewrite <- Z.add_nocarry_lor; [reflexivity |].
  apply Z.bits_inj'. intros n Hn. rewrite Z.land_spec, Z.bits_0.
  destruct (Z.lt_ge_cases n k) as [Hlt | Hge].
  - rewrite Z.mul_pow2_bits_low by lia. apply andb_false_r.
  - replace (Z.testbit a n) with false; [reflexivity |].
    symmetry. destruct (Z.eq_dec a 0) as [-> | Hnz]; [apply Z.bits_0 |].
    apply Z.bits_above_log2; [lia |].
    apply Z.log2_lt_pow2; [lia |].
    apply Z.lt_le_trans with (2 ^ k); [lia |].
    apply Z.pow_le_mono_r; lia.
Qed.

Lemma land_pow2 v k :
  0 <= k -> Z.land v (2 ^ k) = if Z.testbit v k then 2 ^ k else 0.
Proof.
  intros Hk. apply Z.bits_inj'. intros n Hn.
  rewrite Z.land_spec, Z.pow2_bits_eqb by exact Hk.
  destruct (Z.testbit v k) eqn:Hv.
  - rewrite Z.pow2_bits_eqb by exact Hk.
    destruct (Z.eqb_spec k n) as [<- | Hne].
    + rewrite Hv. reflexivity.
    + apply andb_false_r.
  - rewrite Z.bits_0.
    destruct (Z.eqb_spec k n) as [<- | Hne].
    + rewrite Hv. reflexivity.
    + apply andb_false_r.
Qed.

(** The value that the decompressor reads back from a block header. *)
Lemma read_block_header n u :
  0 <= n < 2 ^ 31 ->
  read_block_size (block_header n u) = n + (if u then 2 ^ 31 else 0).
Proof.
  intros Hn. unfold block_header, read_block_size.
  rewrite !byte_val_of_Z.
  change 255 with (Z.ones 8). change 127 with (Z.ones 7).
  rewrite !Z.land_ones by lia. rewrite !Z.shiftr_div_pow2 by lia.
  assert (H3 : (n / 2 ^ 24) mod 2 ^ 7 = n / 2 ^ 24).
  { apply Z.mod_small. split; [apply Z.div_pos; lia |].
    apply Z.div_lt_upper_bound; lia. }
  rewrite H3.
  assert (Hb3 : Z.lor (n / 2 ^ 24) (if u then 128 else 0)
                = n / 2 ^ 24 + (if u then 128 else 0)).
  { destruct u; [| rewrite Z.lor_0_r; lia].
    change 128 with (Z.shiftl 1 7).
    rewrite lor_shiftl_add; [reflexivity | lia |].
    split; [apply Z.div_pos; lia | apply Z.div_lt_upper_bound; lia]. }
  rewrite Hb3.
  assert (Hq : 0 <= n / 2 ^ 24 < 128).
  { split; [apply Z.div_pos; lia | apply Z.div_lt_upper_bound; lia]. }
  pose proof (Z.mod_pos_bound (n mod 2 ^ 8) 256 ltac:(lia)) as B0.
  pose proof (Z.mod_pos_bound ((n / 2 ^ 8) mod 2 ^ 8) 256 ltac:(lia)) as B1.
  pose proof (Z.mod_pos_bound ((n / 2 ^ 16) mod 2 ^ 8) 256 ltac:(lia)) as B2.
  rewrite (lor_shiftl_add _ _ 8) by lia.
  rewrite (lor_shiftl_add _ _ 16) by lia.
  rewrite (lor_shiftl_add _ _ 24) by lia.
  change (2 ^ 8) with 256 in *. change (2 ^ 16) with 65536 in *.
  change (2 ^ 24) with 16777216 in *. change (2 ^ 31) with 2147483648 in *.
  rewrite (Z.mod_small (n mod 256) 256) by (apply Z.mod_pos_bound; lia).
  rewrite (Z.mod_small ((n / 256) mod 256) 256) by (apply Z.mod_pos_bound; lia).
  rewrite (Z.mod_small ((n / 65536) mod 256) 256)
    by (apply Z.mod_pos_bound; lia).
  assert (Hm : (n / 16777216 + (if u then 128 else 0)) mod 256
               = n / 16777216 + (if u then 128 else 0)).
  { apply Z.mod_small. destruct u; lia. }
  rewrite Hm.
  destruct u; Z.div_mod_to_equations; lia.
Qed.

(** What the decompressor makes of a block header. *)
Lemma block_header_fields (nSize : Z) (uncompressed : bool) :
  0 <= nSize < 2 ^ 31 ->
  let nBlockSize := read_block_size (block_header nSize uncompressed) in
  length (block_header nSize uncompressed) = 4%nat /\
  Z.land nBlockSize 2147483647 = nSize /\
  negb (Z.land nBlockSize 2147483648 =? 0) = uncompressed /\
  (nBlockSize = 0 <-> nSize = 0 /\ uncompressed = false).
Proof.
  intros Hn nBlockSize. subst nBlockSize.
  rewrite read_block_header by exact Hn.
  split; [reflexivity |].
  change 2147483647 with (Z.ones 31). change 2147483648 with (2 ^ 31).
  rewrite Z.land_ones by lia. rewrite land_pow2 by lia.
  rewrite Z.testbit_odd, Z.shiftr_div_pow2 by lia.
  destruct uncompressed.
  - replace ((nSize + 2 ^ 31) / 2 ^ 31) with 1
      by (apply Z.div_unique with nSize; lia).
    replace ((nSize + 2 ^ 31) mod 2 ^ 31) with nSize
      by (apply Z.mod_unique with 1; lia).
    cbn [Z.odd]. repeat apply conj; try reflexivity.
    + intros H. lia.
    + intros [_ H]. discriminate.
  - rewrite Z.add_0_r, Z.mod_small, Z.div_small by lia.
    cbn [Z.odd]. repeat apply conj; try reflexivity; tauto.
Qed.

(** X5.  The four bytes that [lz4ultra_compress] writes in front of a block
    of [nSize] bytes, below 2^31, give [nSize] and the mark of a stored block
    back to [lz4ultra_decompress]; they read as 0, the end of the frame, only
    for a compressed block of size 0. *)
Theorem block_header_round_trip (nSize : Z) (uncompressed : bool) :
  0 <= nSize < 2 ^ 31 ->
  let nBlockSize := read_block_size (block_header nSize uncompressed) in
  length (block_header nSize uncompressed) = 4%nat /\
  Z.land nBlockSize 2147483647 = nSize /\
  negb (Z.land nBlockSize 2147483648 =? 0) = uncompressed /\
  (nBlockSize = 0 <-> nSize = 0 /\ uncompressed = false).
Proof. exact (block_header_fields nSize uncompressed). Qed.

Lemma block_header_round_trip_witness :
  length (block_header 65536 true) = 4%nat /\
  Z.land (read_block_size (block_header 65536 true)) 2147483647 = 65536 /\
  negb (Z.land (read_block_size (block_header 65536 true)) 2147483648 =? 0)
    = true /\
  (read_block_size (block_header 65536 true) = 0 <->
   65536 = 0 /\ true = false).
Proof.
  apply (block_header_round_trip 65536 true). lia.
Defined.

(** ** Frames of stored blocks *)

Ltac block_lia := unfold BLOCK_SIZE in *; lia.

Lemma stored_blocks_nil fuel : stored_blocks fuel [] = [].
Proof. destruct fuel; reflexivity. Qed.

Lemma stored_blocks_cons fuel data :
  data <> [] ->
  stored_blocks (S fuel) data =
  block_header (Z.of_nat (length (take (Z.to_nat BLOCK_SIZE) data))) true
    ++ take (Z.to_nat BLOCK_SIZE) data
    ++ stored_blocks fuel (drop (Z.to_nat BLOCK_SIZE) data).
Proof. destruct data; [congruence | reflexivity]. Qed.

Lemma length_slice buf p n :
  0 <= p -> 0 <= n -> p + n <= Z.of_nat (length buf) ->
  Z.of_nat (length (slice buf p n)) = n.
Proof.
  intros Hp Hn Hin. unfold slice. rewrite length_take, length_drop. lia.
Qed.

(** Moving the previous block in front of the next one keeps the size of the
    buffer. *)
Lemma length_carry buf p prev :
  Z.of_nat (length buf) = BLOCK_SIZE * 2 -> 0 <= prev <= BLOCK_SIZE ->
  0 <= p -> p + prev <= BLOCK_SIZE * 2 ->
  length (if prev =? 0 then buf else blit buf p (slice buf BLOCK_SIZE prev))
  = length buf.
Proof.
  intros Hbuf Hprev Hp Hin. destruct (prev =? 0); [reflexivity |].
  apply length_blit; [lia |]. rewrite length_slice; block_lia.
Qed.

(** [fread] hands out the next bytes of the file, as many as there are. *)
Lemma fread_take n f :
  0 <= n ->
  (fread n f).1 = take (Z.to_nat n) (rest f) /\
  rest (fread n f).2 = drop (Z.to_nat n) (rest f) /\
  at_eof (fread n f).2 = (at_eof f || (Z.of_nat (length (rest f)) <? n)).
Proof.
  intros Hn. unfold fread.
  destruct (n <=? Z.of_nat (length (rest f))) eqn:Hle; cbn [fst snd rest at_eof].
  - apply Z.leb_le in Hle.
    replace (Z.of_nat (length (rest f)) <? n) with false
      by (symmetry; apply Z.ltb_ge; lia).
    rewrite orb_false_r. auto.
  - apply Z.leb_gt in Hle.
    replace (Z.of_nat (length (rest f)) <? n) with true
      by (symmetry; apply Z.ltb_lt; lia).
    rewrite orb_true_r, take_ge, drop_ge by lia. auto.
Qed.

Lemma bytes_eqb_refl a : bytes_eqb a a = true.
Proof. unfold bytes_eqb. apply bool_decide_eq_true_2. reflexivity. Qed.

Lemma take_block_nonempty (data : list byte) :
  data <> [] -> take (Z.to_nat BLOCK_SIZE) data <> [].
Proof. destruct data; [congruence | intros _; discriminate]. Qed.

(** ** The loop of [lz4ultra_compress], block by block (C4) *)

Lemma blocks_of_nil {lsza_compressor : Type}
    (shrink : lsza_compressor -> list byte -> Z -> Z -> Z ->
              Z * list byte * lsza_compressor) raw fuel c prev :
  blocks_of shrink raw fuel c prev [] = ([], false, [], c).
Proof. destruct fuel; reflexivity. Qed.

Lemma blocks_of_nil_fuel {lsza_compressor : Type}
    (shrink : lsza_compressor -> list byte -> Z -> Z -> Z ->
              Z * list byte * lsza_compressor) raw c prev data :
  blocks_of shrink raw 0 c prev data = ([], false, [], c).
Proof. reflexivity. Qed.

Lemma blocks_of_step {lsza_compressor : Type}
    (shrink : lsza_compressor -> list byte -> Z -> Z -> Z ->
              Z * list byte * lsza_compressor) raw fuel c prev data :
  data <> [] ->
  blocks_of shrink raw (S fuel) c prev data =
  let chunk := take (Z.to_nat BLOCK_SIZE) data in
  let n := Z.of_nat (length chunk) in
  if negb (Z.of_nat (length prev) =? 0) && raw
  then ([], true, [DiagRawTooLarge], c)
  else
    let '(nOutDataSize, outdata, c1) :=
      shrink c (prev ++ chunk) (Z.of_nat (length prev)) n
        (if BLOCK_SIZE <=? n then BLOCK_SIZE else n) in
    if 0 <=? nOutDataSize then
      let '(more, err, d, c2) :=
        blocks_of shrink raw fuel c1 chunk (drop (Z.to_nat BLOCK_SIZE) data) in
      ((if raw then [] else block_header nOutDataSize false)
         ++ take (Z.to_nat nOutDataSize) outdata ++ more, err, d, c2)
    else if raw then ([], true, [DiagRawUncompressed], c1)
    else
      let '(more, err, d, c2) :=
        blocks_of shrink raw fuel c1 chunk (drop (Z.to_nat BLOCK_SIZE) data) in
      (block_header n true ++ chunk ++ more, err, d, c2).
Proof. destruct data; [congruence | reflexivity]. Qed.

(** The window that the compressor is given: the block before, when there is
    one, moved in front of the block that was just read. *)
Lemma compress_window buf prev chunk :
  Z.of_nat (length buf) = BLOCK_SIZE * 2 ->
  prev = [] \/ Z.of_nat (length prev) = BLOCK_SIZE ->
  slice buf BLOCK_SIZE (Z.of_nat (length prev)) = prev ->
  Z.of_nat (length chunk) <= BLOCK_SIZE ->
  let indata2 :=
    blit (if Z.of_nat (length prev) =? 0 then buf
          else blit buf 0 (slice buf BLOCK_SIZE (Z.of_nat (length prev))))
         BLOCK_SIZE chunk in
  slice indata2 (BLOCK_SIZE - Z.of_nat (length prev))
        (Z.of_nat (length prev) + Z.of_nat (length chunk)) = prev ++ chunk /\
  slice indata2 BLOCK_SIZE (Z.of_nat (length chunk)) = chunk /\
  Z.of_nat (length indata2) = BLOCK_SIZE * 2.
Proof.
  intros Hbuf Hprev Hslice Hchunk indata2. subst indata2.
  destruct Hprev as [-> | Hfull].
  - change (Z.of_nat (length (@nil byte))) with 0.
    change (0 =? 0) with true. cbv iota.
    rewrite Z.sub_0_r, Z.add_0_l. cbn [app].
    repeat apply conj.
    + apply slice_blit; block_lia.
    + apply slice_blit; block_lia.
    + rewrite length_blit; block_lia.
  - replace (Z.of_nat (length prev) =? 0) with false
      by (symmetry; apply Z.eqb_neq; block_lia).
    rewrite Hslice.
    assert (Hl1 : length (blit buf 0 prev) = length buf)
      by (apply length_blit; block_lia).
    repeat apply conj.
    + rewrite Hfull. replace (BLOCK_SIZE - BLOCK_SIZE) with 0 by lia.
      assert (H1 : blit buf 0 prev = prev ++ drop (length prev) buf)
        by reflexivity.
      rewrite H1. unfold slice, blit. change (Z.to_nat 0) with 0%nat.
      cbn [drop].
      rewrite (take_app_length' prev) by block_lia.
      rewrite app_assoc.
      apply take_app_length'. rewrite length_app. block_lia.
    + apply slice_blit; block_lia.
    + rewrite length_blit; block_lia.
Qed.

Section CompressBlocks.

Variable lsza_compressor : Type.
Variable lz4ultra_compressor_init : Z -> Z * lsza_compressor.
Variable lz4ultra_shrink_block :
  lsza_compressor -> list byte -> Z -> Z -> Z -> Z * list byte * lsza_compressor.
Variable lz4ultra_compressor_get_command_count : lsza_compressor -> Z.
(** The loop of [lz4ultra_compress] with its two-block buffer does what
    [blocks_of] tells: the compressor sees the block before and the current
    one, and a stored block holds the bytes that were read. *)
Lemma compress_loop_blocks nOptions : forall (n : nat) data st prev,
  rest (c_in st) = data -> at_eof (c_in st) = false ->
  c_error st = false ->
  Z.of_nat (length (c_indata st)) = BLOCK_SIZE * 2 ->
  c_prev st = Z.of_nat (length prev) ->
  prev = [] \/ Z.of_nat (length prev) = BLOCK_SIZE ->
  slice (c_indata st) BLOCK_SIZE (c_prev st) = prev ->
  (length data <= n)%nat ->
  exists st',
    compress_loop lz4ultra_shrink_block (S (S n)) nOptions st = Some st' /\
    (c_written st', c_error st', c_diag st', c_comp st') =
    (let '(blocks, err, d, c) :=
       blocks_of lz4ultra_shrink_block (has_flag nOptions OPT_RAW) n
         (c_comp st) prev data in
     (c_written st ++ blocks, err, c_diag st ++ d, c)).
Proof.
  induction n as [| n IH];
    intros data st prev Hin Heof Herr Hbuf Hprev Hfull Hslice Hlen.
  - assert (Hnil : data = []) by (apply nil_length_inv; lia). subst data.
    destruct (compress_loop_exhausted _ lz4ultra_shrink_block nOptions st 0
                Hnil Herr) as [indata Hloop].
    rewrite Hloop. eexists. split; [reflexivity |].
    rewrite Hnil. cbn [blocks_of c_written c_error c_diag c_comp].
    rewrite !app_nil_r. reflexivity.
  - destruct (decide (data = [])) as [Hnil | Hne].
    { subst data.
      destruct (compress_loop_exhausted _ lz4ultra_shrink_block nOptions st
                  (S n) Hnil Herr) as [indata Hloop].
      rewrite Hloop. eexists. split; [reflexivity |].
      rewrite Hnil, blocks_of_nil. cbn [c_written c_error c_diag c_comp].
      rewrite !app_nil_r. reflexivity. }
    rewrite compress_loop_step, Heof, Herr. cbn [negb andb].
    destruct (fread_take BLOCK_SIZE (c_in st) ltac:(block_lia))
      as (Hchunk & Hrest & Heof').
    rewrite Heof, Hin in Heof'. cbn [orb] in Heof'. rewrite Hin in Hchunk, Hrest.
    set (chunk := take (Z.to_nat BLOCK_SIZE) data) in *.
    assert (Hclen : 0 < Z.of_nat (length chunk) <= BLOCK_SIZE).
    { subst chunk. rewrite length_take.
      destruct data; [congruence |]. cbn [length]. block_lia. }
    rewrite <- Hprev in Hfull. rewrite Hprev in Hslice.
    rewrite Hprev in Hfull.
    destruct (compress_window (c_indata st) prev chunk Hbuf Hfull Hslice
                ltac:(lia)) as (Hwin & Hstored & Hbuf2).
    (* this round *)
    rewrite (blocks_of_step _ _ _ _ _ _ Hne). cbv zeta. fold chunk.
    unfold compress_round.
    destruct (fread BLOCK_SIZE (c_in st)) as [chunk' f1].
    cbn [fst snd] in Hchunk, Hrest, Heof'. subst chunk'.
    lazy beta iota zeta.
    rewrite Hprev, Herr.
    set (indata2 := blit _ BLOCK_SIZE chunk) in *.
    replace (0 <? Z.of_nat (length chunk)) with true
      by (symmetry; apply Z.ltb_lt; lia).
    destruct (negb (Z.of_nat (length prev) =? 0) && has_flag nOptions OPT_RAW)
      eqn:Hsecond.
    { eexists. split; [reflexivity |].
      cbn [c_written c_error c_diag c_comp]. rewrite app_nil_r. reflexivity. }
    rewrite Hwin.
    destruct (lz4ultra_shrink_block (c_comp st) (prev ++ chunk)
                (Z.of_nat (length prev)) (Z.of_nat (length chunk))
                (if BLOCK_SIZE <=? Z.of_nat (length chunk)
                 then BLOCK_SIZE else Z.of_nat (length chunk)))
      as [[nOut outdata] c1].
    assert (Hnext : forall written,
              exists st',
                compress_loop lz4ultra_shrink_block (S (S n)) nOptions
                  (CState f1 written indata2 (Z.of_nat (length chunk)) c1
                     false (c_diag st))
                  = Some st' /\
                (c_written st', c_error st', c_diag st', c_comp st') =
                (let '(blocks, err, d, c) :=
                   blocks_of lz4ultra_shrink_block (has_flag nOptions OPT_RAW)
                     n c1 chunk (drop (Z.to_nat BLOCK_SIZE) data) in
                 (written ++ blocks, err, c_diag st ++ d, c))).
    { intros written.
      destruct (Z.of_nat (length data) <? BLOCK_SIZE) eqn:Hshort.
      - apply Z.ltb_lt in Hshort.
        rewrite compress_loop_step. cbn [c_in c_error]. rewrite Heof'.
        cbn [negb andb].
        eexists. split; [reflexivity |].
        rewrite drop_ge by lia. rewrite blocks_of_nil.
        cbn [c_written c_error c_diag c_comp].
        rewrite !app_nil_r. reflexivity.
      - apply Z.ltb_ge in Hshort.
        assert (Hcfull : Z.of_nat (length chunk) = BLOCK_SIZE).
        { subst chunk. rewrite length_take. lia. }
        apply (IH (drop (Z.to_nat BLOCK_SIZE) data)
                 (CState f1 written indata2 (Z.of_nat (length chunk)) c1
                    false (c_diag st)) chunk); cbn [c_in c_error c_indata c_prev].
        + exact Hrest.
        + exact Heof'.
        + reflexivity.
        + exact Hbuf2.
        + reflexivity.
        + right. exact Hcfull.
        + exact Hstored.
        + rewrite length_drop. block_lia. }
    destruct (0 <=? nOut) eqn:Hok.
    + destruct (Hnext (c_written st ++
                  (if has_flag nOptions OPT_RAW then []
                   else block_header nOut false)
                  ++ take (Z.to_nat nOut) outdata)) as (st' & Hloop & Hres).
      exists st'. split; [exact Hloop |]. rewrite Hres.
      destruct (blocks_of lz4ultra_shrink_block (has_flag nOptions OPT_RAW) n
                  c1 chunk (drop (Z.to_nat BLOCK_SIZE) data))
        as [[[more err] d] c2].
      rewrite <- !app_assoc. reflexivity.
    + destruct (has_flag nOptions OPT_RAW) eqn:Hraw.
      * eexists. split; [reflexivity |].
        cbn [c_written c_error c_diag c_comp]. rewrite app_nil_r. reflexivity.
      * rewrite Hstored.
        destruct (Hnext (c_written st ++
                    block_header (Z.of_nat (length chunk)) true ++ chunk))
          as (st' & Hloop & Hres).
        exists st'. split; [exact Hloop |]. rewrite Hres.
        destruct (blocks_of lz4ultra_shrink_block false n
                    c1 chunk (drop (Z.to_nat BLOCK_SIZE) data))
          as [[[more err] d] c2].
        rewrite <- !app_assoc. reflexivity.
Qed.

(** [lz4ultra_compress], once both files are open and the compressor is
    there, in terms of [blocks_of]: the header, the blocks, and the end mark
    unless a block has failed. *)
Lemma lz4ultra_compress_blocks
    (w : world) (fin fout : string) (data : list byte) (nOptions : Z) :
  files w !! fin = Some data ->
  fopen_wb w fout = true ->
  (lz4ultra_compressor_init (BLOCK_SIZE * 2)).1 = 0 ->
  lz4ultra_compress lz4ultra_compressor_init lz4ultra_shrink_block
    lz4ultra_compressor_get_command_count w fin fout nOptions
  = (let '(blocks, err, d, c) :=
       blocks_of lz4ultra_shrink_block (has_flag nOptions OPT_RAW)
         (length data) (lz4ultra_compressor_init (BLOCK_SIZE * 2)).2 [] data in
     if negb err && has_flag nOptions OPT_VERBOSE
        && (lz4ultra_compressor_get_command_count c =? 0)
     then None
     else Some (if err then 100 else 0,
                fclose_wb w fout
                  ((if has_flag nOptions OPT_RAW then [] else frame_header)
                     ++ blocks
                     ++ (if err then []
                         else if has_flag nOptions OPT_RAW then [x00; x00]
                              else [x00; x00; x00; x00])),
                if err then d ++ [DiagCompressionError] else d)).
Proof.
  intros Hfile Hout Hinit.
  unfold lz4ultra_compress, fopen_rb. rewrite Hfile.
  cbn [fmap option_fmap option_map]. rewrite Hout. cbn [negb].
  destruct (lz4ultra_compressor_init (BLOCK_SIZE * 2)) as [nResult c0].
  cbn [fst] in Hinit. subst nResult. cbn [snd].
  change (negb (0 =? 0)) with false. cbv iota. cbn [rest].
  match goal with
  | |- context [compress_loop _ _ _ ?st] =>
      destruct (compress_loop_blocks nOptions (length data) data st [])
        as (st' & Hloop & Hres)
  end;
    [ reflexivity | reflexivity | reflexivity
    | cbn [c_indata]; rewrite length_replicate; block_lia
    | reflexivity
    | left; reflexivity
    | unfold slice; cbn [c_prev]; change (Z.to_nat 0) with 0%nat; apply take_0
    | lia | ].
  rewrite Hloop. cbn [c_comp c_written c_diag] in Hres.
  destruct (blocks_of lz4ultra_shrink_block (has_flag nOptions OPT_RAW)
              (length data) c0 [] data) as [[[blocks err] d] cfin].
  injection Hres as Hw He Hd Hc. rewrite Hw, He, Hd, Hc. cbn [app].
  destruct err; cbn [negb andb].
  - rewrite app_nil_r. reflexivity.
  - destruct (has_flag nOptions OPT_VERBOSE
              && (lz4ultra_compressor_get_command_count cfin =? 0));
      [reflexivity |].
    rewrite <- app_assoc. reflexivity.
Qed.

(** What [blocks_of] prints: nothing without an error; an error is raised
    in raw mode only, with one of its two diagnostics. *)
Lemma blocks_of_diagnostics raw : forall fuel c prev data,
  let '(blocks, err, d, c') :=
    blocks_of lz4ultra_shrink_block raw fuel c prev data in
  (err = false /\ d = []) \/
  (err = true /\ raw = true /\
   (d = [DiagRawTooLarge] \/ d = [DiagRawUncompressed])).
Proof.
  induction fuel as [| fuel IH]; intros c prev data; [left; auto |].
  destruct (decide (data = [])) as [-> | Hne]; [left; auto |].
  rewrite (blocks_of_step _ _ _ _ _ _ Hne). cbv zeta.
  destruct (negb (Z.of_nat (length prev) =? 0) && raw) eqn:Hsecond.
  { right. apply andb_prop in Hsecond as [_ ->]. auto. }
  destruct (lz4ultra_shrink_block _ _ _ _ _) as [[nOut outdata] c1].
  match goal with
  | |- context [blocks_of _ _ fuel c1 ?p ?dt] =>
      specialize (IH c1 p dt);
      destruct (blocks_of lz4ultra_shrink_block raw fuel c1 p dt)
        as [[[more err] d] c2]
  end.
  destruct (0 <=? nOut); [exact IH |].
  destruct raw; [right; auto | exact IH].
Qed.

(** In raw mode, a first block that the compressor refuses ends the
    compression. *)
Lemma blocks_of_raw_refused fuel c data :
  data <> [] ->
  (first_block_call lz4ultra_shrink_block c data).1.1 < 0 ->
  blocks_of lz4ultra_shrink_block true (S fuel) c [] data
  = ([], true, [DiagRawUncompressed],
     (first_block_call lz4ultra_shrink_block c data).2).
Proof.
  intros Hne Hno. rewrite (blocks_of_step _ _ _ _ _ _ Hne). cbv zeta.
  unfold first_block_call in *. cbn [app length Z.of_nat negb andb] in *.
  change (0 =? 0) with true. cbn [negb andb].
  destruct (lz4ultra_shrink_block _ _ _ _ _) as [[nOut outdata] c1].
  cbn [fst snd] in *.
  replace (0 <=? nOut) with false by (symmetry; apply Z.leb_gt; exact Hno).
  reflexivity.
Qed.

(** In raw mode, a first block that the compressor accepts is written; the
    input ends there, or the second block is one too many. *)
Lemma blocks_of_raw_accepted fuel c data :
  data <> [] ->
  0 <= (first_block_call lz4ultra_shrink_block c data).1.1 ->
  blocks_of lz4ultra_shrink_block true (S (S fuel)) c [] data
  = (take (Z.to_nat (first_block_call lz4ultra_shrink_block c data).1.1)
       (first_block_call lz4ultra_shrink_block c data).1.2,
     negb (Z.of_nat (length data) <=? BLOCK_SIZE),
     if Z.of_nat (length data) <=? BLOCK_SIZE then [] else [DiagRawTooLarge],
     (first_block_call lz4ultra_shrink_block c data).2).
Proof.
  intros Hne Hyes. rewrite (blocks_of_step _ _ _ _ _ _ Hne). cbv zeta.
  unfold first_block_call in *. cbn [app length Z.of_nat negb andb] in *.
  change (0 =? 0) with true. cbn [negb andb].
  destruct (lz4ultra_shrink_block _ _ _ _ _) as [[nOut outdata] c1].
  cbn [fst snd] in *.
  replace (0 <=? nOut) with true by (symmetry; apply Z.leb_le; exact Hyes).
  destruct (Z.of_nat (length data) <=? BLOCK_SIZE) eqn:Hsize.
  - apply Z.leb_le in Hsize.
    rewrite drop_ge by block_lia. rewrite blocks_of_nil.
    rewrite app_nil_r. reflexivity.
  - apply Z.leb_gt in Hsize.
    assert (Hmore : drop (Z.to_nat BLOCK_SIZE) data <> []).
    { intros Hnil. apply (f_equal length) in Hnil.
      rewrite length_drop in Hnil. cbn [length] in Hnil. block_lia. }
    rewrite (blocks_of_step _ _ _ _ _ _ Hmore). cbv zeta.
    replace (Z.of_nat (length (take (Z.to_nat BLOCK_SIZE) data)) =? 0)
      with false
      by (symmetry; apply Z.eqb_neq; rewrite length_take; block_lia).
    cbn [negb andb]. rewrite app_nil_r. reflexivity.
Qed.

(** Raw mode, more than one block of input: the compression fails, on the
    first block when the compressor refuses it, on the second otherwise. *)
Lemma compress_raw_large
    (w : world) (fin fout : string) (data : list byte) (nOptions : Z) :
  files w !! fin = Some data ->
  fopen_wb w fout = true ->
  (lz4ultra_compressor_init (BLOCK_SIZE * 2)).1 = 0 ->
  has_flag nOptions OPT_RAW = true ->
  BLOCK_SIZE < Z.of_nat (length data) ->
  lz4ultra_compress lz4ultra_compressor_init lz4ultra_shrink_block
    lz4ultra_compressor_get_command_count w fin fout nOptions
  = (let first :=
       first_block_call lz4ultra_shrink_block
         (lz4ultra_compressor_init (BLOCK_SIZE * 2)).2 data in
     if 0 <=? first.1.1
     then Some (100, fclose_wb w fout (take (Z.to_nat first.1.1) first.1.2),
                [DiagRawTooLarge; DiagCompressionError])
     else Some (100, fclose_wb w fout [],
                [DiagRawUncompressed; DiagCompressionError])).
Proof.
  intros Hfile Hout Hinit Hraw Hsize.
  rewrite (lz4ultra_compress_blocks w fin fout data nOptions Hfile Hout Hinit).
  rewrite Hraw. cbv zeta.
  assert (Hne : data <> []).
  { intros Hnil. rewrite Hnil in Hsize. cbn [length] in Hsize. block_lia. }
  destruct (length data) as [| [| n]] eqn:Hlen; [block_lia | block_lia |].
  destruct (0 <=? _) eqn:Hfirst.
  - apply Z.leb_le in Hfirst.
    rewrite (blocks_of_raw_accepted _ _ _ Hne Hfirst), Hlen.
    replace (Z.of_nat (S (S n)) <=? BLOCK_SIZE) with false
      by (symmetry; apply Z.leb_gt; lia).
    cbn [negb andb app]. rewrite app_nil_r. reflexivity.
  - apply Z.leb_gt in Hfirst.
    rewrite (blocks_of_raw_refused _ _ _ Hne Hfirst).
    reflexivity.
Qed.

(** Raw mode, one block of input that the compressor accepts: the block and
    the end mark are written. *)
Lemma compress_raw_small
    (w : world) (fin fout : string) (data : list byte) (nOptions : Z) :
  files w !! fin = Some data ->
  fopen_wb w fout = true ->
  (lz4ultra_compressor_init (BLOCK_SIZE * 2)).1 = 0 ->
  has_flag nOptions OPT_RAW = true ->
  0 < Z.of_nat (length data) <= BLOCK_SIZE ->
  0 <= (first_block_call lz4ultra_shrink_block
          (lz4ultra_compressor_init (BLOCK_SIZE * 2)).2 data).1.1 ->
  lz4ultra_compress lz4ultra_compressor_init lz4ultra_shrink_block
    lz4ultra_compressor_get_command_count w fin fout nOptions
  = (let first :=
       first_block_call lz4ultra_shrink_block
         (lz4ultra_compressor_init (BLOCK_SIZE * 2)).2 data in
     if has_flag nOptions OPT_VERBOSE
        && (lz4ultra_compressor_get_command_count first.2 =? 0)
     then None
     else Some (0, fclose_wb w fout
                     (take (Z.to_nat first.1.1) first.1.2 ++ [x00; x00]), [])).
Proof.
  intros Hfile Hout Hinit Hraw Hsize Hfirst.
  rewrite (lz4ultra_compress_blocks w fin fout data nOptions Hfile Hout Hinit).
  rewrite Hraw. cbv zeta.
  assert (Hne : data <> []).
  { intros Hnil. rewrite Hnil in Hsize. cbn [length] in Hsize. lia. }
  destruct (length data) as [| n] eqn:Hlen; [lia |].
  destruct n as [| n].
  - (* one byte: no fuel is left for a second round *)
    rewrite (blocks_of_step _ _ _ _ _ _ Hne). cbv zeta.
    unfold first_block_call in *.
    change (Z.of_nat (length (@nil byte))) with 0 in *.
    change (0 =? 0) with true. cbn [negb andb].
    change ([] ++ take (Z.to_nat BLOCK_SIZE) data)
      with (take (Z.to_nat BLOCK_SIZE) data).
    destruct (lz4ultra_shrink_block _ _ _ _ _) as [[nOut outdata] c1].
    cbn [fst snd] in *.
    replace (0 <=? nOut) with true by (symmetry; apply Z.leb_le; exact Hfirst).
    rewrite blocks_of_nil_fuel. cbn [negb andb app]. rewrite app_nil_r.
    reflexivity.
  - rewrite (blocks_of_raw_accepted _ _ _ Hne Hfirst), Hlen.
    replace (Z.of_nat (S (S n)) <=? BLOCK_SIZE) with true
      by (symmetry; apply Z.leb_le; lia).
    cbn [negb andb app]. reflexivity.
Qed.

(** C4, amended.  In raw block mode, with the two files open and the
    compressor initialised: an input of more than 65536 bytes always fails
    with status 100, with the raw-too-large diagnostic when the compressor
    accepts the first block and with the incompressible-data diagnostic when
    it refuses it; an input of at most 65536 bytes whose first block is
    accepted is compressed with status 0 and nothing printed (in verbose mode
    provided the command count, by which the summary divides, is not 0); so
    an input whose first block is accepted succeeds exactly when it holds at
    most 65536 bytes. *)
Theorem raw_mode_size_limit
    (w : world) (fin fout : string) (data : list byte) (nOptions : Z) :
  files w !! fin = Some data ->
  fin <> fout ->
  fopen_wb w fout = true ->
  (lz4ultra_compressor_init (BLOCK_SIZE * 2)).1 = 0 ->
  has_flag nOptions OPT_RAW = true ->
  let first :=
    first_block_call lz4ultra_shrink_block
      (lz4ultra_compressor_init (BLOCK_SIZE * 2)).2 data in
  let r := lz4ultra_compress lz4ultra_compressor_init lz4ultra_shrink_block
             lz4ultra_compressor_get_command_count w fin fout nOptions in
  (65536 < Z.of_nat (length data) ->
   exit_status r = Some 100 /\
   printed r = Some [if 0 <=? first.1.1 then DiagRawTooLarge
                     else DiagRawUncompressed; DiagCompressionError]) /\
  (0 < Z.of_nat (length data) <= 65536 -> 0 <= first.1.1 ->
   has_flag nOptions OPT_VERBOSE = false \/
   lz4ultra_compressor_get_command_count first.2 <> 0 ->
   exit_status r = Some 0 /\ printed r = Some [] /\
   file_after r fout
   = Some (take (Z.to_nat first.1.1) first.1.2 ++ [x00; x00])) /\
  (0 <= first.1.1 ->
   has_flag nOptions OPT_VERBOSE = false ->
   (exit_status r = Some 0 <-> Z.of_nat (length data) <= 65536)).
Proof.
  intros Hfile Hdiff Hout Hinit Hraw first r.
  pose proof (compress_raw_large w fin fout data nOptions Hfile Hout Hinit Hraw)
    as Hlarge.
  pose proof (compress_raw_small w fin fout data nOptions Hfile Hout Hinit Hraw)
    as Hsmall.
  cbv zeta in Hlarge, Hsmall. fold first in Hlarge, Hsmall.
  fold r in Hlarge, Hsmall.
  assert (Hempty : data = [] -> has_flag nOptions OPT_VERBOSE = false ->
                   exit_status r = Some 0).
  { intros Hnil Hverbose. subst r.
    rewrite (lz4ultra_compress_blocks w fin fout data nOptions Hfile Hout
               Hinit).
    rewrite Hnil, blocks_of_nil, Hverbose. reflexivity. }
  clearbody r first.
  split; [| split].
  - intros Hsize. rewrite Hlarge by block_lia.
    destruct (0 <=? first.1.1); split; reflexivity.
  - intros Hsize Hfirst Hverbose.
    rewrite Hsmall by (block_lia || exact Hfirst).
    replace (has_flag nOptions OPT_VERBOSE
             && (lz4ultra_compressor_get_command_count first.2 =? 0))
      with false.
    + repeat split. unfold file_after, fclose_wb.
      cbn [mbind option_bind fst snd files]. apply lookup_insert_eq.
    + symmetry. destruct Hverbose as [-> | Hcount]; [reflexivity |].
      apply Z.eqb_neq in Hcount. rewrite Hcount. apply andb_false_r.
  - intros Hfirst Hverbose. split.
    + intros Hzero.
      destruct (Z_le_gt_dec (Z.of_nat (length data)) 65536) as [Hle | Hgt];
        [exact Hle |].
      rewrite Hlarge in Hzero by block_lia.
      destruct (0 <=? first.1.1); discriminate.
    + intros Hsize.
      destruct (Z.eq_dec (Z.of_nat (length data)) 0) as [Hzero | Hpos].
      * apply Hempty; [| exact Hverbose]. apply nil_length_inv. lia.
      * rewrite Hsmall by (block_lia || exact Hfirst).
        rewrite Hverbose. reflexivity.
Qed.

(** X10.  In raw mode [lz4ultra_compress] has no stored blocks: when the
    compressor refuses the first block of a non-empty input (whatever it
    would do with any other block), the command fails with status 100,
    prints the two diagnostics, and leaves an empty output file, without the
    2-byte end mark. *)
Theorem raw_mode_refuses_incompressible
    (w : world) (fin fout : string) (data : list byte) (nOptions : Z) :
  files w !! fin = Some data ->
  data <> [] ->
  fin <> fout ->
  fopen_wb w fout = true ->
  (lz4ultra_compressor_init (BLOCK_SIZE * 2)).1 = 0 ->
  has_flag nOptions OPT_RAW = true ->
  (first_block_call lz4ultra_shrink_block
     (lz4ultra_compressor_init (BLOCK_SIZE * 2)).2 data).1.1 < 0 ->
  lz4ultra_compress lz4ultra_compressor_init lz4ultra_shrink_block
    lz4ultra_compressor_get_command_count w fin fout nOptions
  = Some (100, fclose_wb w fout [],
          [DiagRawUncompressed; DiagCompressionError]).
Proof.
  intros Hfile Hne Hdiff Hout Hinit Hraw Hno.
  rewrite (lz4ultra_compress_blocks w fin fout data nOptions Hfile Hout Hinit).
  rewrite Hraw.
  destruct (length data) as [| n] eqn:Hlen;
    [apply nil_length_inv in Hlen; contradiction |].
  rewrite (blocks_of_raw_refused _ _ _ Hne Hno). reflexivity.
Qed.

(** X16.  Whatever the compressor does with the blocks, and for every
    input, [lz4ultra_compress] (not verbose) leaves an output file that holds
    the frame header (nothing in raw mode), then the blocks that [blocks_of]
    lists: each block of at most 65536 bytes as the compressor returned it
    after its 4-byte header (no header in raw mode), or stored as it was read
    after a header with bit 31 when the compressor refused it, up to the
    block on which raw mode gives up; the end mark, 4 zero bytes or 2 in raw
    mode, comes after them exactly when the status is 0, and nothing is
    printed then; the status is 100 otherwise, which happens in raw mode
    only, and the diagnostic of the block is followed by the compression
    error. *)
Theorem compress_output_is_framed
    (w : world) (fin fout : string) (data : list byte) (nOptions : Z) :
  files w !! fin = Some data ->
  fin <> fout ->
  fopen_wb w fout = true ->
  (lz4ultra_compressor_init (BLOCK_SIZE * 2)).1 = 0 ->
  has_flag nOptions OPT_VERBOSE = false ->
  let raw := has_flag nOptions OPT_RAW in
  let '(blocks, err, d, _) :=
    blocks_of lz4ultra_shrink_block raw (length data)
      (lz4ultra_compressor_init (BLOCK_SIZE * 2)).2 [] data in
  lz4ultra_compress lz4ultra_compressor_init lz4ultra_shrink_block
    lz4ultra_compressor_get_command_count w fin fout nOptions
  = Some (if err then 100 else 0,
          fclose_wb w fout
            ((if raw then [] else frame_header)
               ++ blocks
               ++ (if err then []
                   else if raw then [x00; x00] else [x00; x00; x00; x00])),
          if err then d ++ [DiagCompressionError] else []) /\
  ((err = false /\ d = []) \/
   (err = true /\ raw = true /\
    (d = [DiagRawTooLarge] \/ d = [DiagRawUncompressed]))).
Proof.
  intros Hfile Hdiff Hout Hinit Hverbose raw.
  rewrite (lz4ultra_compress_blocks w fin fout data nOptions Hfile Hout Hinit).
  pose proof (blocks_of_diagnostics raw (length data)
                (lz4ultra_compressor_init (BLOCK_SIZE * 2)).2 [] data)
    as Hdiag.
  fold raw.
  destruct (blocks_of lz4ultra_shrink_block raw (length data)
              (lz4ultra_compressor_init (BLOCK_SIZE * 2)).2 [] data)
    as [[[blocks err] d] c].
  split; [| exact Hdiag].
  rewrite Hverbose, andb_false_r. cbn [andb].
  destruct Hdiag as [[-> ->] | [-> _]]; reflexivity.
Qed.

End CompressBlocks.

Lemma raw_mode_size_limit_witness :
  let r := lz4ultra_compress accepting_init picky_shrink accepting_count
             (world_of [("in.bin", [x00; x61])]) "in.bin" "out.lz4" OPT_RAW in
  exit_status r = Some 0 /\ printed r = Some [] /\
  file_after r "out.lz4" = Some [x00; x00; x00].
Proof.
  apply (proj1 (proj2 (raw_mode_size_limit unit accepting_init picky_shrink
           accepting_count (world_of [("in.bin", [x00; x61])])
           "in.bin" "out.lz4" [x00; x61] OPT_RAW
           eq_refl ltac:(discriminate) eq_refl eq_refl eq_refl))).
  - cbn [length Z.of_nat]. lia.
  - vm_compute. discriminate.
  - left. reflexivity.
Defined.

Lemma raw_mode_refuses_incompressible_witness :
  lz4ultra_compress accepting_init picky_shrink accepting_count
    (world_of [("in"%string, [x61])]) "in" "out" OPT_RAW
  = Some (100, fclose_wb (world_of [("in"%string, [x61])]) "out" [],
          [DiagRawUncompressed; DiagCompressionError]).
Proof.
  apply (raw_mode_refuses_incompressible unit accepting_init picky_shrink
           accepting_count (world_of [("in"%string, [x61])]) "in" "out"
           [x61] OPT_RAW).
  - reflexivity.
  - discriminate.
  - discriminate.
  - reflexivity.
  - reflexivity.
  - reflexivity.
  - vm_compute. reflexivity.
Defined.

Lemma compress_output_is_framed_witness :
  lz4ultra_compress accepting_init picky_shrink accepting_count
    (world_of [("in"%string, [x00; x61])]) "in" "out" 0
  = Some (0,
          fclose_wb (world_of [("in"%string, [x00; x61])]) "out"
            (frame_header ++ [x01; x00; x00; x00; x00]
               ++ [x00; x00; x00; x00]),
          []) /\
  ((false = false /\ @nil diagnostic = []) \/
   (false = true /\ has_flag 0 OPT_RAW = true /\
    (@nil diagnostic = [DiagRawTooLarge]
     \/ @nil diagnostic = [DiagRawUncompressed]))).
Proof.
  exact (compress_output_is_framed unit accepting_init picky_shrink
           accepting_count (world_of [("in"%string, [x00; x61])]) "in" "out"
           [x00; x61] 0
           eq_refl ltac:(discriminate) eq_refl eq_refl eq_refl).
Defined.

Section StoredBlocks.

Variable lsza_compressor : Type.
Variable lz4ultra_compressor_init : Z -> Z * lsza_compressor.
Variable lz4ultra_shrink_block :
  lsza_compressor -> list byte -> Z -> Z -> Z -> Z * list byte * lsza_compressor.
Variable lz4ultra_compressor_get_command_count : lsza_compressor -> Z.
Variable lz4ultra_expand_block :
  list byte -> list byte -> Z -> Z -> Z * list byte.

(** The header of the next block as [next_block_size] reads it. *)
Lemma next_block_size_header nOptions f nFileSize hdr tail :
  has_flag nOptions OPT_RAW = false ->
  rest f = hdr ++ tail -> length hdr = 4%nat ->
  next_block_size nOptions f nFileSize
  = (read_block_size hdr, RFile tail (at_eof f), nFileSize).
Proof.
  intros Hraw Hrest Hlen. unfold next_block_size. rewrite Hraw.
  rewrite fread_enough by (rewrite Hrest, length_app; lia).
  rewrite Hrest, take_app_length', drop_app_length' by lia.
  rewrite Hlen. reflexivity.
Qed.

(** A round of the decompression loop on a stored block. *)
Lemma decompress_round_stored nOptions st chunk tail :
  has_flag nOptions OPT_RAW = false ->
  rest (d_in st) =
    block_header (Z.of_nat (length chunk)) true ++ chunk ++ tail ->
  chunk <> [] -> Z.of_nat (length chunk) <= BLOCK_SIZE ->
  Z.of_nat (length (d_outdata st)) = BLOCK_SIZE * 2 ->
  0 <= d_prev st <= BLOCK_SIZE ->
  exists outdata,
    decompress_round lz4ultra_expand_block nOptions st =
    (false,
     DState (RFile tail (at_eof (d_in st))) (d_filesize st)
       (d_written st ++ chunk) outdata (Z.of_nat (length chunk))
       (d_error st)) /\
    Z.of_nat (length outdata) = BLOCK_SIZE * 2.
Proof.
  intros Hraw Hrest Hne Hle Hbuf Hprev. unfold decompress_round.
  pose proof (length_carry (d_outdata st) (BLOCK_SIZE - d_prev st) (d_prev st)
                Hbuf Hprev ltac:(lia) ltac:(block_lia)) as Hl1.
  set (outdata1 := if d_prev st =? 0 then d_outdata st else _) in *.
  rewrite (next_block_size_header nOptions (d_in st) (d_filesize st) _ _
             Hraw Hrest eq_refl).
  assert (Hpos : 0 < Z.of_nat (length chunk))
    by (destruct chunk; [congruence | simpl; lia]).
  destruct (block_header_fields (Z.of_nat (length chunk)) true
              ltac:(block_lia)) as (_ & Hsize & Hflag & Hzero).
  set (v := read_block_size _) in *.
  assert (Hv : (v =? 0) = false).
  { apply Z.eqb_neq. intros Hv0. apply Hzero in Hv0 as [_ Hv0]. discriminate. }
  rewrite Hv, Hflag, Hsize. cbn [negb].
  rewrite fread_enough by (cbn [rest]; rewrite length_app; lia).
  cbn [rest at_eof]. rewrite Nat2Z.id.
  rewrite take_app_length, drop_app_length.
  rewrite Z.eqb_refl.
  replace (Z.of_nat (length chunk) <? 0) with false
    by (symmetry; apply Z.ltb_ge; lia).
  replace (Z.of_nat (length chunk) =? 0) with false
    by (symmetry; apply Z.eqb_neq; lia).
  cbn [negb]. rewrite slice_blit by block_lia.
  eexists. split; [reflexivity |].
  rewrite length_blit; block_lia.
Qed.

(** A round of the decompression loop where the frame ends: the loop is
    left, nothing is written and no error is recorded. *)
Lemma decompress_round_end nOptions st :
  has_flag nOptions OPT_RAW = false ->
  frame_end (rest (d_in st)) ->
  exists f outdata,
    decompress_round lz4ultra_expand_block nOptions st =
    (true,
     DState f (d_filesize st) (d_written st) outdata (d_prev st) (d_error st)).
Proof.
  intros Hraw [Hshort | (hdr & body & Hrest & Hlen & Hend)];
    unfold decompress_round.
  - rewrite (next_block_size_truncated nOptions (d_in st) (d_filesize st)
               Hraw Hshort).
    change (negb (0 =? 0)) with false. cbv iota.
    eexists. eexists. reflexivity.
  - rewrite (next_block_size_header nOptions (d_in st) (d_filesize st)
               hdr body Hraw Hrest Hlen).
    destruct (read_block_size hdr =? 0) eqn:Hzero; cbn [negb].
    + eexists. eexists. reflexivity.
    + apply Z.eqb_neq in Hzero.
      destruct Hend as [Hend | Hend]; [contradiction |].
      rewrite fread_short by (cbn [rest]; exact Hend).
      cbn [rest].
      replace (Z.of_nat (length body)
               =? Z.land (read_block_size hdr) 2147483647) with false
        by (symmetry; apply Z.eqb_neq; lia).
      eexists. eexists. reflexivity.
Qed.

Lemma decompress_loop_step fuel nOptions st :
  decompress_loop lz4ultra_expand_block (S fuel) nOptions st =
  if negb (at_eof (d_in st)) && (d_error st =? 0) then
    let '(stop, st') := decompress_round lz4ultra_expand_block nOptions st in
    if stop then Some st'
    else decompress_loop lz4ultra_expand_block fuel nOptions st'
  else Some st.
Proof. reflexivity. Qed.

(** The decompression loop on stored blocks followed by the end of the
    frame. *)
Lemma decompress_loop_stored nOptions : forall (n : nat) data fuel st tail,
  has_flag nOptions OPT_RAW = false ->
  rest (d_in st) = stored_blocks n data ++ tail ->
  frame_end tail ->
  at_eof (d_in st) = false -> d_error st = 0 ->
  Z.of_nat (length (d_outdata st)) = BLOCK_SIZE * 2 ->
  0 <= d_prev st <= BLOCK_SIZE ->
  (length data <= n)%nat -> (length (rest (d_in st)) < fuel)%nat ->
  exists st',
    decompress_loop lz4ultra_expand_block fuel nOptions st = Some st' /\
    d_error st' = 0 /\ d_written st' = d_written st ++ data.
Proof.
  induction n as [| n IH];
    intros data fuel st tail Hraw Hrest Hend Heof Herr Hbuf Hprev Hlen Hfuel.
  - assert (data = []) by (apply nil_length_inv; lia). subst data.
    destruct fuel as [| fuel]; [lia |].
    rewrite decompress_loop_step, Heof, Herr. cbn [negb andb Z.eqb].
    cbn [stored_blocks app] in Hrest. rewrite <- Hrest in Hend.
    destruct (decompress_round_end nOptions st Hraw Hend)
      as (f & outdata & Hround).
    rewrite Hround. cbv beta iota. eexists. split; [reflexivity |].
    cbn [d_error d_written]. rewrite app_nil_r. auto.
  - destruct fuel as [| fuel]; [lia |].
    rewrite decompress_loop_step, Heof, Herr. cbn [negb andb Z.eqb].
    destruct (decide (data = [])) as [Hnil | Hne].
    + subst data. rewrite stored_blocks_nil in Hrest.
      cbn [app] in Hrest. rewrite <- Hrest in Hend.
      destruct (decompress_round_end nOptions st Hraw Hend)
        as (f & outdata & Hround).
      rewrite Hround. cbv beta iota. eexists. split; [reflexivity |].
      cbn [d_error d_written]. rewrite app_nil_r. auto.
    + rewrite stored_blocks_cons, <- !app_assoc in Hrest by exact Hne.
      set (chunk := take (Z.to_nat BLOCK_SIZE) data) in *.
      assert (Hchunk : Z.of_nat (length chunk) <= BLOCK_SIZE).
      { subst chunk. rewrite length_take. lia. }
      destruct (decompress_round_stored nOptions st chunk _ Hraw Hrest
                  (take_block_nonempty _ Hne) Hchunk Hbuf Hprev)
        as (outdata & Hround & Hbuf').
      rewrite Hround. cbv beta iota.
      match goal with
      | |- context [decompress_loop _ _ _ ?st1] =>
          destruct (IH (drop (Z.to_nat BLOCK_SIZE) data) fuel st1 tail)
            as (st' & Hloop & He & Hw)
      end; try assumption; try reflexivity;
        try (rewrite length_drop; block_lia);
        try (cbn [d_prev]; lia);
        try (cbn [d_in rest]; rewrite Hrest in Hfuel;
             unfold block_header in Hfuel; rewrite !length_app in Hfuel;
             rewrite length_app; cbn [length] in *; lia).
      exists st'. split; [exact Hloop |]. split; [exact He |].
      rewrite Hw. cbn [d_written]. rewrite <- app_assoc.
      subst chunk. rewrite take_drop. reflexivity.
Qed.

(** A frame of stored blocks read by [lz4ultra_decompress] up to the end of
    the frame. *)
Lemma decompress_stored_frame nOptions w fin fout data tail :
  has_flag nOptions OPT_RAW = false ->
  files w !! fin
    = Some (frame_header ++ stored_blocks (length data) data ++ tail) ->
  frame_end tail ->
  fopen_wb w fout = true ->
  lz4ultra_decompress lz4ultra_expand_block w fin fout nOptions
  = Some (0, fclose_wb w fout data, []).
Proof.
  intros Hraw Hfile Hend Hout.
  unfold lz4ultra_decompress, fopen_rb. rewrite Hfile.
  cbn [fmap option_fmap option_map].
  rewrite open_compressed_framed by exact Hraw. rewrite Hout.
  cbn [negb rest].
  match goal with
  | |- context [decompress_loop _ ?fuel _ ?st] =>
      destruct (decompress_loop_stored nOptions (length data) data fuel st
                  tail Hraw)
        as (st' & Hloop & He & Hw)
  end;
    [ reflexivity | exact Hend | reflexivity | reflexivity
    | cbn [d_outdata]; rewrite length_replicate; block_lia
    | cbn [d_prev]; block_lia
    | lia
    | cbn [d_in rest]; lia | ].
  rewrite Hloop, He, Hw. reflexivity.
Qed.

Lemma frame_end_mark more : frame_end (x00 :: x00 :: x00 :: x00 :: more).
Proof.
  right. exists [x00; x00; x00; x00], more.
  repeat apply conj; [reflexivity | reflexivity | left; reflexivity].
Qed.

End StoredBlocks.

Section StoredRoundTrip.

Variable lsza_compressor : Type.
Variable lz4ultra_compressor_init : Z -> Z * lsza_compressor.
Variable lz4ultra_shrink_block :
  lsza_compressor -> list byte -> Z -> Z -> Z -> Z * list byte * lsza_compressor.
Variable lz4ultra_compressor_get_command_count : lsza_compressor -> Z.
Variable lz4ultra_expand_block :
  list byte -> list byte -> Z -> Z -> Z * list byte.

Lemma refuses_every_block_step fuel c prev data :
  data <> [] ->
  refuses_every_block lz4ultra_shrink_block (S fuel) c prev data =
  let chunk := take (Z.to_nat BLOCK_SIZE) data in
  let n := Z.of_nat (length chunk) in
  let '(nOutDataSize, _, c1) :=
    lz4ultra_shrink_block c (prev ++ chunk) (Z.of_nat (length prev)) n
      (if BLOCK_SIZE <=? n then BLOCK_SIZE else n) in
  (nOutDataSize <? 0)
  && refuses_every_block lz4ultra_shrink_block fuel c1 chunk
       (drop (Z.to_nat BLOCK_SIZE) data).
Proof. destruct data; [congruence | reflexivity]. Qed.

(** When the compressor refuses each block that it is given for [data], the
    blocks of the frame are the stored blocks of [data]. *)
Lemma blocks_of_refused : forall fuel c prev data,
  refuses_every_block lz4ultra_shrink_block fuel c prev data = true ->
  (blocks_of lz4ultra_shrink_block false fuel c prev data).1
  = (stored_blocks fuel data, false, []).
Proof.
  induction fuel as [| fuel IH]; intros c prev data Hno; [reflexivity |].
  destruct (decide (data = [])) as [-> | Hne]; [reflexivity |].
  rewrite (blocks_of_step _ _ _ _ _ _ Hne). cbv zeta.
  rewrite andb_false_r.
  rewrite (refuses_every_block_step _ _ _ _ Hne) in Hno. cbv zeta in Hno.
  destruct (lz4ultra_shrink_block _ _ _ _ _) as [[nOut outdata] c1].
  apply andb_prop in Hno as [Hneg Hrest].
  apply Z.ltb_lt in Hneg.
  replace (0 <=? nOut) with false by (symmetry; apply Z.leb_gt; exact Hneg).
  specialize (IH c1 _ _ Hrest).
  destruct (blocks_of lz4ultra_shrink_block false fuel c1 _ _)
    as [[[more err] d] c2].
  cbn [fst] in IH. injection IH as -> -> ->.
  rewrite (stored_blocks_cons _ _ Hne). reflexivity.
Qed.

(** X6.  When the compressor refuses each block of the input that it is
    given (whatever it would do with other data), [lz4ultra_compress] in
    framed mode writes the frame header, the input cut into stored blocks of
    at most 65536 bytes, each after its 4-byte header, and the end mark; and
    [lz4ultra_decompress] turns that file back into the input, whatever
    follows the end mark and whatever block decompressor it is given. *)
Theorem stored_frame_round_trip
    (w : world) (fin fout : string) (data : list byte) (nOptions : Z) :
  files w !! fin = Some data ->
  fin <> fout ->
  fopen_wb w fout = true ->
  (lz4ultra_compressor_init (BLOCK_SIZE * 2)).1 = 0 ->
  has_flag nOptions OPT_RAW = false ->
  has_flag nOptions OPT_VERBOSE = false ->
  refuses_every_block lz4ultra_shrink_block (length data)
    (lz4ultra_compressor_init (BLOCK_SIZE * 2)).2 [] data = true ->
  let framed :=
    frame_header ++ stored_blocks (length data) data ++ [x00; x00; x00; x00] in
  lz4ultra_compress lz4ultra_compressor_init lz4ultra_shrink_block
    lz4ultra_compressor_get_command_count w fin fout nOptions
  = Some (0, fclose_wb w fout framed, []) /\
  (forall w' fout' more,
     files w' !! fout = Some (framed ++ more) ->
     fout <> fout' ->
     fopen_wb w' fout' = true ->
     lz4ultra_decompress lz4ultra_expand_block w' fout fout' nOptions
     = Some (0, fclose_wb w' fout' data, [])).
Proof.
  intros Hfile Hdiff Hout Hinit Hraw Hverbose Hno framed. split.
  - rewrite (lz4ultra_compress_blocks _ _ _ _ w fin fout data nOptions
               Hfile Hout Hinit).
    rewrite Hraw, Hverbose.
    pose proof (blocks_of_refused _ _ _ _ Hno) as Hblocks.
    destruct (blocks_of lz4ultra_shrink_block false (length data) _ [] data)
      as [[[blocks err] d] c].
    cbn [fst] in Hblocks. injection Hblocks as -> -> ->.
    reflexivity.
  - intros w' fout' more Hfile' Hdiff' Hout'.
    apply (decompress_stored_frame lz4ultra_expand_block nOptions w' fout fout'
             data (x00 :: x00 :: x00 :: x00 :: more));
      [exact Hraw | | apply frame_end_mark | exact Hout'].
    rewrite Hfile'. subst framed. rewrite <- !app_assoc. reflexivity.
Qed.

End StoredRoundTrip.

Lemma stored_frame_round_trip_witness :
  let w := world_of [("in"%string, [x61; x62])] in
  let framed :=
    frame_header ++ stored_blocks (length [x61; x62]) [x61; x62]
      ++ [x00; x00; x00; x00] in
  lz4ultra_compress accepting_init picky_shrink accepting_count
    w "in" "out" 0
  = Some (0, fclose_wb w "out" framed, []) /\
  (forall w' fout' more,
     files w' !! "out"%string = Some (framed ++ more) ->
     "out"%string <> fout' ->
     fopen_wb w' fout' = true ->
     lz4ultra_decompress expand_block_model w' "out" fout' 0
     = Some (0, fclose_wb w' fout' [x61; x62], [])).
Proof.
  apply (stored_frame_round_trip unit accepting_init picky_shrink
           accepting_count expand_block_model
           (world_of [("in"%string, [x61; x62])]) "in" "out" [x61; x62] 0).
  - reflexivity.
  - discriminate.
  - reflexivity.
  - reflexivity.
  - reflexivity.
  - reflexivity.
  - vm_compute. reflexivity.
Defined.

(** ** Comparing a frame of stored blocks with the original *)

Section StoredCompare.

Variable lz4ultra_expand_block :
  list byte -> list byte -> Z -> Z -> Z * list byte.

(** A round of the comparison loop on a stored block that holds the next
    bytes of the original. *)
Lemma compare_round_stored nOptions st chunk tail :
  has_flag nOptions OPT_RAW = false ->
  rest (v_in st) =
    block_header (Z.of_nat (length chunk)) true ++ chunk ++ tail ->
  chunk <> [] -> Z.of_nat (length chunk) <= BLOCK_SIZE ->
  take (Z.to_nat BLOCK_SIZE) (rest (v_orig st)) = chunk ->
  Z.of_nat (length (v_outdata st)) = BLOCK_SIZE * 2 ->
  0 <= v_prev st <= BLOCK_SIZE ->
  exists outdata,
    compare_round lz4ultra_expand_block nOptions st =
    (false,
     VState (RFile tail (at_eof (v_in st))) (v_filesize st)
       (fread BLOCK_SIZE (v_orig st)).2 outdata (Z.of_nat (length chunk))
       (v_error st) (v_mismatch st) (v_total st + Z.of_nat (length chunk))
       (v_total st)) /\
    Z.of_nat (length outdata) = BLOCK_SIZE * 2.
Proof.
  intros Hraw Hrest Hne Hle Horig Hbuf Hprev. unfold compare_round.
  pose proof (length_carry (v_outdata st) (BLOCK_SIZE - v_prev st) (v_prev st)
                Hbuf Hprev ltac:(lia) ltac:(block_lia)) as Hl1.
  set (outdata1 := if v_prev st =? 0 then v_outdata st else _) in *.
  destruct (fread_take BLOCK_SIZE (v_orig st) ltac:(block_lia)) as (Hcmp & _).
  destruct (fread BLOCK_SIZE (v_orig st)) as [comparedata orig1].
  cbn [fst snd] in *. rewrite Horig in Hcmp. subst comparedata.
  rewrite (next_block_size_header nOptions (v_in st) (v_filesize st) _ _
             Hraw Hrest eq_refl).
  assert (Hpos : 0 < Z.of_nat (length chunk))
    by (destruct chunk; [congruence | simpl; lia]).
  destruct (block_header_fields (Z.of_nat (length chunk)) true
              ltac:(block_lia)) as (_ & Hsize & Hflag & Hzero).
  set (v := read_block_size _) in *.
  assert (Hv : (v =? 0) = false).
  { apply Z.eqb_neq. intros Hv0. apply Hzero in Hv0 as [_ Hv0]. discriminate. }
  rewrite Hv, Hflag, Hsize. cbn [negb].
  rewrite fread_enough by (cbn [rest]; rewrite length_app; lia).
  cbn [rest at_eof]. rewrite Nat2Z.id.
  rewrite take_app_length, drop_app_length.
  rewrite !Z.eqb_refl.
  replace (Z.of_nat (length chunk) <? 0) with false
    by (symmetry; apply Z.ltb_ge; lia).
  rewrite slice_blit by block_lia. rewrite bytes_eqb_refl.
  eexists. split; [reflexivity |].
  rewrite length_blit; block_lia.
Qed.

(** A round of the comparison loop on the end mark: the loop is left, and
    what is left of the original is not looked at. *)
Lemma compare_round_end nOptions st more :
  has_flag nOptions OPT_RAW = false ->
  rest (v_in st) = x00 :: x00 :: x00 :: x00 :: more ->
  exists orig1 outdata,
    compare_round lz4ultra_expand_block nOptions st =
    (true,
     VState (RFile more (at_eof (v_in st))) (v_filesize st) orig1 outdata
       (v_prev st) (v_error st) (v_mismatch st) (v_total st) (v_good st)).
Proof.
  intros Hraw Hrest. unfold compare_round.
  destruct (fread BLOCK_SIZE (v_orig st)) as [comparedata orig1].
  rewrite (next_block_size_header nOptions (v_in st) (v_filesize st)
             [x00; x00; x00; x00] more Hraw Hrest eq_refl).
  change (read_block_size [x00; x00; x00; x00]) with 0.
  change (negb (0 =? 0)) with false. cbv iota.
  eexists. eexists. reflexivity.
Qed.

Lemma compare_loop_step fuel nOptions st :
  compare_loop lz4ultra_expand_block (S fuel) nOptions st =
  if negb (at_eof (v_in st)) && (v_error st =? 0) && negb (v_mismatch st)
  then
    let '(stop, st') := compare_round lz4ultra_expand_block nOptions st in
    if stop then Some st'
    else compare_loop lz4ultra_expand_block fuel nOptions st'
  else Some st.
Proof. reflexivity. Qed.

(** The comparison loop on a frame of stored blocks, against an original
    that starts with the stored bytes. *)
Lemma compare_loop_stored nOptions :
  forall (n : nat) data fuel st more extra,
  has_flag nOptions OPT_RAW = false ->
  rest (v_in st) = stored_blocks n data ++ x00 :: x00 :: x00 :: x00 :: more ->
  rest (v_orig st) = data ++ extra ->
  extra = [] \/ Z.of_nat (length data) mod BLOCK_SIZE = 0 ->
  at_eof (v_in st) = false -> v_error st = 0 -> v_mismatch st = false ->
  Z.of_nat (length (v_outdata st)) = BLOCK_SIZE * 2 ->
  0 <= v_prev st <= BLOCK_SIZE ->
  (length data <= n)%nat -> (length (rest (v_in st)) < fuel)%nat ->
  exists st',
    compare_loop lz4ultra_expand_block fuel nOptions st = Some st' /\
    v_error st' = 0 /\ v_mismatch st' = false.
Proof.
  induction n as [| n IH];
    intros data fuel st more extra Hraw Hrest Horig Hextra Heof Herr Hmis
           Hbuf Hprev Hlen Hfuel.
  - assert (data = []) by (apply nil_length_inv; lia). subst data.
    destruct fuel as [| fuel]; [lia |].
    rewrite compare_loop_step, Heof, Herr, Hmis. cbn [negb andb Z.eqb].
    destruct (compare_round_end nOptions st more Hraw Hrest)
      as (orig1 & outdata & Hround).
    rewrite Hround. cbv beta iota. eexists. split; [reflexivity |].
    cbn [v_error v_mismatch]. auto.
  - destruct fuel as [| fuel]; [lia |].
    rewrite compare_loop_step, Heof, Herr, Hmis. cbn [negb andb Z.eqb].
    destruct (decide (data = [])) as [Hnil | Hne].
    + subst data. rewrite stored_blocks_nil in Hrest.
      destruct (compare_round_end nOptions st more Hraw Hrest)
        as (orig1 & outdata & Hround).
      rewrite Hround. cbv beta iota. eexists. split; [reflexivity |].
      cbn [v_error v_mismatch]. auto.
    + rewrite stored_blocks_cons, <- !app_assoc in Hrest by exact Hne.
      set (chunk := take (Z.to_nat BLOCK_SIZE) data) in *.
      assert (Hchunk : Z.of_nat (length chunk) <= BLOCK_SIZE).
      { subst chunk. rewrite length_take. lia. }
      assert (Hpos : 0 < Z.of_nat (length data))
        by (destruct data; [congruence | simpl; lia]).
      assert (Hsplit : take (Z.to_nat BLOCK_SIZE) (data ++ extra) = chunk /\
                       drop (Z.to_nat BLOCK_SIZE) (data ++ extra)
                       = drop (Z.to_nat BLOCK_SIZE) data ++ extra /\
                       (extra = [] \/
                        Z.of_nat (length (drop (Z.to_nat BLOCK_SIZE) data))
                          mod BLOCK_SIZE = 0)).
      { destruct Hextra as [-> | Hmod].
        - rewrite !app_nil_r. auto.
        - assert (Hfull : BLOCK_SIZE <= Z.of_nat (length data)).
          { unfold BLOCK_SIZE in *. Z.div_mod_to_equations. lia. }
          rewrite take_app_le, drop_app_le by lia.
          repeat apply conj; try reflexivity. right.
          rewrite length_drop. unfold BLOCK_SIZE in *.
          replace (Z.of_nat (length data - Z.to_nat 65536))
            with (Z.of_nat (length data) - 65536) by lia.
          Z.div_mod_to_equations. lia. }
      destruct Hsplit as (Htake & Hdrop & Hextra').
      rewrite <- Horig in Htake, Hdrop.
      destruct (compare_round_stored nOptions st chunk _ Hraw Hrest
                  (take_block_nonempty _ Hne) Hchunk Htake Hbuf Hprev)
        as (outdata & Hround & Hbuf').
      rewrite Hround. cbv beta iota.
      destruct (fread_take BLOCK_SIZE (v_orig st) ltac:(block_lia))
        as (_ & Horig' & _).
      rewrite Hdrop in Horig'.
      match goal with
      | |- context [compare_loop _ _ _ ?st1] =>
          destruct (IH (drop (Z.to_nat BLOCK_SIZE) data) fuel st1 more extra)
            as (st' & Hloop & He & Hm)
      end; try assumption; try reflexivity;
        try (rewrite length_drop; block_lia);
        try (cbn [v_prev]; lia);
        try (cbn [v_in rest]; rewrite Hrest in Hfuel;
             unfold block_header in Hfuel; rewrite !length_app in Hfuel;
             rewrite length_app; cbn [length] in *; lia).
      exists st'. auto.
Qed.

(** X7.  [lz4ultra_compare] returns 0, prints nothing and changes no file
    when the compressed file is a frame of stored blocks holding [data] and
    the original is [data]; it does so as well when the original goes on
    after [data] and the size of [data] is a multiple of 65536 (0 included):
    once the end mark is read, what is left of the original is not looked
    at. *)
Theorem compare_accepts_stored_frame
    (w : world) (fcomp forig : string) (data more extra : list byte)
    (nOptions : Z) :
  has_flag nOptions OPT_RAW = false ->
  files w !! fcomp =
    Some (frame_header ++ stored_blocks (length data) data
            ++ [x00; x00; x00; x00] ++ more) ->
  files w !! forig = Some (data ++ extra) ->
  extra = [] \/ Z.of_nat (length data) mod BLOCK_SIZE = 0 ->
  lz4ultra_compare lz4ultra_expand_block w fcomp forig nOptions
  = Some (0, w, []).
Proof.
  intros Hraw Hcomp Horig Hextra.
  unfold lz4ultra_compare, fopen_rb. rewrite Hcomp.
  cbn [fmap option_fmap option_map].
  rewrite open_compressed_framed by exact Hraw. rewrite Horig.
  cbn [fmap option_fmap option_map rest].
  match goal with
  | |- context [compare_loop _ ?fuel _ ?st] =>
      destruct (compare_loop_stored nOptions (length data) data fuel st
                  more extra Hraw)
        as (st' & Hloop & He & Hm)
  end;
    [ reflexivity | reflexivity | exact Hextra
    | reflexivity | reflexivity | reflexivity
    | cbn [v_outdata]; rewrite length_replicate; block_lia
    | cbn [v_prev]; block_lia
    | lia
    | cbn [v_in rest]; lia | ].
  rewrite Hloop. unfold compare_report. rewrite He, Hm. reflexivity.
Qed.

End StoredCompare.

Lemma compare_accepts_stored_frame_witness :
  lz4ultra_compare expand_block_model
    (world_of [("packed"%string, frame_header ++ [x00; x00; x00; x00]);
               ("original"%string, [x61; x62; x63])])
    "packed" "original" 0
  = Some (0,
          world_of [("packed"%string, frame_header ++ [x00; x00; x00; x00]);
                    ("original"%string, [x61; x62; x63])],
          []).
Proof.
  apply (compare_accepts_stored_frame expand_block_model
           (world_of [("packed"%string, frame_header ++ [x00; x00; x00; x00]);
                      ("original"%string, [x61; x62; x63])])
           "packed" "original" [] [] [x61; x62; x63] 0).
  - reflexivity.
  - reflexivity.
  - reflexivity.
  - right. reflexivity.
Defined.

(** ** Frames that are cut short, and files that are no frames *)

Lemma to_N_inj (a b : byte) : Byte.to_N a = Byte.to_N b -> a = b.
Proof.
  intros H. pose proof (Byte.of_to_N a) as Ha. rewrite H in Ha.
  rewrite Byte.of_to_N in Ha. congruence.
Qed.

Lemma bytes_eqb_eq a : forall b, bytes_eqb a b = true <-> a = b.
Proof.
  intros b. unfold bytes_eqb. rewrite bool_decide_eq_true.
  split; [| congruence]. revert b.
  induction a as [| x a IH]; intros [| y b] H; try discriminate;
    [reflexivity |].
  injection H as Hx Hab. f_equal; [apply to_N_inj; exact Hx | apply IH; exact Hab].
Qed.

Lemma open_compressed_invalid nOptions data :
  has_flag nOptions OPT_RAW = false ->
  take 7 data <> frame_header ->
  open_compressed nOptions (RFile data false)
  = inl (if Z.of_nat (length data) <? 7 then DiagReadHeader
         else DiagBadHeader).
Proof.
  intros Hraw Hbad. unfold open_compressed. rewrite Hraw.
  destruct (Z.of_nat (length data) <? 7) eqn:Hshort.
  - apply Z.ltb_lt in Hshort. rewrite fread_short by (cbn [rest]; lia).
    cbn [rest].
    replace (Z.of_nat (length data) =? 7) with false
      by (symmetry; apply Z.eqb_neq; lia).
    reflexivity.
  - apply Z.ltb_ge in Hshort. rewrite fread_enough by (cbn [rest]; lia).
    cbn [rest at_eof]. change (Z.to_nat 7) with 7%nat.
    replace (Z.of_nat (length (take 7 data)) =? 7) with true
      by (symmetry; apply Z.eqb_eq; rewrite length_take; lia).
    cbn [negb].
    destruct (bytes_eqb (take 7 data) frame_header) eqn:Heq; [| reflexivity].
    apply bytes_eqb_eq in Heq. contradiction.
Qed.

Section Rejections.

Variable lsza_compressor : Type.
Variable lz4ultra_compressor_init : Z -> Z * lsza_compressor.
Variable lz4ultra_shrink_block :
  lsza_compressor -> list byte -> Z -> Z -> Z -> Z * list byte * lsza_compressor.
Variable lz4ultra_compressor_get_command_count : lsza_compressor -> Z.
Variable lz4ultra_expand_block :
  list byte -> list byte -> Z -> Z -> Z * list byte.

(** X8.  A frame that is cut in the middle of a block, stored or compressed,
    is not an error for [lz4ultra_decompress]: the stored blocks before the
    cut are written, the block that is cut is dropped, and the status is 0
    with nothing printed.  (What is left of the cut block fits the 65536
    bytes of [pInBlock].) *)
Theorem truncated_block_is_dropped
    (w : world) (fin fout : string) (data hdr body : list byte)
    (nOptions : Z) :
  has_flag nOptions OPT_RAW = false ->
  files w !! fin =
    Some (frame_header ++ stored_blocks (length data) data ++ hdr ++ body) ->
  length hdr = 4%nat ->
  Z.of_nat (length body) < Z.land (read_block_size hdr) 2147483647 ->
  Z.of_nat (length body) <= BLOCK_SIZE ->
  fin <> fout ->
  fopen_wb w fout = true ->
  lz4ultra_decompress lz4ultra_expand_block w fin fout nOptions
  = Some (0, fclose_wb w fout data, []).
Proof.
  intros Hraw Hfile Hlen Hcut Hfits Hdiff Hout.
  apply (decompress_stored_frame lz4ultra_expand_block nOptions w fin fout
           data (hdr ++ body)); [exact Hraw | exact Hfile | | exact Hout].
  right. exists hdr, body. auto.
Qed.

(** X9.  In framed mode a file that does not start with the 7 bytes of the
    frame header is refused by [lz4ultra_decompress] and by
    [lz4ultra_compare] with status 100 before any other file is opened: no
    file is created or changed, and the diagnostic tells a file shorter than
    7 bytes from a wrong header. *)
Theorem invalid_header_is_rejected
    (w : world) (fin fout : string) (data : list byte) (nOptions : Z) :
  has_flag nOptions OPT_RAW = false ->
  files w !! fin = Some data ->
  take 7 data <> frame_header ->
  let d := if Z.of_nat (length data) <? 7 then DiagReadHeader
           else DiagBadHeader in
  lz4ultra_decompress lz4ultra_expand_block w fin fout nOptions
    = Some (100, w, [d]) /\
  lz4ultra_compare lz4ultra_expand_block w fin fout nOptions
    = Some (100, w, [d]).
Proof.
  intros Hraw Hfile Hbad d. subst d.
  unfold lz4ultra_decompress, lz4ultra_compare, fopen_rb. rewrite Hfile.
  cbn [fmap option_fmap option_map].
  rewrite (open_compressed_invalid nOptions data Hraw Hbad).
  split; reflexivity.
Qed.

End Rejections.

Lemma truncated_block_is_dropped_witness :
  lz4ultra_decompress expand_block_model
    (world_of [("packed"%string,
                frame_header ++ stored_blocks 1 [x61]
                  ++ block_header 3 true ++ [x62])])
    "packed" "out" 0
  = Some (0,
          fclose_wb
            (world_of [("packed"%string,
                        frame_header ++ stored_blocks 1 [x61]
                          ++ block_header 3 true ++ [x62])])
            "out" [x61],
          []).
Proof.
  apply (truncated_block_is_dropped expand_block_model
           (world_of [("packed"%string,
                       frame_header ++ stored_blocks 1 [x61]
                         ++ block_header 3 true ++ [x62])])
           "packed" "out" [x61] (block_header 3 true) [x62] 0).
  - reflexivity.
  - reflexivity.
  - reflexivity.
  - vm_compute. reflexivity.
  - vm_compute. discriminate.
  - discriminate.
  - reflexivity.
Defined.

Lemma invalid_header_is_rejected_witness :
  lz4ultra_decompress expand_block_model
    (world_of [("packed"%string, [x04; x22; x4d; x18; x40; x70; xc0])])
    "packed" "out" 0
    = Some (100,
            world_of [("packed"%string, [x04; x22; x4d; x18; x40; x70; xc0])],
            [DiagBadHeader]) /\
  lz4ultra_compare expand_block_model
    (world_of [("packed"%string, [x04; x22; x4d; x18; x40; x70; xc0])])
    "packed" "out" 0
    = Some (100,
            world_of [("packed"%string, [x04; x22; x4d; x18; x40; x70; xc0])],
            [DiagBadHeader]).
Proof.
  apply (invalid_header_is_rejected expand_block_model
           (world_of [("packed"%string, [x04; x22; x4d; x18; x40; x70; xc0])])
           "packed" "out" [x04; x22; x4d; x18; x40; x70; xc0] 0).
  - reflexivity.
  - reflexivity.
  - discriminate.
Defined.

(** ** The command line of the first [main] *)

Lemma filter_snoc (p : string -> bool) l a :
  List.filter p (l ++ [a]) = List.filter p l ++ (if p a then [a] else []).
Proof. rewrite List.filter_app. reflexivity. Qed.

Lemma file_names_snoc l a :
  file_names (l ++ [a]) = file_names l ++ (if is_option a then [] else [a]).
Proof.
  unfold file_names. rewrite filter_snoc.
  destruct (is_option a); reflexivity.
Qed.

Lemma count_if_snoc p l a :
  count_if p (l ++ [a]) = (count_if p l + (if p a then 1 else 0))%nat.
Proof.
  unfold count_if. rewrite filter_snoc, length_app.
  destruct (p a); reflexivity.
Qed.

Lemma first_command_snoc l a :
  first_command (l ++ [a]) =
  if is_command a && (count_if is_command l =? 0)%nat
  then (if String.eqb a "-d" then "d" else "z")%string
  else first_command l.
Proof.
  unfold first_command, count_if. rewrite filter_snoc.
  destruct (List.filter is_command l) as [| x r]; cbn [length Nat.eqb app].
  - destruct (is_command a); reflexivity.
  - rewrite andb_false_r. reflexivity.
Qed.

Lemma parse_args_snoc l a :
  parse_args (l ++ [a]) = parse_arg a (parse_args l).
Proof. unfold parse_args. rewrite fold_left_app. reflexivity. Qed.

Lemma arg_cases a :
  a = "-d"%string \/ a = "-z"%string \/ a = "-c"%string \/
  a = "-v"%string \/ a = "-r"%string \/
  (String.eqb a "-d" = false /\ String.eqb a "-z" = false /\
   String.eqb a "-c" = false /\ String.eqb a "-v" = false /\
   String.eqb a "-r" = false /\
   is_command a = false /\ is_check a = false /\ is_verbose a = false /\
   is_raw a = false /\ is_option a = false).
Proof.
  unfold is_option, is_command, is_check, is_verbose, is_raw.
  destruct (String.eqb_spec a "-d"); [auto |].
  destruct (String.eqb_spec a "-z"); [auto |].
  destruct (String.eqb_spec a "-c"); [auto |].
  destruct (String.eqb_spec a "-v"); [auto |].
  destruct (String.eqb_spec a "-r"); [auto 6 |].
  repeat right. repeat apply conj; reflexivity.
Qed.

Ltac eval_bool t :=
  let v := eval vm_compute in t in change t with v.

Ltac eval_arg s :=
  eval_bool (is_command s); eval_bool (is_check s); eval_bool (is_verbose s);
  eval_bool (is_raw s); eval_bool (is_option s);
  eval_bool (String.eqb s "-d"); eval_bool (String.eqb s "-z");
  eval_bool (String.eqb s "-c"); eval_bool (String.eqb s "-v");
  eval_bool (String.eqb s "-r").

Ltac finish_step Herr :=
  cbn [pszInFilename pszOutFilename bArgsError bCommandDefined
       bVerifyCompression cCommand nOptions];
  rewrite ?Nat.add_0_r;
  repeat apply conj; try assumption; try reflexivity;
  try (intros _; lia);
  try (let H := fresh in intros H; apply Herr in H; lia);
  try (let H := fresh in intros H; apply Herr; lia);
  try (repeat match goal with
              | |- context [(?n =? 0)%nat] => destruct (Nat.eqb_spec n 0)
              end; cbn [negb]; first [reflexivity | congruence | lia]).

Lemma parsed_step l c a : parsed l c -> parsed (l ++ [a]) (parse_arg a c).
Proof.
  intros (Hin & Hout & Hcmd & Hchk & Hopt & Hfirst & Herr).
  unfold parsed, bad_args in *.
  rewrite file_names_snoc, !count_if_snoc, first_command_snoc, length_app.
  unfold parse_arg.
  destruct (arg_cases a) as [-> | [-> | [-> | [-> | [-> | Hno]]]]].
  - eval_arg "-d"%string. cbv iota. cbn [length]. rewrite app_nil_r.
    destruct (bCommandDefined c) eqn:Hb;
      destruct (Nat.eqb_spec (count_if is_command l) 0) as [Hz | Hz];
      try discriminate; finish_step Herr.
  - eval_arg "-z"%string. cbv iota. cbn [length]. rewrite app_nil_r.
    destruct (bCommandDefined c) eqn:Hb;
      destruct (Nat.eqb_spec (count_if is_command l) 0) as [Hz | Hz];
      try discriminate; finish_step Herr.
  - eval_arg "-c"%string. cbv iota. cbn [length]. rewrite app_nil_r.
    destruct (bVerifyCompression c) eqn:Hb;
      destruct (Nat.eqb_spec (count_if is_check l) 0) as [Hz | Hz];
      try discriminate; finish_step Herr.
  - eval_arg "-v"%string. cbv iota. cbn [length]. rewrite app_nil_r.
    rewrite Hopt.
    destruct (Nat.eqb_spec (count_if is_verbose l) 0) as [Hz | Hz];
      destruct (Nat.eqb_spec (count_if is_raw l) 0) as [Hr | Hr];
      cbn [negb];
      match goal with
      | |- context [has_flag ?n ?f] => eval_bool (has_flag n f)
      end; cbv iota; finish_step Herr.
  - eval_arg "-r"%string. cbv iota. cbn [length]. rewrite app_nil_r.
    rewrite Hopt.
    destruct (Nat.eqb_spec (count_if is_verbose l) 0) as [Hz | Hz];
      destruct (Nat.eqb_spec (count_if is_raw l) 0) as [Hr | Hr];
      cbn [negb];
      match goal with
      | |- context [has_flag ?n ?f] => eval_bool (has_flag n f)
      end; cbv iota; finish_step Herr.
  - destruct Hno as (Hd & Hz & Hc & Hv & Hr & Hcmd' & Hchk' & Hvb' & Hrw' & Ho).
    rewrite Hd, Hz, Hc, Hv, Hr, Hcmd', Hchk', Hvb', Hrw', Ho.
    cbn [andb]. rewrite Hin, Hout.
    destruct (file_names l) as [| x [| y r]]; cbn [lookup list_lookup app length] in *;
      finish_step Herr.
Qed.

Lemma parse_args_parsed args : parsed args (parse_args args).
Proof.
  induction args as [| a l IH] using rev_ind.
  - unfold parsed, bad_args, parse_args, first_command, count_if, file_names.
    cbn. repeat apply conj; try reflexivity; [intros H; discriminate |].
    intros H. lia.
  - rewrite parse_args_snoc. apply parsed_step. exact IH.
Qed.

Section CommandLine.

Variable lsza_compressor : Type.
Variable lz4ultra_compressor_init : Z -> Z * lsza_compressor.
Variable lz4ultra_shrink_block :
  lsza_compressor -> list byte -> Z -> Z -> Z -> Z * list byte * lsza_compressor.
Variable lz4ultra_compressor_get_command_count : lsza_compressor -> Z.
Variable lz4ultra_expand_block :
  list byte -> list byte -> Z -> Z -> Z * list byte.

(** X11.  The first [main] prints its usage, returns 100 and opens no file
    whenever the command line does not hold exactly two file names, holds
    two commands ([-d], [-z], the same or not), or holds one of [-c], [-v],
    [-r] twice, wherever these stand on the command line. *)
Theorem main_refuses_bad_command_line (w : world) (argv : list string) :
  bad_args argv \/ length (file_names argv) <> 2%nat ->
  main lz4ultra_compressor_init lz4ultra_shrink_block
    lz4ultra_compressor_get_command_count lz4ultra_expand_block w argv
  = Some (100, w, [DiagUsage]).
Proof.
  intros Hbad.
  destruct (parse_args_parsed argv) as (Hin & Hout & _ & _ & _ & _ & Herr).
  unfold main. cbv zeta. rewrite Hin, Hout.
  destruct (file_names argv) as [| x [| y r]] eqn:Hnames;
    cbn [lookup list_lookup]; try reflexivity.
  replace (bArgsError (parse_args argv)) with true; [reflexivity |].
  symmetry. apply Herr. destruct Hbad as [Hbad | Hlen]; [exact Hbad |].
  left. rewrite Hnames. destruct r; cbn [length] in *; [congruence | lia].
Qed.

(** X12.  On a command line with [-d], two file names and no option given
    twice, in any order, the first [main] is [lz4ultra_decompress] on the
    first file name as input and the second as output, with the option bits
    of exactly those of [-v] and [-r] that are given. *)
Theorem main_decompresses (w : world) (argv : list string)
    (fin fout : string) :
  ~ bad_args argv ->
  file_names argv = [fin; fout] ->
  In "-d"%string argv ->
  main lz4ultra_compressor_init lz4ultra_shrink_block
    lz4ultra_compressor_get_command_count lz4ultra_expand_block w argv
  = lz4ultra_decompress lz4ultra_expand_block w fin fout
      (flags_value (negb (count_if is_verbose argv =? 0)%nat)
                   (negb (count_if is_raw argv =? 0)%nat)).
Proof.
  intros Hgood Hnames Hd.
  destruct (parse_args_parsed argv) as (Hin & Hout & _ & _ & Hopt & Hcmd & Herr).
  assert (Hfirst : first_command argv = "d"%string).
  { assert (Hone : ~ (1 < count_if is_command argv)%nat)
      by (intros H; apply Hgood; right; left; exact H).
    assert (Hmem : In "-d"%string (List.filter is_command argv))
      by (apply List.filter_In; split; [exact Hd | reflexivity]).
    unfold first_command, count_if in *.
    destruct (List.filter is_command argv) as [| x [| y r]];
      cbn [length] in Hone; [destruct Hmem | | lia].
    destruct Hmem as [-> | []]. reflexivity. }
  unfold main. cbv zeta. rewrite Hin, Hout, Hnames.
  cbn [lookup list_lookup].
  destruct (bArgsError (parse_args argv)) eqn:He.
  { exfalso. apply Hgood, Herr. reflexivity. }
  rewrite Hcmd, Hfirst, Hopt. reflexivity.
Qed.

End CommandLine.

Lemma main_refuses_bad_command_line_witness :
  main accepting_init accepting_shrink accepting_count expand_block_model
    (world_of [("a"%string, [x61])]) ["-d"; "a"; "-d"; "b"]%string
  = Some (100, world_of [("a"%string, [x61])], [DiagUsage]).
Proof.
  apply (main_refuses_bad_command_line unit accepting_init accepting_shrink
           accepting_count expand_block_model
           (world_of [("a"%string, [x61])]) ["-d"; "a"; "-d"; "b"]%string).
  left. right. left. vm_compute. lia.
Defined.

Lemma main_decompresses_witness :
  main accepting_init accepting_shrink accepting_count expand_block_model
    (world_of [("a"%string, frame_header ++ [x00; x00; x00; x00])])
    ["a"; "-v"; "b"; "-d"]%string
  = lz4ultra_decompress expand_block_model
      (world_of [("a"%string, frame_header ++ [x00; x00; x00; x00])])
      "a" "b"
      (flags_value
         (negb (count_if is_verbose ["a"; "-v"; "b"; "-d"]%string =? 0)%nat)
         (negb (count_if is_raw ["a"; "-v"; "b"; "-d"]%string =? 0)%nat)).
Proof.
  apply (main_decompresses unit accepting_init accepting_shrink
           accepting_count expand_block_model
           (world_of [("a"%string, frame_header ++ [x00; x00; x00; x00])])
           ["a"; "-v"; "b"; "-d"]%string "a" "b").
  - intros [H | [H | [H | [H | H]]]]; vm_compute in H; lia.
  - reflexivity.
  - simpl. auto.
Defined.

(** ** Whole blocks *)

(** The decoder on a block that the slow loop alone decodes to [st1] without
    meeting an offset 0: it succeeds with the same output position and the same
    bytes below it. *)
Lemma decoder_from_slow_loop pInBlock pOutData nOutDataOffset nBlockMaxSize st1 :
  0 <= nOutDataOffset ->
  slow_loop (S (length pInBlock)) (nOutDataOffset + nBlockMaxSize)
    (nOutDataOffset + nBlockMaxSize - 20)
    (DecState pInBlock pOutData nOutDataOffset []) = Some (Next st1) ->
  nonzero_offsets (seen st1) ->
  exists r,
    lz4ultra_decompressor_expand_block_lz4 pInBlock pOutData
      nOutDataOffset nBlockMaxSize = Some r /\
    r.1 = cur st1 - nOutDataOffset /\
    seen r.2 = seen st1 /\
    agree (cur st1) (out r.2) (out st1).
Proof.
  intros Hoff Hslow Hnz.
  unfold lz4ultra_decompressor_expand_block_lz4, both_loops.
  set (st := DecState pInBlock pOutData nOutDataOffset []) in *.
  pose proof (both_loops_rel (nOutDataOffset + nBlockMaxSize)
                (S (length pInBlock)) (S (length pInBlock))
                (S (length pInBlock)) st st
                (same_decoding_refl st Hoff)) as Hrel.
  cbn [inp st] in Hrel. specialize (Hrel ltac:(lia) ltac:(lia) ltac:(lia)).
  rewrite Hslow in Hrel.
  destruct (match fast_loop _ _ _ st with None => None | Some _ => _ end)
    as [[t1 | t1] |]; cbn [same_outcome same_result] in Hrel;
    try contradiction.
  destruct Hrel as (Hi & Hc & Ht & Hpos & Hlen & Hag).
  exists (finish nOutDataOffset (Next t1)). cbn [finish fst snd fmap option_fmap option_map].
  split; [reflexivity | split; [lia | split; [exact Ht |]]].
  rewrite <- Hc. apply Hag. rewrite Ht. exact Hnz.
Qed.

Lemma slow_loop_step fuel pOutDataEnd pOutDataFastEnd st :
  slow_loop (S fuel) pOutDataEnd pOutDataFastEnd st =
  if 0 <? Z.of_nat (length (inp st)) then
    match slow_token pOutDataEnd pOutDataFastEnd st with
    | Fail st' => Some (Fail st')
    | Next st' => slow_loop fuel pOutDataEnd pOutDataFastEnd st'
    end
  else Some (Next st).
Proof. reflexivity. Qed.

(** The run of literals that a token announces, with its length bytes. *)
Lemma literal_run_read (token : byte) (ext lits : list byte) :
  (literals_nibble token < 15 /\ ext = [] /\
   literals_nibble token = Z.of_nat (length lits)) \/
  (literals_nibble token = 15 /\
   exists (k : nat) (e : byte),
     ext = replicate k xff ++ [e] /\ e <> xff /\
     Z.of_nat (length lits) = 15 + 255 * Z.of_nat k + byte_val e /\
     Z.of_nat (length lits) < 2 ^ 32) ->
  (if literals_nibble token =? LITERALS_RUN_LEN
   then read_run (ext ++ lits) (literals_nibble token)
   else (ext ++ lits, literals_nibble token))
  = (lits, Z.of_nat (length lits)).
Proof.
  unfold LITERALS_RUN_LEN.
  intros [(Hshort & -> & Hn) | (Hlong & k & e & -> & He & Hn & Hsmall)].
  - replace (literals_nibble token =? 15) with false
      by (symmetry; apply Z.eqb_neq; lia).
    rewrite Hn. reflexivity.
  - rewrite Hlong. change (15 =? 15) with true. cbv iota.
    pose proof (byte_val_range e) as Hr.
    rewrite <- app_assoc, read_run_ff by lia.
    cbn [app]. rewrite read_run_end by (assumption || lia).
    rewrite Hn. reflexivity.
Qed.

(** A block of one token and its literals, on any output buffer. *)
Lemma literal_block_decoded
    (token : byte) (ext lits pOutData : list byte)
    (nOutDataOffset nBlockMaxSize : Z) :
  (literals_nibble token < 15 /\ ext = [] /\
   literals_nibble token = Z.of_nat (length lits)) \/
  (literals_nibble token = 15 /\
   exists (k : nat) (e : byte),
     ext = replicate k xff ++ [e] /\ e <> xff /\
     Z.of_nat (length lits) = 15 + 255 * Z.of_nat k + byte_val e /\
     Z.of_nat (length lits) < 2 ^ 32) ->
  0 <= nOutDataOffset ->
  Z.of_nat (length lits) <= nBlockMaxSize ->
  nOutDataOffset + nBlockMaxSize <= Z.of_nat (length pOutData) ->
  exists r,
    lz4ultra_decompressor_expand_block_lz4 (token :: ext ++ lits) pOutData
      nOutDataOffset nBlockMaxSize = Some r /\
    r.1 = Z.of_nat (length lits) /\
    produced nOutDataOffset r = lits.
Proof.
  intros Hrun Hoff Hmax Hbuf.
  apply literal_run_read in Hrun.
  set (n := Z.of_nat (length lits)) in *.
  set (out1 := if n =? 0 then pOutData else store pOutData nOutDataOffset lits).
  destruct (decoder_from_slow_loop (token :: ext ++ lits) pOutData
              nOutDataOffset nBlockMaxSize
              (DecState [] out1 (nOutDataOffset + n) []) Hoff)
    as (r & Hr & Hret & _ & Hag).
  - rewrite slow_loop_step. cbn [inp length].
    replace (0 <? Z.of_nat (S (length (ext ++ lits)))) with true
      by (symmetry; apply Z.ltb_lt; lia).
    unfold slow_token. cbn [inp out cur seen].
    unfold lz4ultra_expand_literals_slow. rewrite Hrun.
    subst out1. destruct (n =? 0) eqn:Hzero.
    + apply Z.eqb_eq in Hzero.
      assert (lits = []) by (apply nil_length_inv; lia). subst lits.
      unfold slow_match. cbn [inp].
      destruct (length (ext ++ [])); cbn [slow_loop inp length];
        rewrite Hzero, Z.add_0_r; reflexivity.
    + replace ((n <=? Z.of_nat (length lits))
               && (nOutDataOffset + n <=? nOutDataOffset + nBlockMaxSize))
        with true
        by (symmetry; apply andb_true_iff; split; apply Z.leb_le; lia).
      subst n. rewrite Nat2Z.id, take_ge, drop_ge by lia.
      unfold slow_match. cbn [inp].
      destruct (length (ext ++ lits)); reflexivity.
  - cbn [seen]. constructor.
  - exists r. split; [exact Hr |]. cbn [cur out] in *.
    split; [lia |].
    unfold produced. rewrite Hret.
    rewrite (agree_take _ _ _ nOutDataOffset
               (nOutDataOffset + n - nOutDataOffset) Hag) by lia.
    replace (nOutDataOffset + n - nOutDataOffset) with n by lia.
    subst out1. destruct (n =? 0) eqn:Hzero.
    + apply Z.eqb_eq in Hzero.
      assert (lits = []) by (apply nil_length_inv; lia). subst lits.
      rewrite Hzero. reflexivity.
    + rewrite store_blit by lia. apply slice_blit; lia.
Qed.

(** X13.  A block that is one token and its literals, the run length in the
    nibble or, from 15 on, in the bytes after the token, is decoded to exactly
    these literals: the decoder returns their number and the bytes it
    produced are the literals, whatever the output buffer held. *)
Theorem literal_block_is_copied
    (token : byte) (ext lits pOutData : list byte)
    (nOutDataOffset nBlockMaxSize : Z) :
  (literals_nibble token < 15 /\ ext = [] /\
   literals_nibble token = Z.of_nat (length lits)) \/
  (literals_nibble token = 15 /\
   exists (k : nat) (e : byte),
     ext = replicate k xff ++ [e] /\ e <> xff /\
     Z.of_nat (length lits) = 15 + 255 * Z.of_nat k + byte_val e /\
     Z.of_nat (length lits) < 2 ^ 32) ->
  0 <= nOutDataOffset ->
  Z.of_nat (length lits) <= nBlockMaxSize ->
  nOutDataOffset + nBlockMaxSize <= Z.of_nat (length pOutData) ->
  exists r,
    lz4ultra_decompressor_expand_block_lz4 (token :: ext ++ lits) pOutData
      nOutDataOffset nBlockMaxSize = Some r /\
    r.1 = Z.of_nat (length lits) /\
    produced nOutDataOffset r = lits.
Proof.
  exact (literal_block_decoded token ext lits pOutData nOutDataOffset
           nBlockMaxSize).
Qed.

(** The length of the match that a token announces, with its length bytes. *)
Lemma match_run_read (token : byte) (ext : list byte) (L : Z) :
  (match_nibble token < 15 /\ ext = [] /\ L = match_nibble token + 4) \/
  (match_nibble token = 15 /\
   exists (k : nat) (e : byte),
     ext = replicate k xff ++ [e] /\ e <> xff /\
     L = 15 + 255 * Z.of_nat k + byte_val e + 4 /\ L < 2 ^ 32) ->
  4 <= L < 2 ^ 32 /\
  (if match_nibble token =? MATCH_RUN_LEN
   then read_run ext (match_nibble token)
   else (ext, match_nibble token))
  = ([], L - 4).
Proof.
  unfold MATCH_RUN_LEN. pose proof (match_nibble_range token) as Hm.
  intros [(Hshort & -> & HL) | (Hlong & k & e & -> & He & HL & Hsmall)].
  - replace (match_nibble token =? 15) with false
      by (symmetry; apply Z.eqb_neq; lia).
    split; [lia |]. f_equal. lia.
  - rewrite Hlong. change (15 =? 15) with true. cbv iota.
    pose proof (byte_val_range e) as Hr.
    split; [lia |].
    rewrite read_run_ff by lia.
    rewrite read_run_end by (assumption || lia).
    f_equal. lia.
Qed.

(** X14.  A block of [p] literals, below 15, followed by a match at offset
    [p] of length [L] repeats the literals: the decoder returns [p + L], and
    byte [j] of what it produced is literal [j mod p], for a match longer
    than its offset as well, on either copy loop, and for a length in the
    nibble or in the bytes after the offset. *)
Theorem literals_then_match_repeat
    (token : byte) (lits ext pOutData : list byte)
    (nOutDataOffset nBlockMaxSize L : Z) :
  0 < Z.of_nat (length lits) < 15 ->
  literals_nibble token = Z.of_nat (length lits) ->
  (match_nibble token < 15 /\ ext = [] /\ L = match_nibble token + 4) \/
  (match_nibble token = 15 /\
   exists (k : nat) (e : byte),
     ext = replicate k xff ++ [e] /\ e <> xff /\
     L = 15 + 255 * Z.of_nat k + byte_val e + 4 /\ L < 2 ^ 32) ->
  0 <= nOutDataOffset ->
  Z.of_nat (length lits) + L <= nBlockMaxSize ->
  nOutDataOffset + nBlockMaxSize <= Z.of_nat (length pOutData) ->
  exists r,
    lz4ultra_decompressor_expand_block_lz4
      (token :: lits ++ [byte_of_Z (Z.of_nat (length lits)); x00] ++ ext)
      pOutData nOutDataOffset nBlockMaxSize = Some r /\
    r.1 = Z.of_nat (length lits) + L /\
    length (produced nOutDataOffset r)
      = Z.to_nat (Z.of_nat (length lits) + L) /\
    forall j : nat,
      Z.of_nat j < Z.of_nat (length lits) + L ->
      produced nOutDataOffset r !! j = lits !! (j mod length lits)%nat.
Proof.
  intros Hp Hnib Hrun Hoff Hmax Hbuf.
  set (p := Z.of_nat (length lits)) in *.
  apply match_run_read in Hrun as [HL Hrun].
  set (E := nOutDataOffset + nBlockMaxSize) in *.
  set (out1 := store pOutData nOutDataOffset lits).
  assert (Hoffset : match_offset (byte_of_Z p) x00 = p).
  { rewrite match_offset_value, byte_val_of_Z.
    change (byte_val x00) with 0. rewrite Z.mod_small by lia. lia. }
  assert (Hmatch : exists b,
            lz4ultra_expand_match_slow ext nOutDataOffset (match_nibble token)
              out1 (nOutDataOffset + p) E (E - 20)
            = Some ([], b, nOutDataOffset + p + L)).
  { unfold lz4ultra_expand_match_slow. rewrite Hrun.
    unfold MIN_MATCH_SIZE. replace (L - 4 + 4) with L by lia.
    rewrite uint32_small by lia.
    replace (nOutDataOffset + p + L <=? E) with true
      by (symmetry; apply Z.leb_le; lia).
    destruct ((8 <=? nOutDataOffset + p - nOutDataOffset)
              && (nOutDataOffset + p + L <=? E - 20));
      eexists; reflexivity. }
  destruct Hmatch as [b Hmatch].
  pose proof Hmatch as Hcopy.
  apply match_slow_copy in Hcopy as (N & Hb & Hc & HN & Hend); [| lia | lia].
  destruct (decoder_from_slow_loop
              (token :: lits ++ [byte_of_Z p; x00] ++ ext) pOutData
              nOutDataOffset nBlockMaxSize
              (DecState [] b (nOutDataOffset + p + L) [(nOutDataOffset + p, p)])
              Hoff)
    as (r & Hr & Hret & _ & Hag).
  - rewrite slow_loop_step. cbn [inp length].
    replace (0 <? Z.of_nat (S (length (lits ++ [byte_of_Z p; x00] ++ ext))))
      with true by (symmetry; apply Z.ltb_lt; lia).
    unfold slow_token. cbn [inp out cur seen].
    unfold lz4ultra_expand_literals_slow. rewrite Hnib.
    unfold LITERALS_RUN_LEN.
    replace (p =? 15) with false by (symmetry; apply Z.eqb_neq; lia).
    replace (p =? 0) with false by (symmetry; apply Z.eqb_neq; lia).
    replace ((p <=? Z.of_nat (length (lits ++ [byte_of_Z p; x00] ++ ext)))
             && (nOutDataOffset + p <=? nOutDataOffset + nBlockMaxSize))
      with true
      by (symmetry; apply andb_true_iff; split; apply Z.leb_le;
          rewrite ?length_app; lia).
    subst p. rewrite Nat2Z.id, take_app_length, drop_app_length.
    unfold slow_match. cbn [inp out cur seen app].
    rewrite Hoffset.
    replace (nOutDataOffset + Z.of_nat (length lits) - Z.of_nat (length lits))
      with nOutDataOffset by lia.
    replace (0 <=? nOutDataOffset) with true
      by (symmetry; apply Z.leb_le; lia).
    fold out1. fold E. rewrite Hmatch. cbn [seen app].
    destruct (length (lits ++ byte_of_Z (Z.of_nat (length lits)) :: x00 :: ext));
      reflexivity.
  - cbn [seen]. unfold nonzero_offsets. apply Forall_singleton. cbn. lia.
  - exists r. split; [exact Hr |]. cbn [cur out] in *.
    split; [lia |].
    assert (Hprod : produced nOutDataOffset r
                    = take (Z.to_nat (p + L)) (drop (Z.to_nat nOutDataOffset) b)).
    { unfold produced. rewrite Hret.
      replace (nOutDataOffset + p + L - nOutDataOffset) with (p + L) by lia.
      apply (agree_take _ _ _ nOutDataOffset (p + L) Hag); lia. }
    assert (Hlenb : length b = length pOutData).
    { rewrite Hb, length_copy_bytes. apply length_store. }
    rewrite Hprod. split.
    { rewrite length_take, length_drop. lia. }
    assert (Hall : forall j : nat, Z.of_nat j < p + L ->
              b !! (Z.to_nat nOutDataOffset + j)%nat
              = lits !! (j mod length lits)%nat).
    { intros j. induction j as [j IH] using lt_wf_ind. intros Hj.
      destruct (decide (j < length lits)%nat) as [Hlow | Hhigh].
      - rewrite Nat.mod_small by exact Hlow.
        rewrite Hb, lookup_copy_bytes_below by lia.
        apply lookup_store_in; lia.
      - replace (Z.to_nat nOutDataOffset + j)%nat
          with (Z.to_nat (nOutDataOffset + p) + (j - length lits))%nat by lia.
        rewrite Hb, copy_bytes_periodic;
          [| lia | lia | unfold out1; rewrite length_store; lia | lia].
        rewrite <- Hb.
        replace (j mod length lits)%nat
          with ((j - length lits) mod length lits)%nat.
        + apply IH; lia.
        + replace j with ((j - length lits) + 1 * length lits)%nat at 2 by lia.
          rewrite Nat.Div0.mod_add. reflexivity. }
    intros j Hj. rewrite lookup_take_lt by lia. rewrite lookup_drop.
    apply Hall. exact Hj.
Qed.

Lemma literal_block_is_copied_witness :
  exists r,
    lz4ultra_decompressor_expand_block_lz4 (x30 :: [] ++ [x61; x62; x63])
      (zeros 64) 4 32 = Some r /\
    r.1 = Z.of_nat (length [x61; x62; x63]) /\
    produced 4 r = [x61; x62; x63].
Proof.
  apply (literal_block_is_copied x30 [] [x61; x62; x63] (zeros 64) 4 32).
  - left. vm_compute. repeat split; discriminate.
  - lia.
  - simpl. lia.
  - simpl. lia.
Defined.

Lemma literals_then_match_repeat_witness :
  exists r,
    lz4ultra_decompressor_expand_block_lz4
      (x23 :: [x61; x62]
         ++ [byte_of_Z (Z.of_nat (length [x61; x62])); x00] ++ [])
      (zeros 64) 4 32 = Some r /\
    r.1 = Z.of_nat (length [x61; x62]) + 7 /\
    length (produced 4 r) = Z.to_nat (Z.of_nat (length [x61; x62]) + 7) /\
    forall j : nat,
      Z.of_nat j < Z.of_nat (length [x61; x62]) + 7 ->
      produced 4 r !! j = [x61; x62] !! (j mod length [x61; x62])%nat.
Proof.
  apply (literals_then_match_repeat x23 [x61; x62] [] (zeros 64) 4 32 7).
  - simpl. lia.
  - reflexivity.
  - left. vm_compute. repeat split; discriminate.
  - lia.
  - simpl. lia.
  - simpl. lia.
Defined.

(** ** Raw files *)

Lemma next_block_size_raw nOptions f nFileSize :
  has_flag nOptions OPT_RAW = true ->
  next_block_size nOptions f nFileSize = (uint32 (nFileSize - 2), f, 0).
Proof. intros Hraw. unfold next_block_size. rewrite Hraw. reflexivity. Qed.

Section RawFiles.

Variable lz4ultra_expand_block :
  list byte -> list byte -> Z -> Z -> Z * list byte.

(** The round of the decompression loop that follows the block of a raw
    file: [nFileSize] is 0 by now, the block size wraps around to 2^32 - 2,
    and the loop is left because the file does not hold that many bytes. *)
Lemma decompress_round_raw_end nOptions st :
  has_flag nOptions OPT_RAW = true ->
  d_filesize st = 0 ->
  Z.of_nat (length (rest (d_in st))) < 2147483646 ->
  exists f outdata,
    decompress_round lz4ultra_expand_block nOptions st =
    (true, DState f 0 (d_written st) outdata (d_prev st) (d_error st)).
Proof.
  intros Hraw Hsize Hshort. unfold decompress_round.
  rewrite next_block_size_raw by exact Hraw. rewrite Hsize.
  change (uint32 (0 - 2)) with 4294967294.
  change (negb (4294967294 =? 0)) with true. cbv iota.
  change (Z.land 4294967294 2147483647) with 2147483646.
  rewrite fread_short by exact Hshort.
  replace (Z.of_nat (length (rest (d_in st))) =? 2147483646) with false
    by (symmetry; apply Z.eqb_neq; lia).
  eexists. eexists. reflexivity.
Qed.

(** X15.  In raw mode [lz4ultra_decompress] takes all of the file but its
    last two bytes as one block, hands it to the block decompressor, and
    writes what that returns; the loop then ends on a block size that has
    wrapped around, with status 0.  The last two bytes, the end mark, are
    never looked at: they can be anything.  The buffer that the block is
    decoded into comes from [malloc] and is not cleared: the statement is for
    a block that decodes to the same [n] bytes [decoded] whatever the buffer
    holds. *)
Theorem raw_file_is_one_block
    (w : world) (fin fout : string) (blk : list byte) (t1 t2 : byte)
    (nOptions : Z) (n : Z) (decoded : list byte) :
  has_flag nOptions OPT_RAW = true ->
  files w !! fin = Some (blk ++ [t1; t2]) ->
  fin <> fout ->
  fopen_wb w fout = true ->
  0 < Z.of_nat (length blk) <= BLOCK_SIZE ->
  (forall pOutData,
     Z.of_nat (length pOutData) = BLOCK_SIZE * 2 ->
     (lz4ultra_expand_block blk pOutData BLOCK_SIZE BLOCK_SIZE).1 = n /\
     slice (lz4ultra_expand_block blk pOutData BLOCK_SIZE BLOCK_SIZE).2
       BLOCK_SIZE n = decoded) ->
  n <= BLOCK_SIZE ->
  lz4ultra_decompress lz4ultra_expand_block w fin fout nOptions =
  if n <? 0 then Some (100, fclose_wb w fout [], [DiagDecompressionError])
  else Some (0, fclose_wb w fout decoded, []).
Proof.
  intros Hraw Hfile Hdiff Hout Hblk Hindep Hfits.
  unfold lz4ultra_decompress, fopen_rb. rewrite Hfile.
  cbn [fmap option_fmap option_map].
  unfold open_compressed. rewrite Hraw. cbn [rest].
  rewrite length_app. cbn [length].
  replace (Z.of_nat (length blk + 2) <? 2) with false
    by (symmetry; apply Z.ltb_ge; lia).
  rewrite Hout. cbn [negb].
  rewrite decompress_loop_step.
  cbn [d_in at_eof d_error negb andb Z.eqb].
  unfold decompress_round at 1.
  cbn [d_in d_filesize d_prev d_outdata d_written d_error].
  change (0 =? 0) with true. cbv iota.
  rewrite next_block_size_raw by exact Hraw.
  replace (Z.of_nat (length blk + 2) - 2) with (Z.of_nat (length blk)) by lia.
  rewrite uint32_small by block_lia.
  replace (Z.of_nat (length blk) =? 0) with false
    by (symmetry; apply Z.eqb_neq; lia).
  cbn [negb].
  assert (Hland : Z.land (Z.of_nat (length blk)) 2147483647
                  = Z.of_nat (length blk)).
  { change 2147483647 with (Z.ones 31). rewrite Z.land_ones by lia.
    apply Z.mod_small. block_lia. }
  assert (Hbit : Z.land (Z.of_nat (length blk)) 2147483648 = 0).
  { change 2147483648 with (2 ^ 31). rewrite land_pow2 by lia.
    rewrite Z.testbit_odd, Z.shiftr_div_pow2 by lia.
    rewrite Z.div_small by block_lia. reflexivity. }
  rewrite Hland, Hbit. change (negb (0 =? 0)) with false. cbv iota.
  rewrite fread_enough by (cbn [rest]; rewrite length_app; lia).
  cbn [rest at_eof]. rewrite Nat2Z.id, take_app_length, drop_app_length.
  rewrite Z.eqb_refl.
  destruct (Hindep (replicate (Z.to_nat (BLOCK_SIZE * 2)) x00))
    as [Hn Hdecoded]; [rewrite length_replicate; block_lia |].
  destruct (lz4ultra_expand_block blk
              (replicate (Z.to_nat (BLOCK_SIZE * 2)) x00) BLOCK_SIZE BLOCK_SIZE)
    as [n' buf].
  cbn [fst snd] in Hn, Hdecoded. subst n'.
  destruct (n <? 0) eqn:Hneg.
  - apply Z.ltb_lt in Hneg.
    destruct (length (blk ++ [t1; t2])); cbn [decompress_loop d_error d_in at_eof];
      replace (n =? 0) with false by (symmetry; apply Z.eqb_neq; lia);
      rewrite ?andb_false_r; cbn [negb d_written]; reflexivity.
  - apply Z.ltb_ge in Hneg.
    destruct (n =? 0) eqn:Hzero; cbn [negb].
    + apply Z.eqb_eq in Hzero.
      rewrite length_app. cbn [length].
      replace (length blk + 2)%nat with (S (S (length blk))) by lia.
      rewrite decompress_loop_step.
      cbn [d_in at_eof d_error negb andb Z.eqb].
      match goal with
      | |- context [decompress_round _ _ ?st] =>
          destruct (decompress_round_raw_end nOptions st Hraw eq_refl)
            as (f & outdata & Hround); [cbn [d_in rest length]; lia |]
      end.
      rewrite Hround. cbv beta iota. cbn [d_error d_written Z.eqb negb app].
      subst n. rewrite <- Hdecoded. reflexivity.
    + rewrite length_app. cbn [length].
      replace (length blk + 2)%nat with (S (S (length blk))) by lia.
      rewrite decompress_loop_step.
      cbn [d_in at_eof d_error negb andb Z.eqb].
      match goal with
      | |- context [decompress_round _ _ ?st] =>
          destruct (decompress_round_raw_end nOptions st Hraw eq_refl)
            as (f & outdata & Hround); [cbn [d_in rest length]; lia |]
      end.
      rewrite Hround. cbv beta iota. cbn [d_error d_written Z.eqb negb app].
      rewrite Hdecoded. reflexivity.
Qed.

End RawFiles.

Lemma raw_file_is_one_block_witness :
  lz4ultra_decompress expand_block_model
    (world_of [("packed"%string, [x10; x61] ++ [xff; xff])])
    "packed" "out" OPT_RAW
  = Some (0,
          fclose_wb (world_of [("packed"%string, [x10; x61] ++ [xff; xff])])
            "out" [x61],
          []).
Proof.
  apply (raw_file_is_one_block expand_block_model
           (world_of [("packed"%string, [x10; x61] ++ [xff; xff])])
           "packed" "out" [x10; x61] xff xff OPT_RAW 1 [x61]).
  - reflexivity.
  - reflexivity.
  - discriminate.
  - reflexivity.
  - simpl. unfold BLOCK_SIZE. lia.
  - intros pOutData Hlen. unfold expand_block_model.
    destruct (literal_block_decoded x10 [] [x61] pOutData BLOCK_SIZE
                BLOCK_SIZE) as (r & Hr & Hret & Hbytes).
    + left. vm_compute. repeat split; discriminate.
    + unfold BLOCK_SIZE. lia.
    + simpl. unfold BLOCK_SIZE. lia.
    + rewrite Hlen. lia.
    + cbn [app] in Hr. rewrite Hr. destruct r as [rv st].
      cbn [fst snd] in *. unfold produced in Hbytes. cbn [fst snd] in Hbytes.
      rewrite Hret in Hbytes. split; [exact Hret | exact Hbytes].
  - unfold BLOCK_SIZE. lia.
Defined.

(** ** The comparing stream of the second revision *)

Lemma comparestream_write_prefix f ptr tail :
  rest f = ptr ++ tail ->
  comparestream_write f ptr = (Z.of_nat (length ptr), RFile tail (at_eof f)).
Proof.
  intros Hrest. unfold comparestream_write.
  rewrite fread_enough by (rewrite Hrest, length_app; lia).
  rewrite Hrest, Nat2Z.id, take_app_length, drop_app_length.
  rewrite Z.eqb_refl, bytes_eqb_refl. reflexivity.
Qed.

(** X17.  [comparestream_write] returns the size it was given exactly when
    the bytes to be written are the next bytes of the original file, and 0
    otherwise; on success the original is advanced by that size, so that two
    writes in a row succeed on two consecutive parts of the original. *)
Theorem comparestream_write_checks_next_bytes (f : rfile) (ptr : list byte) :
  ((comparestream_write f ptr).1 = Z.of_nat (length ptr) <->
   exists tail, rest f = ptr ++ tail) /\
  ((comparestream_write f ptr).1 = Z.of_nat (length ptr) \/
   (comparestream_write f ptr).1 = 0) /\
  (forall ptr2 tail,
     rest f = ptr ++ ptr2 ++ tail ->
     comparestream_write (comparestream_write f ptr).2 ptr2
     = (Z.of_nat (length ptr2), RFile tail (at_eof f))).
Proof.
  split; [| split].
  - split.
    + unfold comparestream_write.
      destruct (fread_take (Z.of_nat (length ptr)) f ltac:(lia))
        as (Hdata & _).
      destruct (fread (Z.of_nat (length ptr)) f) as [data f1].
      cbn [fst] in Hdata.
      destruct (Z.of_nat (length data) =? Z.of_nat (length ptr)) eqn:Hlen;
        cbn [negb fst].
      * destruct (bytes_eqb ptr data) eqn:Heq; cbn [fst].
        -- intros _. apply bytes_eqb_eq in Heq. rewrite <- Heq in Hdata.
           rewrite Nat2Z.id in Hdata.
           exists (drop (length ptr) (rest f)).
           transitivity (take (length ptr) (rest f)
                           ++ drop (length ptr) (rest f));
             [symmetry; apply take_drop | rewrite <- Hdata; reflexivity].
        -- intros H0. destruct ptr; [| discriminate].
           exists (rest f). reflexivity.
      * intros H0. destruct ptr; [| discriminate].
        exists (rest f). reflexivity.
    + intros [tail Hrest].
      rewrite (comparestream_write_prefix f ptr tail Hrest). reflexivity.
  - unfold comparestream_write.
    destruct (fread (Z.of_nat (length ptr)) f) as [data f1].
    destruct (negb (Z.of_nat (length data) =? Z.of_nat (length ptr)));
      [right; reflexivity |].
    destruct (bytes_eqb ptr data); [left | right]; reflexivity.
  - intros ptr2 tail Hrest.
    rewrite (comparestream_write_prefix f ptr (ptr2 ++ tail) Hrest).
    cbn [snd].
    rewrite (comparestream_write_prefix _ ptr2 tail) by reflexivity.
    reflexivity.
Qed.

(** ** The block size option of the second [main] *)

Lemma err2_parse_arg2 a c : err2 c = true -> err2 (parse_arg2 a c) = true.
Proof.
  intros H. unfold parse_arg2, args_error, with_command, with_dictionary,
    with_dependence, with_option.
  repeat match goal with
         | |- context [if ?b then _ else _] => destruct b
         | |- context [match ?x with _ => _ end] => destruct x
         end; cbn [err2]; auto.
Qed.

Lemma err2_parse_args2 args : forall c,
  err2 c = true -> err2 (parse_args2 args c) = true.
Proof.
  induction args as [args IH] using (induction_ltof1 _ (@length string)).
  unfold ltof in IH. intros c H.
  destruct args as [| a args]; [exact H |].
  cbn [parse_args2].
  destruct (String.eqb a "-D").
  - destruct (dict2 c); [apply IH; [simpl; lia | reflexivity] |].
    destruct args as [| d args'].
    + reflexivity.
    + apply IH; [simpl; lia | exact H].
  - apply IH; [simpl; lia | apply err2_parse_arg2; exact H].
Qed.

Lemma parse_arg2_block_code a c :
  String.prefix "-B" a = true ->
  a <> "-BD"%string -> a <> "-BI"%string ->
  atoi (skip2 a) < 4 \/ 7 < atoi (skip2 a) ->
  err2 (parse_arg2 a c) = true.
Proof.
  intros Hpre Hd Hi Hcode.
  pose proof Hpre as Hpre0.
  destruct a as [| c1 a]; [discriminate Hpre |].
  cbn [String.prefix] in Hpre.
  destruct (Ascii.ascii_dec "-" c1) as [Hc1 | Hc1]; cbv iota in Hpre;
    [subst c1 | discriminate Hpre].
  destruct a as [| c2 s]; [discriminate Hpre |].
  cbn [String.prefix] in Hpre.
  destruct (Ascii.ascii_dec "B" c2) as [Hc2 | Hc2]; cbv iota in Hpre;
    [subst c2 | discriminate Hpre].
  unfold parse_arg2.
  change (String.eqb (String "-" (String "B" s)) "-d") with false.
  change (String.eqb (String "-" (String "B" s)) "-z") with false.
  change (String.eqb (String "-" (String "B" s)) "-c") with false.
  change (String.prefix "-D" (String "-" (String "B" s))) with false.
  cbv iota.
  destruct (String.eqb_spec (String "-" (String "B" s)) "-BD"); [contradiction |].
  destruct (String.eqb_spec (String "-" (String "B" s)) "-BI"); [contradiction |].
  rewrite Hpre0.
  cbv iota zeta. cbn [err2].
  replace ((atoi (skip2 (String "-" (String "B" s))) <? 4)
           || (7 <? atoi (skip2 (String "-" (String "B" s))))) with true;
    [reflexivity |].
  symmetry. apply orb_true_iff.
  destruct Hcode; [left; apply Z.ltb_lt | right; apply Z.ltb_lt]; assumption.
Qed.

Lemma parse_args2_block_code a args : forall c,
  In a args -> ~ In "-D"%string args ->
  String.prefix "-B" a = true ->
  a <> "-BD"%string -> a <> "-BI"%string ->
  atoi (skip2 a) < 4 \/ 7 < atoi (skip2 a) ->
  err2 (parse_args2 args c) = true.
Proof.
  induction args as [| b args IH]; intros c Hin Hno Hpre Hd Hi Hcode;
    [destruct Hin |].
  cbn [parse_args2].
  destruct (String.eqb_spec b "-D") as [-> | Hb].
  { exfalso. apply Hno. left. reflexivity. }
  destruct Hin as [-> | Hin].
  - apply err2_parse_args2. apply parse_arg2_block_code; assumption.
  - apply IH; try assumption. intros H. apply Hno. right. exact H.
Qed.

Section BlockCode.

Variable LZ4ULTRA_FLAG_RAW_BLOCK : Z.
Variable lz4ultra_compress_file :
  string -> string -> option string -> Z -> Z -> Z -> world -> Z * world.
Variable lz4ultra_decompress_file :
  string -> string -> option string -> Z -> world -> Z * world.
Variable lz4ultra_filestream_open : world -> string -> option rfile.
Variable lz4ultra_dictionary_load : world -> option string -> Z * list byte.
Variable lz4ultra_decompress_stream :
  rfile -> (rfile -> list byte -> Z * rfile) -> rfile -> list byte -> Z -> Z.

(** X18.  The second [main] prints its usage and returns 100, without
    calling the library, when an argument [-B<code>] has a code that [atoi]
    reads as less than 4 or more than 7 ([-B] alone and [-Bx] read as 0),
    wherever it stands on a command line without a lone [-D].  [atoi]
    returns an [int]: the statement is for command lines on which the code
    of every [-B] argument fits one. *)
Theorem main2_refuses_block_code (w : world) (argv : list string)
    (a : string) :
  In a argv -> ~ In "-D"%string argv ->
  String.prefix "-B" a = true ->
  a <> "-BD"%string -> a <> "-BI"%string ->
  (forall b, In b argv -> String.prefix "-B" b = true ->
             - 2 ^ 31 <= atoi (skip2 b) < 2 ^ 31) ->
  atoi (skip2 a) < 4 \/ 7 < atoi (skip2 a) ->
  main2 LZ4ULTRA_FLAG_RAW_BLOCK lz4ultra_compress_file
    lz4ultra_decompress_file lz4ultra_filestream_open
    lz4ultra_dictionary_load lz4ultra_decompress_stream w argv
  = (100, w, [MsgUsage]).
Proof.
  intros Hin Hno Hpre Hd Hi Hint Hcode. unfold main2. cbv zeta.
  rewrite (parse_args2_block_code a argv _ Hin Hno Hpre Hd Hi Hcode).
  destruct (in2 _) as [fin |]; [| reflexivity].
  destruct (out2 _) as [fout |]; reflexivity.
Qed.

End BlockCode.

Lemma main2_refuses_block_code_witness :
  main2 0 (fun _ _ _ _ _ _ w => (0, w)) (fun _ _ _ _ w => (0, w))
    fopen_rb (fun _ _ => (0, [])) (fun _ _ _ _ _ => 0)
    (world_of [("a"%string, [x61])]) ["a"; "-B3"; "b"]%string
  = (100, world_of [("a"%string, [x61])], [MsgUsage]).
Proof.
  apply (main2_refuses_block_code 0 (fun _ _ _ _ _ _ w => (0, w))
           (fun _ _ _ _ w => (0, w)) fopen_rb (fun _ _ => (0, []))
           (fun _ _ _ _ _ => 0)
           (world_of [("a"%string, [x61])]) ["a"; "-B3"; "b"]%string
           "-B3"%string).
  - simpl. auto.
  - simpl. intros [H | [H | [H | []]]]; discriminate H.
  - reflexivity.
  - discriminate.
  - discriminate.
  - intros b [<- | [<- | [<- | []]]] Hb; vm_compute in Hb;
      try discriminate Hb; vm_compute; split; [discriminate | reflexivity].
  - left. vm_compute. reflexivity.
Defined.

(** ** Blocks that are refused *)

(** The decoder on a block on which the slow loop alone fails. *)
Lemma decoder_fails_with_slow_loop pInBlock pOutData nOutDataOffset
    nBlockMaxSize st1 :
  0 <= nOutDataOffset ->
  slow_loop (S (length pInBlock)) (nOutDataOffset + nBlockMaxSize)
    (nOutDataOffset + nBlockMaxSize - 20)
    (DecState pInBlock pOutData nOutDataOffset []) = Some (Fail st1) ->
  exists r,
    lz4ultra_decompressor_expand_block_lz4 pInBlock pOutData
      nOutDataOffset nBlockMaxSize = Some r /\
    r.1 = -1.
Proof.
  intros Hoff Hslow.
  unfold lz4ultra_decompressor_expand_block_lz4, both_loops.
  set (st := DecState pInBlock pOutData nOutDataOffset []) in *.
  pose proof (both_loops_rel (nOutDataOffset + nBlockMaxSize)
                (S (length pInBlock)) (S (length pInBlock))
                (S (length pInBlock)) st st
                (same_decoding_refl st Hoff)) as Hrel.
  cbn [inp st] in Hrel. specialize (Hrel ltac:(lia) ltac:(lia) ltac:(lia)).
  rewrite Hslow in Hrel.
  destruct (match fast_loop _ _ _ st with None => None | Some _ => _ end)
    as [[t1 | t1] |]; cbn [same_outcome same_result] in Hrel;
    try contradiction.
  exists (finish nOutDataOffset (Fail t1)). split; reflexivity.
Qed.

(** The length of the run of literals that a token announces. *)
Lemma literal_run_length (token : byte) (ext tail : list byte) (n : Z) :
  (literals_nibble token < 15 /\ ext = [] /\ literals_nibble token = n) \/
  (literals_nibble token = 15 /\
   exists (k : nat) (e : byte),
     ext = replicate k xff ++ [e] /\ e <> xff /\
     n = 15 + 255 * Z.of_nat k + byte_val e /\ n < 2 ^ 32) ->
  (if literals_nibble token =? LITERALS_RUN_LEN
   then read_run (ext ++ tail) (literals_nibble token)
   else (ext ++ tail, literals_nibble token))
  = (tail, n).
Proof.
  unfold LITERALS_RUN_LEN.
  intros [(Hshort & -> & Hn) | (Hlong & k & e & -> & He & Hn & Hsmall)].
  - replace (literals_nibble token =? 15) with false
      by (symmetry; apply Z.eqb_neq; lia).
    rewrite Hn. reflexivity.
  - rewrite Hlong. change (15 =? 15) with true. cbv iota.
    pose proof (byte_val_range e) as Hr.
    rewrite <- app_assoc, read_run_ff by lia.
    cbn [app]. rewrite read_run_end by (assumption || lia).
    rewrite Hn. reflexivity.
Qed.

(** X19.  A block whose first token announces more literals than the block
    holds after it, or more than [nBlockMaxSize], is refused: the decoder
    returns -1. *)
Theorem literal_run_must_fit
    (token : byte) (ext tail pOutData : list byte)
    (nOutDataOffset nBlockMaxSize n : Z) :
  (literals_nibble token < 15 /\ ext = [] /\ literals_nibble token = n) \/
  (literals_nibble token = 15 /\
   exists (k : nat) (e : byte),
     ext = replicate k xff ++ [e] /\ e <> xff /\
     n = 15 + 255 * Z.of_nat k + byte_val e /\ n < 2 ^ 32) ->
  0 <= nOutDataOffset ->
  Z.of_nat (length tail) < n \/ (nBlockMaxSize < n /\ 0 < n) ->
  exists r,
    lz4ultra_decompressor_expand_block_lz4 (token :: ext ++ tail) pOutData
      nOutDataOffset nBlockMaxSize = Some r /\
    r.1 = -1.
Proof.
  intros Hrun Hoff Hbig.
  apply (literal_run_length token ext tail n) in Hrun.
  eapply decoder_fails_with_slow_loop; [exact Hoff |].
  rewrite slow_loop_step. cbn [inp length].
  replace (0 <? Z.of_nat (S (length (ext ++ tail)))) with true
    by (symmetry; apply Z.ltb_lt; lia).
  unfold slow_token. cbn [inp out cur seen].
  unfold lz4ultra_expand_literals_slow. rewrite Hrun.
  replace (n =? 0) with false by (symmetry; apply Z.eqb_neq; lia).
  replace ((n <=? Z.of_nat (length tail))
           && (nOutDataOffset + n <=? nOutDataOffset + nBlockMaxSize))
    with false; [reflexivity |].
  symmetry. apply andb_false_iff.
  destruct Hbig as [Hin | [Hout _]];
    [left; apply Z.leb_gt; lia | right; apply Z.leb_gt; lia].
Qed.

Lemma literal_run_must_fit_witness :
  exists r,
    lz4ultra_decompressor_expand_block_lz4 (x30 :: [] ++ [x61; x62])
      (zeros 64) 4 32 = Some r /\
    r.1 = -1.
Proof.
  apply (literal_run_must_fit x30 [] [x61; x62] (zeros 64) 4 32 3).
  - left. vm_compute. repeat split; discriminate.
  - lia.
  - left. simpl. lia.
Defined.

(** The length of the match that a token announces. *)
Lemma match_run_length (token : byte) (ext tail : list byte) (L : Z) :
  (match_nibble token < 15 /\ ext = [] /\ L = match_nibble token + 4) \/
  (match_nibble token = 15 /\
   exists (k : nat) (e : byte),
     ext = replicate k xff ++ [e] /\ e <> xff /\
     L = 15 + 255 * Z.of_nat k + byte_val e + 4 /\ L < 2 ^ 32) ->
  4 <= L < 2 ^ 32 /\
  (if match_nibble token =? MATCH_RUN_LEN
   then read_run (ext ++ tail) (match_nibble token)
   else (ext ++ tail, match_nibble token))
  = (tail, L - 4).
Proof.
  unfold MATCH_RUN_LEN. pose proof (match_nibble_range token) as Hm.
  intros [(Hshort & -> & HL) | (Hlong & k & e & -> & He & HL & Hsmall)].
  - replace (match_nibble token =? 15) with false
      by (symmetry; apply Z.eqb_neq; lia).
    split; [lia |]. cbn [app]. f_equal. lia.
  - rewrite Hlong. change (15 =? 15) with true. cbv iota.
    pose proof (byte_val_range e) as Hr.
    split; [lia |].
    rewrite <- app_assoc, read_run_ff by lia.
    cbn [app]. rewrite read_run_end by (assumption || lia).
    f_equal. lia.
Qed.

(** X20.  A block whose first token has [p] literals, below 15, that fit, and
    a match at offset [p] that would end after [nBlockMaxSize] bytes of
    output, is refused: the decoder returns -1, whatever follows in the
    block. *)
Theorem match_must_fit
    (token : byte) (lits ext tail pOutData : list byte)
    (nOutDataOffset nBlockMaxSize L : Z) :
  0 < Z.of_nat (length lits) < 15 ->
  literals_nibble token = Z.of_nat (length lits) ->
  (match_nibble token < 15 /\ ext = [] /\ L = match_nibble token + 4) \/
  (match_nibble token = 15 /\
   exists (k : nat) (e : byte),
     ext = replicate k xff ++ [e] /\ e <> xff /\
     L = 15 + 255 * Z.of_nat k + byte_val e + 4 /\ L < 2 ^ 32) ->
  0 <= nOutDataOffset ->
  Z.of_nat (length lits) <= nBlockMaxSize ->
  nBlockMaxSize < Z.of_nat (length lits) + L ->
  exists r,
    lz4ultra_decompressor_expand_block_lz4
      (token :: lits ++ [byte_of_Z (Z.of_nat (length lits)); x00]
         ++ ext ++ tail)
      pOutData nOutDataOffset nBlockMaxSize = Some r /\
    r.1 = -1.
Proof.
  intros Hp Hnib Hrun Hoff Hfit Hbig.
  set (p := Z.of_nat (length lits)) in *.
  apply (match_run_length token ext tail L) in Hrun as [HL Hrun].
  assert (Hoffset : match_offset (byte_of_Z p) x00 = p).
  { rewrite match_offset_value, byte_val_of_Z.
    change (byte_val x00) with 0. rewrite Z.mod_small by lia. lia. }
  eapply decoder_fails_with_slow_loop; [exact Hoff |].
  rewrite slow_loop_step. cbn [inp length].
  match goal with
  | |- context [0 <? Z.of_nat (S ?n)] =>
      replace (0 <? Z.of_nat (S n)) with true
        by (symmetry; apply Z.ltb_lt; lia)
  end.
  unfold slow_token. cbn [inp out cur seen].
  unfold lz4ultra_expand_literals_slow. rewrite Hnib.
  unfold LITERALS_RUN_LEN.
  replace (p =? 15) with false by (symmetry; apply Z.eqb_neq; lia).
  replace (p =? 0) with false by (symmetry; apply Z.eqb_neq; lia).
  match goal with
  | |- context [(p <=? Z.of_nat (length ?l)) && ?c] =>
      replace ((p <=? Z.of_nat (length l)) && c) with true
        by (symmetry; apply andb_true_iff; split; apply Z.leb_le;
            rewrite ?length_app; lia)
  end.
  subst p. rewrite Nat2Z.id, take_app_length, drop_app_length.
  unfold slow_match. cbn [inp out cur seen app].
  rewrite Hoffset.
  replace (nOutDataOffset + Z.of_nat (length lits) - Z.of_nat (length lits))
    with nOutDataOffset by lia.
  replace (0 <=? nOutDataOffset) with true by (symmetry; apply Z.leb_le; lia).
  unfold lz4ultra_expand_match_slow. rewrite Hrun.
  unfold MIN_MATCH_SIZE. replace (L - 4 + 4) with L by lia.
  rewrite uint32_small by lia.
  replace (nOutDataOffset + Z.of_nat (length lits) + L
           <=? nOutDataOffset + nBlockMaxSize) with false
    by (symmetry; apply Z.leb_gt; lia).
  reflexivity.
Qed.

Lemma match_must_fit_witness :
  exists r,
    lz4ultra_decompressor_expand_block_lz4
      (x23 :: [x61; x62]
         ++ [byte_of_Z (Z.of_nat (length [x61; x62])); x00] ++ [] ++ [x00])
      (zeros 64) 4 8 = Some r /\
    r.1 = -1.
Proof.
  apply (match_must_fit x23 [x61; x62] [] [x00] (zeros 64) 4 8 7).
  - simpl. lia.
  - reflexivity.
  - left. vm_compute. repeat split; discriminate.
  - lia.
  - simpl. lia.
  - simpl. lia.
Defined.

(** ** Run lengths, token by token (C7) *)












(** ** A block that differs from the original (C9) *)

Section Verification.

Variable lsza_compressor : Type.
Variable lz4ultra_compressor_init : Z -> Z * lsza_compressor.
Variable lz4ultra_shrink_block :
  lsza_compressor -> list byte -> Z -> Z -> Z -> Z * list byte * lsza_compressor.
Variable lz4ultra_compressor_get_command_count : lsza_compressor -> Z.
Variable lz4ultra_expand_block :
  list byte -> list byte -> Z -> Z -> Z * list byte.

(** The rounds that went to their end only use up fuel. *)
Lemma compare_loop_rounds nOptions fuel : forall k st0 st,
  compare_rounds lz4ultra_expand_block k nOptions st0 = Some st ->
  compare_loop lz4ultra_expand_block (k + fuel) nOptions st0
  = compare_loop lz4ultra_expand_block fuel nOptions st.
Proof.
  induction k as [| k IH]; intros st0 st Hk.
  - injection Hk as <-. reflexivity.
  - cbn [compare_rounds] in Hk. cbn [Nat.add compare_loop].
    destruct (negb (at_eof (v_in st0)) && (v_error st0 =? 0)
              && negb (v_mismatch st0)); [| discriminate].
    destruct (compare_round lz4ultra_expand_block nOptions st0) as [stop st1].
    destruct stop; [discriminate |].
    apply IH. exact Hk.
Qed.

(** The result of the loop does not depend on the fuel that is left over. *)
Lemma compare_loop_fuel nOptions : forall fuel fuel' st r r',
  compare_loop lz4ultra_expand_block fuel nOptions st = Some r ->
  compare_loop lz4ultra_expand_block fuel' nOptions st = Some r' ->
  r = r'.
Proof.
  induction fuel as [| fuel IH]; intros fuel' st r r' H H'; [discriminate |].
  destruct fuel' as [| fuel']; [discriminate |].
  cbn [compare_loop] in H, H'.
  destruct (negb (at_eof (v_in st)) && (v_error st =? 0)
            && negb (v_mismatch st)); [| congruence].
  destruct (compare_round lz4ultra_expand_block nOptions st) as [stop st1].
  destruct stop; [congruence |].
  exact (IH fuel' st1 r r' H H').
Qed.

(** The round that decodes a block which differs from the bytes of the
    original: [bComparisonError] is set, at once with a [break] when the
    sizes differ. *)
Lemma compare_round_differs (nOptions : Z) (st : vstate)
    (nBlockSize0 nFileSize1 n : Z) (f1 f2 : rfile)
    (inblock outdata2 : list byte) :
  next_block_size nOptions (v_in st) (v_filesize st)
    = (nBlockSize0, f1, nFileSize1) ->
  nBlockSize0 <> 0 ->
  fread (Z.land nBlockSize0 2147483647) f1 = (inblock, f2) ->
  Z.of_nat (length inblock) = Z.land nBlockSize0 2147483647 ->
  (if negb (Z.land nBlockSize0 2147483648 =? 0)
   then (Z.land nBlockSize0 2147483647,
         blit (if v_prev st =? 0 then v_outdata st
               else blit (v_outdata st) (BLOCK_SIZE - v_prev st)
                      (slice (v_outdata st) BLOCK_SIZE (v_prev st)))
           BLOCK_SIZE inblock)
   else lz4ultra_expand_block inblock
          (if v_prev st =? 0 then v_outdata st
           else blit (v_outdata st) (BLOCK_SIZE - v_prev st)
                  (slice (v_outdata st) BLOCK_SIZE (v_prev st)))
          BLOCK_SIZE BLOCK_SIZE) = (n, outdata2) ->
  0 <= n ->
  slice outdata2 BLOCK_SIZE n <> (fread BLOCK_SIZE (v_orig st)).1 ->
  exists st',
    compare_round lz4ultra_expand_block nOptions st
    = (negb (n =? Z.of_nat (length (fread BLOCK_SIZE (v_orig st)).1)), st') /\
    v_mismatch st' = true /\ v_error st' = v_error st /\
    v_good st' = (if n =? Z.of_nat (length (fread BLOCK_SIZE (v_orig st)).1)
                  then v_total st else v_good st).
Proof.
  intros Hnext Hnonzero Hread Hfull Hdecode Hn Hdiffers.
  unfold compare_round.
  destruct (fread BLOCK_SIZE (v_orig st)) as [comparedata orig1].
  cbn [fst] in *. rewrite Hnext.
  replace (nBlockSize0 =? 0) with false
    by (symmetry; apply Z.eqb_neq; exact Hnonzero).
  cbn [negb]. cbv zeta. rewrite Hread, Hfull, Z.eqb_refl, Hdecode.
  replace (n <? 0) with false by (symmetry; apply Z.ltb_ge; exact Hn).
  destruct (n =? Z.of_nat (length comparedata)) eqn:Hsize.
  - apply Z.eqb_eq in Hsize. rewrite <- Hsize.
    destruct (bytes_eqb (slice outdata2 BLOCK_SIZE n) comparedata) eqn:Hcmp.
    + apply bytes_eqb_eq in Hcmp. contradiction.
    + eexists. split; [reflexivity |]. repeat split.
  - eexists. split; [reflexivity |]. repeat split.
Qed.

(** C9, amended.  A block of the compressed file that decodes to bytes
    other than the next bytes of the original makes [lz4ultra_compare]
    return 100, with a diagnostic that carries [nKnownGoodSize]: the offset at
    which the differing block starts when the block has the size of what was
    read from the original, the offset at which the block before it starts
    when the sizes differ; not the offset of the first differing byte.  The
    loop is taken from any state [st0], whatever its buffer holds, with [k]
    rounds before the block that differs, and ends in the state [st'] for
    every amount of fuel that is enough; [lz4ultra_compare] is this loop from
    its first state.  With [-c], [main] runs [lz4ultra_compare] on the
    compressed output and the original once [lz4ultra_compress] has
    returned 0. *)
Theorem mismatch_reported_at_block_start
    (options : Z) (k : nat) (st0 st : vstate)
    (nBlockSize0 nFileSize1 n : Z) (f1 f2 : rfile)
    (inblock outdata2 : list byte) :
  compare_rounds lz4ultra_expand_block k options st0 = Some st ->
  at_eof (v_in st) = false ->
  v_error st = 0 ->
  v_mismatch st = false ->
  next_block_size options (v_in st) (v_filesize st)
    = (nBlockSize0, f1, nFileSize1) ->
  nBlockSize0 <> 0 ->
  fread (Z.land nBlockSize0 2147483647) f1 = (inblock, f2) ->
  Z.of_nat (length inblock) = Z.land nBlockSize0 2147483647 ->
  (if negb (Z.land nBlockSize0 2147483648 =? 0)
   then (Z.land nBlockSize0 2147483647,
         blit (if v_prev st =? 0 then v_outdata st
               else blit (v_outdata st) (BLOCK_SIZE - v_prev st)
                      (slice (v_outdata st) BLOCK_SIZE (v_prev st)))
           BLOCK_SIZE inblock)
   else lz4ultra_expand_block inblock
          (if v_prev st =? 0 then v_outdata st
           else blit (v_outdata st) (BLOCK_SIZE - v_prev st)
                  (slice (v_outdata st) BLOCK_SIZE (v_prev st)))
          BLOCK_SIZE BLOCK_SIZE) = (n, outdata2) ->
  0 <= n ->
  slice outdata2 BLOCK_SIZE n <> (fread BLOCK_SIZE (v_orig st)).1 ->
  let nKnownGoodSize :=
    if n =? Z.of_nat (length (fread BLOCK_SIZE (v_orig st)).1)
    then v_total st else v_good st in
  (exists st',
     v_mismatch st' = true /\
     compare_report st' = (100, [DiagCompareError nKnownGoodSize]) /\
     forall fuel,
       (k + 1 < fuel)%nat \/
       (rounds_left_out (v_in st0) (v_filesize st0) < fuel)%nat ->
       compare_loop lz4ultra_expand_block fuel options st0 = Some st') /\
  (forall w fin fout packed original f nFileSize,
     files w !! fin = Some packed ->
     open_compressed options (RFile packed false) = inr (f, nFileSize) ->
     files w !! fout = Some original ->
     st0 = VState f nFileSize (RFile original false)
             (replicate (Z.to_nat (BLOCK_SIZE * 2)) x00) 0 0 false 0 0 ->
     lz4ultra_compare lz4ultra_expand_block w fin fout options
     = Some (100, w, [DiagCompareError nKnownGoodSize])) /\
  (forall w argv fin fout opts defined,
     parse_args argv = CmdLine (Some fin) (Some fout) false defined true "z" opts ->
     main lz4ultra_compressor_init lz4ultra_shrink_block
       lz4ultra_compressor_get_command_count lz4ultra_expand_block w argv
     = match lz4ultra_compress lz4ultra_compressor_init lz4ultra_shrink_block
               lz4ultra_compressor_get_command_count w fin fout opts with
       | None => None
       | Some (nResult, w1, d1) =>
           if nResult =? 0 then
             match lz4ultra_compare lz4ultra_expand_block w1 fout fin opts with
             | None => None
             | Some (_, w2, d2) => Some (0, w2, d1 ++ d2)
             end
           else Some (0, w1, d1)
       end).
Proof.
  intros Hrounds Heof Herr Hmis Hnext Hnonzero Hread Hfull Hdecode Hn Hdiffers
         nKnownGoodSize.
  assert (Hloop : exists st',
            v_mismatch st' = true /\
            compare_report st' = (100, [DiagCompareError nKnownGoodSize]) /\
            forall fuel,
              (k + 1 < fuel)%nat \/
              (rounds_left_out (v_in st0) (v_filesize st0) < fuel)%nat ->
              compare_loop lz4ultra_expand_block fuel options st0 = Some st').
  { destruct (compare_round_differs options st nBlockSize0 nFileSize1 n f1 f2
                inblock outdata2 Hnext Hnonzero Hread Hfull Hdecode Hn
                Hdiffers) as (st' & Hround & Hmis' & Herr' & Hgood).
    assert (Hk : forall fuel,
              compare_loop lz4ultra_expand_block (k + S (S fuel)) options st0
              = Some st').
    { intros fuel.
      rewrite (compare_loop_rounds options (S (S fuel)) k st0 st Hrounds).
      cbn [compare_loop]. rewrite Heof, Herr, Hmis.
      change (negb false && (0 =? 0) && negb false) with true. cbv iota.
      rewrite Hround.
      destruct (negb (n =? _)); [reflexivity |].
      rewrite Hmis', andb_false_r. reflexivity. }
    exists st'. split; [exact Hmis' |]. split.
    - unfold compare_report. rewrite Herr', Herr, Hmis', Hgood. reflexivity.
    - intros fuel [Hfuel | Hfuel].
      + replace fuel with (k + S (S (fuel - k - 2)))%nat by lia. apply Hk.
      + destruct (compare_loop_total lz4ultra_expand_block fuel options st0
                    Hfuel) as [r Hr].
        rewrite Hr.
        rewrite (compare_loop_fuel options _ _ st0 r st' Hr (Hk 0%nat)).
        reflexivity. }
  split; [exact Hloop |]. split.
  - intros w fin fout packed original f nFileSize Hin Hopen Hout Hst0.
    unfold lz4ultra_compare, fopen_rb. rewrite Hin.
    cbn [fmap option_fmap option_map]. rewrite Hopen, Hout.
    cbn [fmap option_fmap option_map]. rewrite <- Hst0.
    destruct Hloop as (st' & _ & Hreport & Hfuel).
    rewrite (Hfuel (S (S (length (rest f))))).
    + rewrite Hreport. reflexivity.
    + right. rewrite Hst0. unfold rounds_left_out. cbn [v_in v_filesize].
      destruct (nFileSize =? 0); lia.
  - intros w argv fin fout opts defined Hparse.
    unfold main. rewrite Hparse.
    cbn [pszInFilename pszOutFilename bArgsError cCommand nOptions
         bVerifyCompression].
    change (String.eqb "z" "z") with true. cbv iota.
    destruct (lz4ultra_compress _ _ _ w fin fout opts) as [[[nResult w1] d1] |];
      [| reflexivity].
    rewrite andb_true_r.
    destruct (nResult =? 0); [| reflexivity].
    destruct (lz4ultra_compare _ w1 fout fin opts) as [[[nResult2 w2] d2] |];
      reflexivity.
Qed.

End Verification.

Lemma mismatch_reported_at_block_start_witness :
  lz4ultra_compare expand_block_model
    (world_of [("stored.lz4", stored_AC); ("orig.bin", [x41; x42])])
    "stored.lz4" "orig.bin" 0
  = Some (100,
          world_of [("stored.lz4", stored_AC); ("orig.bin", [x41; x42])],
          [DiagCompareError 0]).
Proof.
  refine (proj1 (proj2 (mismatch_reported_at_block_start unit accepting_init
             accepting_shrink accepting_count expand_block_model 0 0
             compare_AC_state compare_AC_state
             (read_block_size (block_header 2 true)) 0 2
             (RFile ([x41; x43] ++ [x00; x00; x00; x00]) false)
             (RFile [x00; x00; x00; x00] false)
             [x41; x43]
             (blit (zeros (Z.to_nat (BLOCK_SIZE * 2))) BLOCK_SIZE [x41; x43])
             _ _ _ _ _ _ _ _ _ _ _))
            (world_of [("stored.lz4", stored_AC); ("orig.bin", [x41; x42])])
            "stored.lz4" "orig.bin" stored_AC [x41; x42]
            (RFile (block_header 2 true ++ [x41; x43] ++ [x00; x00; x00; x00])
               false) 0 _ _ _ _).
  - reflexivity.
  - reflexivity.
  - reflexivity.
  - reflexivity.
  - vm_compute. reflexivity.
  - vm_compute. discriminate.
  - vm_compute. reflexivity.
  - vm_compute. reflexivity.
  - reflexivity.
  - lia.
  - vm_compute. discriminate.
  - reflexivity.
  - vm_compute. reflexivity.
  - reflexivity.
  - reflexivity.
Defined.
